(** * update-dependencies: the batch workflow of [UpdateDependenciesMain]

    Shallow embedding of
    [scopes/scope/update-dependencies/update-dependencies.main.runtime.ts].

    The class drives a batch of components through import, parse/resolve,
    version planning, dependency rewriting, stamping, staging, build and
    commit.  Almost every line is a call into a collaborator (scope, legacy
    scope, builder, dependency resolver, remotes).  The embedding keeps the
    control flow, the in-place mutation of the components and the order of
    the collaborator calls:

    - the collaborators are the fields of one record, [Collaborators];
      each asynchronous one is a transition on an abstract world [W] that
      may throw;
    - every collaborator call is appended to a trace, with its arguments
      and its outcome;
    - a JavaScript method that mutates an object and may throw midway is a
      state transformer on that object that returns the object as it is at
      the moment of the throw;
    - [await] is sequencing, and [Promise.all] over an array is taken in
      array order.

    Three parts of the repository that the file uses but does not declare
    are modelled from the spec rather than taken as parameters: the class
    [Component], [BitIds.searchWithoutVersion] and
    [ScopeMain.getExactVersionBySemverRange]. *)

From Stdlib Require Import Ascii.
From stdpp Require Import base strings list sorting gmap pretty.

Local Open Scope string_scope.
Local Open Scope list_scope.

(** ** JavaScript values *)

(** [a || d] on a possibly undefined string: the empty string is falsy. *)
Definition truthy (o : option string) : bool :=
  match o with
  | Some s => negb (String.eqb s EmptyString)
  | None => false
  end.

Definition or_default (o : option string) (d : string) : string :=
  match o with
  | Some s => if String.eqb s EmptyString then d else s
  | None => d
  end.

(** Opaque JSON payloads (extension data, builder data). *)
#[warnings="-register-all"]
Inductive JsonValue :=
| JNull
| JBool (b : bool)
| JNum (n : Z)
| JStr (s : string)
| JArr (l : list JsonValue)
| JObj (l : list (string * JsonValue)).

(** ** Identifiers *)

Module BitId.
Record t := mk { scope : string; name : string; version : option string }.

Definition changeVersion (v : option string) (b : t) : t :=
  {| scope := scope b; name := name b; version := v |}.

Definition isEqualWithoutVersion (a b : t) : bool :=
  String.eqb (scope a) (scope b) && String.eqb (name a) (name b).
End BitId.

(** Modelled from the spec: [BitIds.searchWithoutVersion] is declared in the
    legacy [bit-id] package.  The spec (3, 4.3) keys the lookup set by
    identifier-ignoring-version; the array built by [BitIds.fromArray] keeps
    its order and the search returns the first entry with the same scope and
    name. *)
Definition searchWithoutVersion (ids : list BitId.t) (x : BitId.t) : option BitId.t :=
  List.find (BitId.isEqualWithoutVersion x) ids.

Module ComponentID.
Record t := mk { _legacy : BitId.t }.

Definition version (c : t) : option string := BitId.version (_legacy c).

Definition changeVersion (v : option string) (c : t) : t :=
  mk (BitId.changeVersion v (_legacy c)).
End ComponentID.

(** [LATEST] of [bit-bin/dist/constants]. *)
Definition LATEST : string := "latest".

(** ** Components *)

Module Dependency.
Record t := mk { id : BitId.t; packageName : option string }.
End Dependency.

Module ExtensionDataEntry.
(** [new ExtensionDataEntry(legacyId, extensionId, name, config, data)]. *)
Record t := mk {
  legacyId : option string;
  extensionId : option BitId.t;
  name : option string;
  config : option JsonValue;
  data : gmap string JsonValue
}.

Definition set_extensionId (i : option BitId.t) (e : t) : t :=
  {| legacyId := legacyId e; extensionId := i; name := name e;
     config := config e; data := data e |}.

Definition set_data (d : gmap string JsonValue) (e : t) : t :=
  {| legacyId := legacyId e; extensionId := extensionId e; name := name e;
     config := config e; data := d |}.
End ExtensionDataEntry.

Inductive BuildStatus := Pending | Failed | Succeed.

Module Log.
Record t := mk { username : string; email : string; message : string; date : string }.
End Log.

Module ConsumerComponent.
Record t := mk {
  scope : string;
  name : string;
  version : option string;
  dependencies : list Dependency.t;
  devDependencies : list Dependency.t;
  extensions : list ExtensionDataEntry.t;
  buildStatus : option BuildStatus;
  log : option Log.t
}.

(** The legacy component's [id] getter: scope, name and the current value
    of the mutable [version] field.  It is only ever handed to
    collaborators. *)
Definition id (c : t) : BitId.t :=
  {| BitId.scope := scope c; BitId.name := name c; BitId.version := version c |}.

Definition set_version (v : option string) (c : t) : t :=
  mk (scope c) (name c) v (dependencies c) (devDependencies c)
     (extensions c) (buildStatus c) (log c).

Definition set_dependencies (d : list Dependency.t) (c : t) : t :=
  mk (scope c) (name c) (version c) d (devDependencies c)
     (extensions c) (buildStatus c) (log c).

Definition set_devDependencies (d : list Dependency.t) (c : t) : t :=
  mk (scope c) (name c) (version c) (dependencies c) d
     (extensions c) (buildStatus c) (log c).

Definition set_extensions (x : list ExtensionDataEntry.t) (c : t) : t :=
  mk (scope c) (name c) (version c) (dependencies c) (devDependencies c)
     x (buildStatus c) (log c).

Definition set_buildStatus (b : option BuildStatus) (c : t) : t :=
  mk (scope c) (name c) (version c) (dependencies c) (devDependencies c)
     (extensions c) b (log c).

Definition set_log (l : option Log.t) (c : t) : t :=
  mk (scope c) (name c) (version c) (dependencies c) (devDependencies c)
     (extensions c) (buildStatus c) l.
End ConsumerComponent.

Module Component.
(** Modelled from the spec: the class [Component] is declared in the
    component aspect.  The source reads [component.id] (a [ComponentID]) and
    [component.state._consumer] (the mutable legacy component) as two parts,
    and rebuilds the [Component] from its legacy component in
    [updateComponents] once the legacy component has been mutated.  The spec
    (3) has the same two parts: an immutable identifier, and a [version]
    that the planner assigns. *)
Record t := mk { id : ComponentID.t; _consumer : ConsumerComponent.t }.

Definition set_consumer (c : ConsumerComponent.t) (x : t) : t :=
  mk (id x) c.
End Component.

(** ** The unit of work *)

Module DepUpdateItemRaw.
Record t := mk {
  componentId : string;
  dependencies : list string;
  versionToTag : option string
}.
End DepUpdateItemRaw.

Module DepUpdateItem.
Record t := mk {
  component : Component.t;
  dependencies : list ComponentID.t;
  versionToTag : option string
}.

Definition set_component (c : Component.t) (d : t) : t :=
  mk c (dependencies d) (versionToTag d).

Definition legacy (d : t) : ConsumerComponent.t :=
  Component._consumer (component d).

Definition set_legacy (c : ConsumerComponent.t) (d : t) : t :=
  set_component (Component.set_consumer c (component d)) d.
End DepUpdateItem.

Module UpdateDepsOptions.
Record t := mk {
  tag : bool;
  snap : bool;
  output : option string;
  multiple : bool;
  message : option string;
  username : option string;
  email : option string
}.
End UpdateDepsOptions.

Module UpdateDepsResult.
Record t := mk {
  depsUpdateItems : list DepUpdateItem.t;
  publishedPackages : list string;
  error : option string
}.
End UpdateDepsResult.

(** ** Exceptions and results *)

Inductive exn :=
| ComponentNotFound (id : ComponentID.t)
| Error (msg : string).

Inductive result (A : Type) :=
| Ok (a : A)
| Err (e : exn).
Arguments Ok {A} a.
Arguments Err {A} e.

(** ** Objects handed back by collaborators *)

(** A result of one build pipeline: it reports whether it produced errors
    and renders a formatted error message (spec 6). *)
Module PipeResult.
Record t := mk { hasErrors : bool; getErrorMessageFormatted : string }.
End PipeResult.

(** An entry of the dependency resolver's list; [getPackageName] is an
    optional method. *)
Module DependencyEntry.
Record t := mk { getPackageName : option string }.
End DependencyEntry.

Module DependencyList.
Record t := mk { findDependency : string -> option DependencyEntry.t }.
End DependencyList.

(** The model component of the legacy scope.  [getSnapToAdd] mints a fresh
    hash; the object is fetched anew for every item, so the hash is a field
    of the fetched object. *)
Module ModelComponent.
Record t := mk {
  getVersionToAdd : option string -> option string -> result string;
  getSnapToAdd : string
}.
End ModelComponent.

(** ** The trace of collaborator calls *)

Inductive Event :=
| EvImport (ids : list ComponentID.t) (useCache : bool) (r : result unit)
| EvGet (id : ComponentID.t) (r : result (option Component.t))
| EvGetExactVersionBySemverRange (id : ComponentID.t) (range : string)
    (r : result (option string))
| EvGetModelComponent (id : BitId.t) (r : result ModelComponent.t)
| EvGetDependencies (c : Component.t) (r : result DependencyList.t)
| EvDebug (msg : string)
| EvExtractDepsFromLegacy (c : Component.t) (r : result JsonValue)
| EvDateNow (now : string)
| EvAddFlattenedDependencies (cs : list ConsumerComponent.t)
    (r : result (list ConsumerComponent.t))
| EvAddSourceFromScope (c : ConsumerComponent.t) (r : result unit)
| EvGetFromConsumerComponent (c : ConsumerComponent.t) (r : result Component.t)
| EvTagListener (cs : list Component.t) (throwOnError seedersOnly : bool)
    (r : result (JsonValue * list PipeResult.t))
| EvEnrichSource (c : ConsumerComponent.t) (r : result unit)
| EvPersist (r : result unit)
| EvExportMany (ids : list BitId.t) (r : result unit)
| EvGetScopeRemotes (r : result unit)
| EvRemoteResolve (scopeName : string) (r : result string)
| EvRemoteAction (remote : string) (action : string) (ids : list string)
    (r : result unit).

(** The stage of the workflow (spec 4.4) a call belongs to. *)
Definition stage (e : Event) : nat :=
  match e with
  | EvImport _ _ _ => 1
  | EvGet _ _ | EvGetExactVersionBySemverRange _ _ _ => 2
  | EvGetModelComponent _ _ => 3
  | EvGetDependencies _ _ | EvDebug _ | EvExtractDepsFromLegacy _ _ => 4
  | EvDateNow _ | EvAddFlattenedDependencies _ _ => 6
  | EvAddSourceFromScope _ _ | EvGetFromConsumerComponent _ _ => 7
  | EvTagListener _ _ _ _ => 8
  | EvEnrichSource _ _ | EvPersist _ => 10
  | EvExportMany _ _ | EvGetScopeRemotes _ | EvRemoteResolve _ _
  | EvRemoteAction _ _ _ _ => 11
  end.

(** ** The state-and-exception monad *)

Definition SE (S A : Type) : Type := S -> result A * S.

Definition ret {S A} (a : A) : SE S A := fun s => (Ok a, s).

Definition throw {S A} (e : exn) : SE S A := fun s => (Err e, s).

Definition bind {S A B} (m : SE S A) (k : A -> SE S B) : SE S B :=
  fun s =>
    match m s with
    | (Ok a, s1) => k a s1
    | (Err e, s1) => (Err e, s1)
    end.

Notation "x <- m ;; k" := (bind m (fun x => k))
  (at level 100, m at next level, right associativity).
Notation "m ;;; k" := (bind m (fun _ => k))
  (at level 100, right associativity).

Definition gets {S A} (f : S -> A) : SE S A := fun s => (Ok (f s), s).

Definition of_result {S A} (r : result A) : SE S A := fun s => (r, s).

(** [mapSeries] / a sequential [map] of a callback that returns a value. *)
Fixpoint mapM {S A B} (f : A -> SE S B) (l : list A) : SE S (list B) :=
  match l with
  | [] => ret []
  | a :: r => b <- f a ;; bs <- mapM f r ;; ret (b :: bs)
  end.

(** [forEach] / [mapSeries] of a callback that mutates the element it is
    given: the elements already visited keep their mutation when a later
    callback throws, and the throwing callback's own element keeps what was
    done to it before the throw.  The elements are distinct objects: an
    item of the batch holds its own component. *)
Fixpoint forEach {X E} (f : SE (X * E) unit) (l : list X) (e : E)
  : result unit * (list X * E) :=
  match l with
  | [] => (Ok tt, ([], e))
  | x :: r =>
      match f (x, e) with
      | (Ok _, (x', e1)) =>
          let '(res, (r', e2)) := forEach f r e1 in (res, (x' :: r', e2))
      | (Err err, (x', e1)) => (Err err, (x' :: r, e1))
      end
  end.

Definition forEachM {X E} (f : SE (X * E) unit) : SE (list X * E) unit :=
  fun s => forEach f (fst s) (snd s).

(** Run a computation on a part [Y] of the object [X] in focus. *)
Definition zoom {X Y E A} (get : X -> Y) (set : Y -> X -> X)
    (m : SE (Y * E) A) : SE (X * E) A :=
  fun s =>
    let '(r, (y, e)) := m (get (fst s), snd s) in (r, (set y (fst s), e)).

(** Run a computation that does not touch the object in focus. *)
Definition liftE {X E A} (m : SE E A) : SE (X * E) A :=
  fun s => let '(r, e) := m (snd s) in (r, (fst s, e)).

Definition getX {X E} : SE (X * E) X := fun s => (Ok (fst s), s).

Definition modifyX {X E} (f : X -> X) : SE (X * E) unit :=
  fun s => (Ok tt, (f (fst s), snd s)).

(** ** The collaborators *)

Record Env (W : Type) := mkEnv { world : W; trace : list Event }.
Arguments mkEnv {W} world trace.
Arguments world {W} e.
Arguments trace {W} e.

(** Everything the class calls that is declared outside its file.  The
    asynchronous calls are transitions on the world [W]; the synchronous
    helpers are functions, with a [result] where they can throw. *)
Record Collaborators (W : Type) := {
  ComponentID_fromString : string -> result ComponentID.t;
  ComponentID_toString : ComponentID.t -> string;
  BitId_toString : BitId.t -> string;
  scope_import : list ComponentID.t -> bool -> W -> result unit * W;
  scope_get : ComponentID.t -> W -> result (option Component.t) * W;
  scope_getVersionHistory : ComponentID.t -> W -> result (list string) * W;
  semver_satisfies : string -> string -> bool;
  semver_gt : string -> string -> bool;
  legacyScope_getModelComponent : BitId.t -> W -> result ModelComponent.t * W;
  getValidVersionOrReleaseType :
    string -> result (option string * option string);
  dependencyResolver_getDependencies :
    Component.t -> W -> result DependencyList.t * W;
  dependencyResolver_extractDepsFromLegacy :
    Component.t -> W -> result JsonValue * W;
  DependencyResolverAspect_id : string;
  extension_matches : string -> ExtensionDataEntry.t -> bool;
  Date_now : W -> string * W;
  addFlattenedDependenciesToComponents :
    list ConsumerComponent.t -> W -> result (list ConsumerComponent.t) * W;
  sources_addSourceFromScope : ConsumerComponent.t -> W -> result unit * W;
  scope_getFromConsumerComponent :
    ConsumerComponent.t -> W -> result Component.t * W;
  builder_tagListener :
    list Component.t -> bool -> bool -> W ->
    result (JsonValue * list PipeResult.t) * W;
  scope_builderDataMapToLegacyOnTagResults : JsonValue -> JsonValue;
  updateComponentsByTagResult :
    list ConsumerComponent.t -> JsonValue -> list ConsumerComponent.t;
  getPublishedPackages : list ConsumerComponent.t -> list string;
  sources_enrichSource : ConsumerComponent.t -> W -> result unit * W;
  objects_persist : W -> result unit * W;
  exportMany : list BitId.t -> W -> result unit * W;
  getScopeRemotes : W -> result unit * W;
  remotes_resolve : string -> W -> result string * W;
  remote_action : string -> string -> list string -> W -> result unit * W
}.

(** The two private fields of the class. *)
Module This.
Record t := mk {
  depsUpdateItems : list DepUpdateItem.t;
  updateDepsOptions : UpdateDepsOptions.t
}.

Definition set_depsUpdateItems (l : list DepUpdateItem.t) (x : t) : t :=
  mk l (updateDepsOptions x).

Definition set_updateDepsOptions (o : UpdateDepsOptions.t) (x : t) : t :=
  mk (depsUpdateItems x) o.

Definition legacyComponents (x : t) : list ConsumerComponent.t :=
  map DepUpdateItem.legacy (depsUpdateItems x).

Definition components (x : t) : list Component.t :=
  map DepUpdateItem.component (depsUpdateItems x).
End This.

(** Objects mutated in place by a collaborator that was handed the array
    [l]: the i-th object takes the i-th state the collaborator left. *)
Definition write_back {X Y} (set : Y -> X -> X) (l : list X) (ys : list Y) : list X :=
  imap (fun i x => match ys !! i with Some y => set y x | None => x end) l.

(** [BitIds.toGroupByScopeName]: the identifiers grouped by scope, the
    groups in the order in which their scope first occurs. *)
Fixpoint group_insert (scopeName : string) (id : BitId.t)
    (acc : list (string * list BitId.t)) : list (string * list BitId.t) :=
  match acc with
  | [] => [(scopeName, [id])]
  | (k, ids) :: r =>
      if String.eqb k scopeName then (k, ids ++ [id]) :: r
      else (k, ids) :: group_insert scopeName id r
  end.

Definition toGroupByScopeName (ids : list BitId.t) : list (string * list BitId.t) :=
  fold_left (fun acc id => group_insert (BitId.scope id) id acc) ids [].

(** [PostSign.name]. *)
Definition PostSign_name : string := "PostSign".

Definition dq : string := String (Ascii.ascii_of_nat 34) EmptyString.

Definition show_version (v : option string) : string :=
  match v with Some s => s | None => "undefined" end.

(** ** The class [UpdateDependenciesMain] *)

Section UpdateDependenciesMain.
Context {W : Type} (C : Collaborators W).

(** The state of a method: the fields of [this] and the world. *)
Definition Main : Type := (This.t * Env W)%type.

(** A collaborator call: run it on the world, log it with its outcome. *)
Definition call {A} (f : W -> result A * W) (ev : result A -> Event)
  : SE (Env W) A :=
  fun env =>
    let '(r, w) := f (world env) in (r, mkEnv w (trace env ++ [ev r])).

Definition logger_debug (msg : string) : SE (Env W) unit :=
  fun env => (Ok tt, mkEnv (world env) (trace env ++ [EvDebug msg])).

Definition fromString {S} (str : string) : SE S ComponentID.t :=
  of_result (ComponentID_fromString W C str).

(** *** importAllMissing *)

Definition importAllMissing (depsUpdateItemsRaw : list DepUpdateItemRaw.t)
  : SE Main unit :=
  componentIds <-
    mapM (fun d => fromString (DepUpdateItemRaw.componentId d))
         depsUpdateItemsRaw ;;
  dependenciesIds <-
    mapM (fun item =>
            ids <- mapM fromString (DepUpdateItemRaw.dependencies item) ;;
            ret (map (ComponentID.changeVersion (Some LATEST)) ids))
         depsUpdateItemsRaw ;;
  let flat := concat dependenciesIds in
  multiple <- gets (fun s => UpdateDepsOptions.multiple
                               (This.updateDepsOptions (fst s))) ;;
  let idsToImport := if multiple then flat ++ componentIds else flat in
  liftE (call (scope_import W C idsToImport false)
              (EvImport idsToImport false)).

(** *** getDependencyWithExactVersion *)

(** The highest element of [versions] that satisfies [range], scanning
    the list as [semver.maxSatisfying] does. *)
Definition maxSatisfying (versions : list string) (range : string)
  : option string :=
  fold_left
    (fun max v =>
       if semver_satisfies W C v range then
         match max with
         | None => Some v
         | Some m => if semver_gt W C v m then Some v else Some m
         end
       else max)
    versions None.

(** Modelled from the spec: [ScopeMain.getExactVersionBySemverRange] is
    declared in the scope aspect.  By the spec (4.1) it scans the
    component's known version history (the store's [getVersionHistory]) and
    returns the highest version satisfying the range, or nothing. *)
Definition getExactVersionBySemverRange (id : ComponentID.t) (range : string)
  : SE (Env W) (option string) :=
  fun env =>
    let '(r, w) := scope_getVersionHistory W C id (world env) in
    let exact :=
      match r with
      | Ok versions => Ok (maxSatisfying versions range)
      | Err e => Err e
      end in
    (exact,
     mkEnv w (trace env ++ [EvGetExactVersionBySemverRange id range exact])).

Definition unsatisfiable_msg (range depStr : string) : string :=
  "unable to find a version that satisfies " +:+ dq +:+ range +:+ dq
    +:+ " of " +:+ dq +:+ depStr +:+ dq.

Definition getDependencyWithExactVersion (depStr : string)
  : SE (Env W) ComponentID.t :=
  compId <- fromString depStr ;;
  let range := or_default (ComponentID.version compId) "*" in
  let id := ComponentID.changeVersion None compId in
  exactVersion <- getExactVersionBySemverRange id range ;;
  if truthy exactVersion
  then ret (ComponentID.changeVersion exactVersion compId)
  else throw (Error (unsatisfiable_msg range depStr)).

(** *** parseDevUpdatesItems *)

(** [Promise.all] over the dependency strings is taken in list order. *)
Definition parseDevUpdatesItem (depUpdateItemRaw : DepUpdateItemRaw.t)
  : SE (Env W) DepUpdateItem.t :=
  componentId <- fromString (DepUpdateItemRaw.componentId depUpdateItemRaw) ;;
  component <- call (scope_get W C componentId) (EvGet componentId) ;;
  match component with
  | None => throw (ComponentNotFound componentId)
  | Some component =>
      dependencies <-
        mapM getDependencyWithExactVersion
             (DepUpdateItemRaw.dependencies depUpdateItemRaw) ;;
      ret (DepUpdateItem.mk component dependencies
             (DepUpdateItemRaw.versionToTag depUpdateItemRaw))
  end.

Definition parseDevUpdatesItems (depsUpdateItemsRaw : list DepUpdateItemRaw.t)
  : SE (Env W) (list DepUpdateItem.t) :=
  mapM parseDevUpdatesItem depsUpdateItemsRaw.

(** *** updateFutureVersion *)

Definition onItems {A} (m : SE (list DepUpdateItem.t * Env W) A) : SE Main A :=
  zoom This.depsUpdateItems This.set_depsUpdateItems m.

Definition onLegacy {A} (m : SE (ConsumerComponent.t * Env W) A)
  : SE (DepUpdateItem.t * Env W) A :=
  zoom DepUpdateItem.legacy DepUpdateItem.set_legacy m.

Definition planVersion (opts : UpdateDepsOptions.t)
  : SE (DepUpdateItem.t * Env W) unit :=
  depUpdateItem <- getX ;;
  let legacyComp := DepUpdateItem.legacy depUpdateItem in
  modelComponent <-
    liftE (call (legacyScope_getModelComponent W C (ConsumerComponent.id legacyComp))
                (EvGetModelComponent (ConsumerComponent.id legacyComp))) ;;
  if UpdateDepsOptions.tag opts then
    rv <- of_result
            (getValidVersionOrReleaseType W C
               (or_default (DepUpdateItem.versionToTag depUpdateItem) "patch")) ;;
    v <- of_result
           (ModelComponent.getVersionToAdd modelComponent (fst rv) (snd rv)) ;;
    onLegacy (modifyX (ConsumerComponent.set_version (Some v)))
  else
    onLegacy (modifyX (ConsumerComponent.set_version
                         (Some (ModelComponent.getSnapToAdd modelComponent)))).

Definition updateFutureVersion : SE Main unit :=
  opts <- gets (fun s => This.updateDepsOptions (fst s)) ;;
  onItems (forEachM (planVersion opts)).

(** *** updateDependenciesVersionsOfComponent *)

Definition missing_package_msg (depIdStr componentIdStr : string) : string :=
  "unable to find the package-name of " +:+ dq +:+ depIdStr +:+ dq
    +:+ " dependency inside the dependency-resolver data of "
    +:+ dq +:+ componentIdStr +:+ dq.

Definition lookupPackageName (dependenciesList : DependencyList.t)
    (depIdStr : string) : option string :=
  match DependencyList.findDependency dependenciesList depIdStr with
  | Some entry => DependencyEntry.getPackageName entry
  | None => None
  end.

(** The callback of [deps.forEach]. *)
Definition rewriteDep (updatedIds : list BitId.t)
    (dependenciesList : DependencyList.t) (componentIdStr : string)
  : SE (Dependency.t * Env W) unit :=
  dep <- getX ;;
  match searchWithoutVersion updatedIds (Dependency.id dep) with
  | Some updatedBitId =>
      let depIdStr := BitId_toString W C (Dependency.id dep) in
      let packageName := lookupPackageName dependenciesList depIdStr in
      if truthy packageName then
        liftE (logger_debug
                 ("updating " +:+ dq +:+ componentIdStr +:+ dq
                    +:+ ", dependency " +:+ depIdStr +:+ " to version "
                    +:+ show_version (BitId.version updatedBitId) +:+ "}")) ;;;
        modifyX (fun _ => Dependency.mk updatedBitId packageName)
      else throw (Error (missing_package_msg depIdStr componentIdStr))
  | None => ret tt
  end.

(** The callback of [legacyComponent.extensions.forEach]. *)
Definition rewriteExt (updatedIds : list BitId.t) (componentIdStr : string)
  : SE (ExtensionDataEntry.t * Env W) unit :=
  ext <- getX ;;
  match ExtensionDataEntry.extensionId ext with
  | None => ret tt
  | Some extensionId =>
      match searchWithoutVersion updatedIds extensionId with
      | Some updatedBitId =>
          liftE (logger_debug
                   ("updating " +:+ dq +:+ componentIdStr +:+ dq
                      +:+ ", extension " +:+ BitId_toString W C extensionId
                      +:+ " to version "
                      +:+ show_version (BitId.version updatedBitId) +:+ "}")) ;;;
          modifyX (ExtensionDataEntry.set_extensionId (Some updatedBitId))
      | None => ret tt
      end
  end.

(** [[...dependencies.get(), ...devDependencies.get()]]: one array over
    the dependency objects of both lists. *)
Definition allDeps (c : ConsumerComponent.t) : list Dependency.t :=
  ConsumerComponent.dependencies c ++ ConsumerComponent.devDependencies c.

Definition set_allDeps (l : list Dependency.t) (c : ConsumerComponent.t)
  : ConsumerComponent.t :=
  let n := length (ConsumerComponent.dependencies c) in
  ConsumerComponent.set_devDependencies (drop n l)
    (ConsumerComponent.set_dependencies (take n l) c).

Definition onConsumer {A} (m : SE (ConsumerComponent.t * Env W) A)
  : SE (Component.t * Env W) A :=
  zoom Component._consumer Component.set_consumer m.

Definition updatedIdsOf (dependencies : list ComponentID.t)
    (currentBitIds : list BitId.t) : list BitId.t :=
  currentBitIds ++ map ComponentID._legacy dependencies.

Definition updateDependenciesVersionsOfComponent
    (dependencies : list ComponentID.t) (currentBitIds : list BitId.t)
  : SE (Component.t * Env W) unit :=
  let updatedIds := updatedIdsOf dependencies currentBitIds in
  component <- getX ;;
  let componentIdStr := ComponentID_toString W C (Component.id component) in
  dependenciesList <-
    liftE (call (dependencyResolver_getDependencies W C component)
                (EvGetDependencies component)) ;;
  onConsumer
    (zoom allDeps set_allDeps
       (forEachM (rewriteDep updatedIds dependenciesList componentIdStr)) ;;;
     zoom ConsumerComponent.extensions ConsumerComponent.set_extensions
       (forEachM (rewriteExt updatedIds componentIdStr))).

(** *** updateDependencyResolver *)

(** [extensions.findExtension(extId)]: the position of the first entry
    that the extension list matches with [extId]. *)
Fixpoint findExtension (extId : string) (exts : list ExtensionDataEntry.t)
  : option nat :=
  match exts with
  | [] => None
  | e :: r =>
      if extension_matches W C extId e then Some 0
      else option_map S (findExtension extId r)
  end.

(** [Object.assign(existing.data, data)] with [data = { dependencies }]. *)
Definition assign_dependencies (dependencies : JsonValue)
    (e : ExtensionDataEntry.t) : ExtensionDataEntry.t :=
  ExtensionDataEntry.set_data
    (<["dependencies" := dependencies]> (ExtensionDataEntry.data e)) e.

Definition mergeDependencyResolverData (extId : string)
    (dependencies : JsonValue) (exts : list ExtensionDataEntry.t)
  : list ExtensionDataEntry.t :=
  match findExtension extId exts with
  | Some i => alter (assign_dependencies dependencies) i exts
  | None =>
      exts ++ [ExtensionDataEntry.mk None None (Some extId) None
                 {["dependencies" := dependencies]}]
  end.

Definition updateDependencyResolver : SE (Component.t * Env W) unit :=
  component <- getX ;;
  dependencies <-
    liftE (call (dependencyResolver_extractDepsFromLegacy W C component)
                (EvExtractDepsFromLegacy component)) ;;
  let extId := DependencyResolverAspect_id W C in
  onConsumer
    (zoom ConsumerComponent.extensions ConsumerComponent.set_extensions
       (modifyX (mergeDependencyResolverData extId dependencies))).

(** *** updateAllDeps *)

Definition onComponent {A} (m : SE (Component.t * Env W) A)
  : SE (DepUpdateItem.t * Env W) A :=
  zoom DepUpdateItem.component DepUpdateItem.set_component m.

Definition updateDepsOfItem (currentBitIds : list BitId.t)
  : SE (DepUpdateItem.t * Env W) unit :=
  item <- getX ;;
  onComponent
    (updateDependenciesVersionsOfComponent
       (DepUpdateItem.dependencies item) currentBitIds ;;;
     updateDependencyResolver).

Definition currentBitIdsOf (items : list DepUpdateItem.t) : list BitId.t :=
  map (fun c => ComponentID._legacy (Component.id c))
      (map DepUpdateItem.component items).

Definition updateAllDeps : SE Main unit :=
  items <- gets (fun s => This.depsUpdateItems (fst s)) ;;
  let currentBitIds := currentBitIdsOf items in
  onItems (forEachM (updateDepsOfItem currentBitIds)).

(** *** addLogToComponents, addBuildStatus *)

(** [Date.now().toString()]. *)
Definition date_now : SE (Env W) string :=
  fun env =>
    let '(d, w) := Date_now W C (world env) in
    (Ok d, mkEnv w (trace env ++ [EvDateNow d])).

Definition stampLog (opts : UpdateDepsOptions.t)
  : SE (ConsumerComponent.t * Env W) unit :=
  now <- liftE date_now ;;
  modifyX (ConsumerComponent.set_log
             (Some {| Log.username := or_default (UpdateDepsOptions.username opts) "ci";
                      Log.email := or_default (UpdateDepsOptions.email opts) "ci@bit.dev";
                      Log.message :=
                        or_default (UpdateDepsOptions.message opts) "update-dependencies";
                      Log.date := now |})).

Definition addLogToComponents : SE Main unit :=
  opts <- gets (fun s => This.updateDepsOptions (fst s)) ;;
  onItems (forEachM (onLegacy (stampLog opts))).

Definition addBuildStatus : SE Main unit :=
  onItems (forEachM (onLegacy
    (modifyX (ConsumerComponent.set_buildStatus (Some Pending))))).

(** [addFlattenedDependenciesToComponents(scope, legacyComponents)]
    mutates the legacy components it is handed. *)
Definition addFlattenedDependencies : SE Main unit :=
  legacyComponents <- gets (fun s => This.legacyComponents (fst s)) ;;
  updated <-
    liftE (call (addFlattenedDependenciesToComponents W C legacyComponents)
                (EvAddFlattenedDependencies legacyComponents)) ;;
  onItems (modifyX (fun items =>
    write_back DepUpdateItem.set_legacy items updated)).

(** *** addComponentsToScope, updateComponents *)

Definition addComponentsToScope : SE Main unit :=
  legacyComponents <- gets (fun s => This.legacyComponents (fst s)) ;;
  liftE (mapM (fun component =>
                 call (sources_addSourceFromScope W C component)
                      (EvAddSourceFromScope component))
              legacyComponents) ;;;
  ret tt.

Definition updateComponent : SE (DepUpdateItem.t * Env W) unit :=
  depUpdateItem <- getX ;;
  let legacyComp := DepUpdateItem.legacy depUpdateItem in
  component <-
    liftE (call (scope_getFromConsumerComponent W C legacyComp)
                (EvGetFromConsumerComponent legacyComp)) ;;
  modifyX (DepUpdateItem.set_component component).

Definition updateComponents : SE Main unit :=
  onItems (forEachM updateComponent).

(** *** saveDataIntoLocalScope *)

Definition saveComponent (buildStatus : BuildStatus)
  : SE (ConsumerComponent.t * Env W) unit :=
  modifyX (ConsumerComponent.set_buildStatus (Some buildStatus)) ;;;
  component <- getX ;;
  liftE (call (sources_enrichSource W C component) (EvEnrichSource component)).

Definition saveDataIntoLocalScope (buildStatus : BuildStatus) : SE Main unit :=
  onItems (forEachM (onLegacy (saveComponent buildStatus))) ;;;
  liftE (call (objects_persist W C) EvPersist).

(** *** export, clearScopesCaches *)

(** [exportMany] is called with the identifiers of the legacy components;
    its other options are constants. *)
Definition export : SE Main unit :=
  legacyComponents <- gets (fun s => This.legacyComponents (fst s)) ;;
  let ids := map ConsumerComponent.id legacyComponents in
  liftE (call (exportMany W C ids) (EvExportMany ids)).

(** The callback of [Object.keys(idsGroupedByScope).map]. *)
Definition clearScopeCache (group : string * list BitId.t) : SE (Env W) unit :=
  let scopeName := fst group in
  let ids := map (BitId_toString W C) (snd group) in
  remote <- call (remotes_resolve W C scopeName) (EvRemoteResolve scopeName) ;;
  call (remote_action W C remote PostSign_name ids)
       (EvRemoteAction remote PostSign_name ids).

(** [Promise.all] over the scope names is taken in key order. *)
Definition clearScopesCaches : SE Main unit :=
  legacyComponents <- gets (fun s => This.legacyComponents (fst s)) ;;
  let bitIds := map ConsumerComponent.id legacyComponents in
  let idsGroupedByScope := toGroupByScopeName bitIds in
  liftE (call (getScopeRemotes W C) EvGetScopeRemotes) ;;;
  liftE (mapM clearScopeCache idsGroupedByScope) ;;;
  ret tt.

(** *** updateDependenciesVersions *)

Definition buildStatusOf (pipeWithError : option PipeResult.t) : BuildStatus :=
  match pipeWithError with Some _ => Failed | None => Succeed end.

Definition errorOf (pipeWithError : option PipeResult.t) : option string :=
  match pipeWithError with
  | Some pipe => Some (PipeResult.getErrorMessageFormatted pipe)
  | None => None
  end.

Definition updateDependenciesVersions
    (depsUpdateItemsRaw : list DepUpdateItemRaw.t)
    (updateDepsOptions : UpdateDepsOptions.t) : SE Main UpdateDepsResult.t :=
  modifyX (This.set_updateDepsOptions updateDepsOptions) ;;;
  importAllMissing depsUpdateItemsRaw ;;;
  items <- liftE (parseDevUpdatesItems depsUpdateItemsRaw) ;;
  modifyX (This.set_depsUpdateItems items) ;;;
  updateFutureVersion ;;;
  updateAllDeps ;;;
  addLogToComponents ;;;
  addFlattenedDependencies ;;;
  addBuildStatus ;;;
  addComponentsToScope ;;;
  updateComponents ;;;
  components <- gets (fun s => This.components (fst s)) ;;
  built <- liftE (call (builder_tagListener W C components true true)
                       (EvTagListener components true true)) ;;
  let builderDataMap := fst built in
  let pipeResults := snd built in
  let legacyBuildResults :=
    scope_builderDataMapToLegacyOnTagResults W C builderDataMap in
  onItems (modifyX (fun items =>
    write_back DepUpdateItem.set_legacy items
      (updateComponentsByTagResult W C (map DepUpdateItem.legacy items)
         legacyBuildResults))) ;;;
  legacyComponents <- gets (fun s => This.legacyComponents (fst s)) ;;
  let publishedPackages := getPublishedPackages W C legacyComponents in
  let pipeWithError := List.find PipeResult.hasErrors pipeResults in
  let buildStatus := buildStatusOf pipeWithError in
  saveDataIntoLocalScope buildStatus ;;;
  (if UpdateDepsOptions.multiple updateDepsOptions
   then export else clearScopesCaches) ;;;
  depsUpdateItems <- gets (fun s => This.depsUpdateItems (fst s)) ;;
  ret {| UpdateDepsResult.depsUpdateItems := depsUpdateItems;
         UpdateDepsResult.publishedPackages := publishedPackages;
         UpdateDepsResult.error := errorOf pipeWithError |}.

End UpdateDependenciesMain.

Arguments Main : clear implicits.
Arguments call {W A} f ev env.
Arguments logger_debug {W} msg env.

(** ** A concrete scope

    A small instance of the collaborators, used to run the workflow: three
    components [teambit/a], [teambit/b] and [teambit/c] stored at 1.0.0,
    where [a] and [c] depend on [b] and the dependency resolver knows no
    package name for the dependencies of [c]. *)

Module Demo.

Fixpoint split_on (c : Ascii.ascii) (s : string) : option (string * string) :=
  match s with
  | EmptyString => None
  | String a r =>
      if Ascii.eqb a c then Some (EmptyString, r)
      else match split_on c r with
           | Some (x, y) => Some (String a x, y)
           | None => None
           end
  end.

Definition fromString (str : string) : result ComponentID.t :=
  match split_on "/"%char str with
  | None => Err (Error ("invalid id " +:+ str))
  | Some (scope, rest) =>
      match split_on "@"%char rest with
      | Some (name, v) => Ok (ComponentID.mk (BitId.mk scope name (Some v)))
      | None => Ok (ComponentID.mk (BitId.mk scope rest None))
      end
  end.

Definition bitIdToString (b : BitId.t) : string :=
  BitId.scope b +:+ "/" +:+ BitId.name b +:+
    match BitId.version b with Some v => "@" +:+ v | None => EmptyString end.

(** Versions [major.minor.patch]; anything else ranks as 0.0.0. *)
Fixpoint parse_digits (acc : N) (s : string) : option N :=
  match s with
  | EmptyString => Some acc
  | String a r =>
      let n := Ascii.N_of_ascii a in
      if (48 <=? n)%N && (n <=? 57)%N
      then parse_digits (10 * acc + (n - 48))%N r
      else None
  end.

Definition parse_num (s : string) : option N :=
  match s with
  | EmptyString => None
  | _ => parse_digits 0%N s
  end.

Definition parse_version (s : string) : option (N * N * N) :=
  match split_on "."%char s with
  | Some (ma, rest) =>
      match split_on "."%char rest with
      | Some (mi, pa) =>
          match parse_num ma, parse_num mi, parse_num pa with
          | Some a, Some b, Some c => Some (a, b, c)
          | _, _, _ => None
          end
      | None => None
      end
  | None => None
  end.

Definition version_key (s : string) : N * N * N :=
  match parse_version s with Some k => k | None => (0, 0, 0)%N end.

Definition key_lt (x y : N * N * N) : bool :=
  let '(a, b, c) := x in
  let '(a', b', c') := y in
  (a <? a')%N || ((a =? a')%N && ((b <? b')%N || ((b =? b')%N && (c <? c')%N))).

Definition gt (v m : string) : bool := key_lt (version_key m) (version_key v).

(** Ranges: [*], a caret range, or an exact version. *)
Definition satisfies (v range : string) : bool :=
  match parse_version v with
  | None => false
  | Some (a, b, c) =>
      if String.eqb range "*" then true
      else match range with
           | String "^"%char base =>
               match parse_version base with
               | Some (a', b', c') =>
                   (a =? a')%N && negb (key_lt (a, b, c) (a', b', c'))
               | None => false
               end
           | _ => String.eqb v range
           end
  end.

Definition bId := BitId.mk "teambit" "b" (Some "1.0.0").

Definition dep_b := Dependency.mk (BitId.mk "teambit" "b" (Some "0.9.0")) (Some "b-old").
Definition dep_x := Dependency.mk (BitId.mk "teambit" "x" (Some "0.1.0")) (Some "x-pkg").

Definition ext_b :=
  ExtensionDataEntry.mk None (Some (BitId.mk "teambit" "b" (Some "0.9.0"))) None None ∅.

Definition ext_resolver :=
  ExtensionDataEntry.mk None None (Some "teambit.dependencies/dependency-resolver")
    None (<["policy" := JStr "keep"]> (<["dependencies" := JNull]> ∅)).

Definition legacy_a :=
  ConsumerComponent.mk "teambit" "a" (Some "1.0.0") [dep_b] [dep_x]
    [ext_b; ext_resolver] None None.
Definition legacy_b :=
  ConsumerComponent.mk "teambit" "b" (Some "1.0.0") [] [] [] None None.
Definition legacy_c :=
  ConsumerComponent.mk "teambit" "c" (Some "1.0.0") [dep_b] [] [] None None.

Definition stored (c : ConsumerComponent.t) : Component.t :=
  Component.mk (ComponentID.mk (ConsumerComponent.id c)) c.

Definition store : list Component.t :=
  [stored legacy_a; stored legacy_b; stored legacy_c].

Definition get (id : ComponentID.t) : option Component.t :=
  List.find (fun c => BitId.isEqualWithoutVersion (ComponentID._legacy id)
                        (ComponentID._legacy (Component.id c))) store.

Definition history (id : ComponentID.t) : list string :=
  if String.eqb (BitId.name (ComponentID._legacy id)) "b"
  then ["1.0.0"; "1.1.0"; "2.0.0"] else ["1.0.0"].

Definition show_key (k : N * N * N) : string :=
  let '(a, b, c) := k in pretty a +:+ "." +:+ pretty b +:+ "." +:+ pretty c.

Definition versionToAdd (current : option string)
    (releaseType exactVersion : option string) : result string :=
  match exactVersion with
  | Some v => Ok v
  | None =>
      let '(a, b, c) :=
        version_key (match current with Some v => v | None => EmptyString end) in
      match releaseType with
      | Some "major" => Ok (show_key (a + 1, 0, 0)%N)
      | Some "minor" => Ok (show_key (a, b + 1, 0)%N)
      | Some "patch" => Ok (show_key (a, b, c + 1)%N)
      | _ => Err (Error "invalid release type")
      end
  end.

Definition validVersionOrReleaseType (s : string)
  : result (option string * option string) :=
  match parse_version s with
  | Some _ => Ok (None, Some s)
  | None =>
      if String.eqb s "major" || String.eqb s "minor" || String.eqb s "patch"
      then Ok (Some s, None)
      else Err (Error "invalid version or release type")
  end.

Definition modelComponent (id : BitId.t) : ModelComponent.t :=
  ModelComponent.mk (versionToAdd (BitId.version id))
    ("snap-" +:+ BitId.name id).

(** The dependency resolver names every dependency [pkg-<id>], except for
    the dependencies of [teambit/c], which it does not know. *)
Definition dependenciesOf (c : Component.t) : DependencyList.t :=
  DependencyList.mk (fun idStr =>
    if String.eqb (ConsumerComponent.name (Component._consumer c)) "c"
    then None
    else Some (DependencyEntry.mk (Some ("pkg-" +:+ idStr)))).

Definition extracted (c : Component.t) : JsonValue :=
  JArr (map (fun d => JStr (bitIdToString (Dependency.id d)))
            (ConsumerComponent.dependencies (Component._consumer c) ++
             ConsumerComponent.devDependencies (Component._consumer c))).

Definition resolverId : string := "teambit.dependencies/dependency-resolver".

Definition matches (extId : string) (e : ExtensionDataEntry.t) : bool :=
  match ExtensionDataEntry.extensionId e with
  | Some i => String.eqb (bitIdToString i) extId
  | None =>
      match ExtensionDataEntry.name e with
      | Some n => String.eqb n extId
      | None => false
      end
  end.

Definition pure {A} (a : A) (w : nat) : result A * nat := (Ok a, S w).

(** The world counts the calls; [pipes] is what the builder reports. *)
Definition scope (pipes : list PipeResult.t) : Collaborators nat :=
  {| ComponentID_fromString := fromString;
     ComponentID_toString := fun c => bitIdToString (ComponentID._legacy c);
     BitId_toString := bitIdToString;
     scope_import := fun _ _ => pure tt;
     scope_get := fun id => pure (get id);
     scope_getVersionHistory := fun id => pure (history id);
     semver_satisfies := satisfies;
     semver_gt := gt;
     legacyScope_getModelComponent := fun id => pure (modelComponent id);
     getValidVersionOrReleaseType := validVersionOrReleaseType;
     dependencyResolver_getDependencies := fun c => pure (dependenciesOf c);
     dependencyResolver_extractDepsFromLegacy := fun c => pure (extracted c);
     DependencyResolverAspect_id := resolverId;
     extension_matches := matches;
     Date_now := fun w => (pretty w, S w);
     addFlattenedDependenciesToComponents := fun cs => pure cs;
     sources_addSourceFromScope := fun _ => pure tt;
     scope_getFromConsumerComponent := fun c => pure (stored c);
     builder_tagListener := fun _ _ _ => pure (JNull, pipes);
     scope_builderDataMapToLegacyOnTagResults := fun j => j;
     updateComponentsByTagResult := fun cs _ => cs;
     getPublishedPackages :=
       fun cs => map (fun c => "pkg-" +:+ ConsumerComponent.name c) cs;
     sources_enrichSource := fun _ => pure tt;
     objects_persist := pure tt;
     exportMany := fun _ => pure tt;
     getScopeRemotes := pure tt;
     remotes_resolve := fun scopeName => pure ("remote-" +:+ scopeName);
     remote_action := fun _ _ _ => pure tt |}.

Definition options (tag multiple : bool) : UpdateDepsOptions.t :=
  UpdateDepsOptions.mk tag false None multiple None None None.

Definition start : Main nat :=
  (This.mk [] (options false false), mkEnv 0 []).

Definition brokenPipe := PipeResult.mk true "build failed".
Definition cleanPipe := PipeResult.mk false EmptyString.

(** Requests and parsed items over the three stored components. *)
Definition raw_a :=
  DepUpdateItemRaw.mk "teambit/a" ["teambit/b@^1.0.0"] (Some "minor").
Definition raw_a_plain := DepUpdateItemRaw.mk "teambit/a" [] None.
Definition raw_b := DepUpdateItemRaw.mk "teambit/b" [] (Some "3.0.0").
Definition raw_missing :=
  DepUpdateItemRaw.mk "teambit/zzz" ["teambit/b@^1.0.0"] None.
Definition raw_unsatisfiable :=
  DepUpdateItemRaw.mk "teambit/a" ["teambit/b@^7.0.0"] None.

Definition b_resolved := ComponentID.mk (BitId.mk "teambit" "b" (Some "1.1.0")).
Definition item_a := DepUpdateItem.mk (stored legacy_a) [b_resolved] None.
Definition item_c := DepUpdateItem.mk (stored legacy_c) [b_resolved] None.

(** The state in which [updateAllDeps] starts on the batch [a; c]. *)
Definition rewrite_start : Main nat :=
  (This.mk [item_a; item_c] (options true false), mkEnv 0 []).

End Demo.

(** ** Reading the trace of a state *)

Class Traced (S : Type) := trace_of : S -> list Event.

#[export] Instance Env_traced {W} : Traced (Env W) := trace.
#[export] Instance focus_traced {X S} `{Traced S} : Traced (X * S) :=
  fun s => trace_of (snd s).

(** [emits P m]: whatever [m] does, it only appends to the trace, and every
    call it appends satisfies [P]. *)
Definition emits {S A} `{Traced S} (P : Event -> Prop) (m : SE S A) : Prop :=
  forall s r s', m s = (r, s') ->
    exists t, trace_of s' = trace_of s ++ t /\ Forall P t.

Definition in_stage (p : nat) (e : Event) : Prop := stage e = p.

(** No call at all. *)
Definition silent (e : Event) : Prop := False.

Definition stage_between (lo hi : nat) (e : Event) : Prop :=
  lo <= stage e /\ stage e <= hi.

Definition stage_le (a b : Event) : Prop := stage a <= stage b.

(** [staged lo hi m]: the calls of [m] lie in stages [lo..hi] and come in
    stage order. *)
Definition staged {S A} `{Traced S} (lo hi : nat) (m : SE S A) : Prop :=
  forall s r s', m s = (r, s') ->
    exists t, trace_of s' = trace_of s ++ t /\
              Forall (stage_between lo hi) t /\ StronglySorted stage_le t.

(** ** Properties of version planning, as predicates *)


(** ** The workflow, cut at the build and at the end of the rewrite *)

Section Cuts.
Context {W : Type} (C : Collaborators W).

(** Lines 83 to 99 of the source: what follows the builder's answer. *)
Definition commitAndReturn (updateDepsOptions : UpdateDepsOptions.t)
    (built : JsonValue * list PipeResult.t) : SE (Main W) UpdateDepsResult.t :=
  let builderDataMap := fst built in
  let pipeResults := snd built in
  let legacyBuildResults :=
    scope_builderDataMapToLegacyOnTagResults W C builderDataMap in
  onItems (modifyX (fun items =>
    write_back DepUpdateItem.set_legacy items
      (updateComponentsByTagResult W C (map DepUpdateItem.legacy items)
         legacyBuildResults))) ;;;
  legacyComponents <- gets (fun s => This.legacyComponents (fst s)) ;;
  let publishedPackages := getPublishedPackages W C legacyComponents in
  let pipeWithError := List.find PipeResult.hasErrors pipeResults in
  let buildStatus := buildStatusOf pipeWithError in
  saveDataIntoLocalScope C buildStatus ;;;
  (if UpdateDepsOptions.multiple updateDepsOptions
   then export C else clearScopesCaches C) ;;;
  depsUpdateItems <- gets (fun s => This.depsUpdateItems (fst s)) ;;
  ret {| UpdateDepsResult.depsUpdateItems := depsUpdateItems;
         UpdateDepsResult.publishedPackages := publishedPackages;
         UpdateDepsResult.error := errorOf pipeWithError |}.

(** Lines 73 to 99: what follows the rewrite. *)
Definition stampBuildCommit (updateDepsOptions : UpdateDepsOptions.t)
  : SE (Main W) UpdateDepsResult.t :=
  addLogToComponents C ;;;
  addFlattenedDependencies C ;;;
  addBuildStatus ;;;
  addComponentsToScope C ;;;
  updateComponents C ;;;
  components <- gets (fun s => This.components (fst s)) ;;
  built <- liftE (call (builder_tagListener W C components true true)
                       (EvTagListener components true true)) ;;
  commitAndReturn updateDepsOptions built.

End Cuts.

(** ** Calls that abort the parse/resolve step *)

(** A lookup that finds nothing, with the exception it leads to. *)
Inductive aborts_with : Event -> exn -> Prop :=
| aborts_get id : aborts_with (EvGet id (Ok None)) (ComponentNotFound id)
| aborts_range id range depStr :
    aborts_with (EvGetExactVersionBySemverRange id range (Ok None))
      (Error ("unable to find a version that satisfies "
                +:+ dq +:+ range +:+ dq +:+ " of " +:+ dq +:+ depStr +:+ dq)).

(** [aborting m]: when [m] makes such a call, it throws that exception. *)
Definition aborting {S A} `{Traced S} (m : SE S A) : Prop :=
  forall s r s', m s = (r, s') ->
    exists t, trace_of s' = trace_of s ++ t /\
      forall ev x, ev ∈ t -> aborts_with ev x ->
        exists x', r = Err x' /\ aborts_with ev x'.

(** ** Properties of the metadata update, as predicates *)




(** ** Properties of the dependency rewrite, as predicates *)

(** The target of a dependency edge is in the lookup set. *)
Definition dep_matches (updatedIds : list BitId.t) (d : Dependency.t) : bool :=
  match searchWithoutVersion updatedIds (Dependency.id d) with
  | Some _ => true
  | None => false
  end.

(** The extension references a component that is in the lookup set. *)
Definition ext_matches (updatedIds : list BitId.t) (e : ExtensionDataEntry.t)
  : bool :=
  match ExtensionDataEntry.extensionId e with
  | Some x =>
      match searchWithoutVersion updatedIds x with
      | Some _ => true
      | None => false
      end
  | None => false
  end.

(** What one callback of the rewrite may do to the object it is given. *)
Definition dep_kept (updatedIds : list BitId.t) (d d' : Dependency.t) : Prop :=
  dep_matches updatedIds d = false -> d' = d.

Definition ext_kept (updatedIds : list BitId.t)
    (e e' : ExtensionDataEntry.t) : Prop :=
  (ext_matches updatedIds e = false -> e' = e) /\
  ExtensionDataEntry.set_extensionId (ExtensionDataEntry.extensionId e) e' = e.

(** Same edges at the same positions; the unmatched ones are untouched. *)
Definition deps_frame (updatedIds : list BitId.t) (l l' : list Dependency.t)
  : Prop :=
  length l' = length l /\
  forall i d, l !! i = Some d -> dep_matches updatedIds d = false ->
              l' !! i = Some d.

(** Same entries at the same positions; the unmatched ones are untouched
    and the matched ones differ in the referenced identifier only. *)
Definition exts_frame (updatedIds : list BitId.t)
    (l l' : list ExtensionDataEntry.t) : Prop :=
  length l' = length l /\
  (forall i e, l !! i = Some e -> ext_matches updatedIds e = false ->
               l' !! i = Some e) /\
  (forall i e e', l !! i = Some e -> l' !! i = Some e' ->
     ExtensionDataEntry.set_extensionId (ExtensionDataEntry.extensionId e) e' = e).

Definition rewrite_frame (updatedIds : list BitId.t) (c c' : Component.t)
  : Prop :=
  let l := Component._consumer c in
  let l' := Component._consumer c' in
  Component.id c' = Component.id c /\
  deps_frame updatedIds (ConsumerComponent.dependencies l)
    (ConsumerComponent.dependencies l') /\
  deps_frame updatedIds (ConsumerComponent.devDependencies l)
    (ConsumerComponent.devDependencies l') /\
  exts_frame updatedIds (ConsumerComponent.extensions l)
    (ConsumerComponent.extensions l') /\
  ConsumerComponent.scope l' = ConsumerComponent.scope l /\
  ConsumerComponent.name l' = ConsumerComponent.name l /\
  ConsumerComponent.version l' = ConsumerComponent.version l /\
  ConsumerComponent.buildStatus l' = ConsumerComponent.buildStatus l /\
  ConsumerComponent.log l' = ConsumerComponent.log l.

(** ** Properties of the import step, as predicates *)




(** [keeps_focus m]: [m] leaves the object in focus as it is. *)
Definition keeps_focus {X E A} (m : SE (X * E) A) : Prop :=
  forall s r s', m s = (r, s') -> fst s' = fst s.

(** ** Properties of version resolution, as predicates *)



(** ** Properties of the commit, as predicates *)

(** The call [sources.enrichSource(component)] that persists an item. *)
Definition enrich_call (item : DepUpdateItem.t) : Event :=
  EvEnrichSource (DepUpdateItem.legacy item) (Ok tt).

(** The status of a batch: failed as soon as one pipeline has errors. *)
Definition batch_status (pipeResults : list PipeResult.t) : BuildStatus :=
  if existsb PipeResult.hasErrors pipeResults then Failed else Succeed.

Definition has_status (b : BuildStatus) (item : DepUpdateItem.t) : Prop :=
  ConsumerComponent.buildStatus (DepUpdateItem.legacy item) = Some b.

(** A run that returned [res] with trace [t] committed its batch under
    one status: after the builder's answer [pipeResults], the calls are one
    [enrichSource] per item of the result, each on a component that carries
    the status of the batch, then [persist], then the calls of the
    export or cache-clearing stage; nothing was committed before. *)
Definition committed_with_single_status (res : UpdateDepsResult.t)
    (t : list Event) : Prop :=
  exists pre components builderDataMap pipeResults post,
    t = pre ++ EvTagListener components true true
                 (Ok (builderDataMap, pipeResults))
            :: map enrich_call (UpdateDepsResult.depsUpdateItems res)
            ++ EvPersist (Ok tt) :: post /\
    Forall (fun e => stage e <= 7) pre /\
    Forall (in_stage 11) post /\
    Forall (has_status (batch_status pipeResults))
      (UpdateDepsResult.depsUpdateItems res) /\
    (Exists (fun p => PipeResult.hasErrors p = true) pipeResults ->
     batch_status pipeResults = Failed) /\
    (Forall (fun p => PipeResult.hasErrors p = false) pipeResults ->
     batch_status pipeResults = Succeed).

(** A run that returned [res] with trace [t] reports the build errors: the
    [error] field is null exactly when no pipeline of the builder's answer
    has errors; when one has, [error] is the formatted message of the first
    such pipeline, every item of the result carries the status [Failed],
    and the batch was committed: [enrichSource] on every item, and
    [persist]. *)
Definition reports_build_errors (res : UpdateDepsResult.t) (t : list Event)
  : Prop :=
  exists components builderDataMap pipeResults,
    EvTagListener components true true (Ok (builderDataMap, pipeResults)) ∈ t /\
    (UpdateDepsResult.error res = None <->
     Forall (fun p => PipeResult.hasErrors p = false) pipeResults) /\
    forall pipe,
      List.find PipeResult.hasErrors pipeResults = Some pipe ->
      PipeResult.hasErrors pipe = true /\
      pipe ∈ pipeResults /\
      UpdateDepsResult.error res
        = Some (PipeResult.getErrorMessageFormatted pipe) /\
      Forall (has_status Failed) (UpdateDepsResult.depsUpdateItems res) /\
      Forall (fun item => enrich_call item ∈ t)
        (UpdateDepsResult.depsUpdateItems res) /\
      EvPersist (Ok tt) ∈ t.

(** The edge [d] is in the lookup set but the dependency list [dl] gives
    no package name for it. *)
Definition missing_package {W} (C : Collaborators W)
    (updatedIds : list BitId.t) (dl : DependencyList.t) (d : Dependency.t)
  : bool :=
  dep_matches updatedIds d
  && negb (truthy (lookupPackageName dl (BitId_toString W C (Dependency.id d)))).





(** The collaborators of the commit and of what follows it do not throw. *)
Definition commit_collaborators_succeed {W} (C : Collaborators W) : Prop :=
  (forall c w, fst (sources_enrichSource W C c w) = Ok tt) /\
  (forall w, fst (objects_persist W C w) = Ok tt) /\
  (forall ids w, fst (exportMany W C ids w) = Ok tt) /\
  (forall w, fst (getScopeRemotes W C w) = Ok tt) /\
  (forall scopeName w, exists remote,
     fst (remotes_resolve W C scopeName w) = Ok remote) /\
  (forall remote action ids w,
     fst (remote_action W C remote action ids w) = Ok tt).

(** Once the builder has answered, the workflow goes on to its end
    whatever the answer is: with collaborators that do not throw, what
    follows the build returns a result. *)
Definition build_errors_do_not_abort {W} (C : Collaborators W) : Prop :=
  commit_collaborators_succeed C ->
  forall opts built (st : This.t * Env W),
  exists res st',
    commitAndReturn C opts built st = (Ok res, st') /\
    UpdateDepsResult.error res
      = errorOf (List.find PipeResult.hasErrors (snd built)) /\
    Forall (has_status (batch_status (snd built)))
      (UpdateDepsResult.depsUpdateItems res).

(** ** Further properties of the workflow, as predicates *)

(** The exception a call threw, if it threw. *)
Definition result_error {A} (r : result A) : option exn :=
  match r with
  | Err e => Some e
  | Ok _ => None
  end.

Definition event_error (ev : Event) : option exn :=
  match ev with
  | EvImport _ _ r => result_error r
  | EvGet _ r => result_error r
  | EvGetExactVersionBySemverRange _ _ r => result_error r
  | EvGetModelComponent _ r => result_error r
  | EvGetDependencies _ r => result_error r
  | EvDebug _ => None
  | EvExtractDepsFromLegacy _ r => result_error r
  | EvDateNow _ => None
  | EvAddFlattenedDependencies _ r => result_error r
  | EvAddSourceFromScope _ r => result_error r
  | EvGetFromConsumerComponent _ r => result_error r
  | EvTagListener _ _ _ r => result_error r
  | EvEnrichSource _ r => result_error r
  | EvPersist r => result_error r
  | EvExportMany _ r => result_error r
  | EvGetScopeRemotes r => result_error r
  | EvRemoteResolve _ r => result_error r
  | EvRemoteAction _ _ _ r => result_error r
  end.

Definition returned (ev : Event) : Prop := event_error ev = None.

(** The calls the source starts together under [Promise.all]: the
    resolutions of the dependency strings of one item, and the calls to the
    remotes when the caches are cleared.  All other calls are awaited one
    by one. *)
Definition started_together (ev : Event) : bool :=
  match ev with
  | EvGetExactVersionBySemverRange _ _ _ => true
  | EvRemoteResolve _ _ => true
  | EvRemoteAction _ _ _ _ => true
  | _ => false
  end.

(** A trace [t] with outcome [r] in which no exception is swallowed: either
    every call returned, or the last call threw, every call before it
    returned, and the outcome is the exception of that last call. *)
Inductive fail_fast {A} : list Event -> result A -> Prop :=
| fail_fast_returned t r : Forall returned t -> fail_fast t r
| fail_fast_thrown t ev e :
    Forall returned t -> event_error ev = Some e ->
    fail_fast (t ++ [ev]) (Err e).

Definition failfast {S A} `{Traced S} (m : SE S A) : Prop :=
  forall s r s', m s = (r, s') ->
    exists t, trace_of s' = trace_of s ++ t /\ fail_fast t r.




(** The legacy component [c'] is [c] up to its [version]. *)
Definition same_but_version (c c' : ConsumerComponent.t) : Prop :=
  ConsumerComponent.set_version (ConsumerComponent.version c) c' = c.

(** The item [item'] is [item] up to the [version] of its legacy
    component. *)
Definition planned_only (item item' : DepUpdateItem.t) : Prop :=
  DepUpdateItem.set_legacy
    (ConsumerComponent.set_version
       (ConsumerComponent.version (DepUpdateItem.legacy item))
       (DepUpdateItem.legacy item')) item' = item.




(** The builder is only ever asked to throw on error and to build the
    seeders only. *)
Definition builder_flags_set (ev : Event) : Prop :=
  forall cs throwOnError seedersOnly r,
    ev = EvTagListener cs throwOnError seedersOnly r ->
    throwOnError = true /\ seedersOnly = true.

Definition is_export (ev : Event) : Prop :=
  exists ids r, ev = EvExportMany ids r.

(** After the commit, a multi-root update exports and does nothing else; a
    single-root update never exports. *)
Definition finishes_as (multiple : bool) (ev : Event) : Prop :=
  stage ev = 11 -> if multiple then is_export ev else ~ is_export ev.

(** Either no call beyond the build was made, or the builder answered. *)
Definition build_answered_or_not_passed (t : list Event) : Prop :=
  Forall (fun ev => stage ev <= 8) t \/
  exists components built, EvTagListener components true true (Ok built) ∈ t.



Definition set_pending (item : DepUpdateItem.t) : DepUpdateItem.t :=
  DepUpdateItem.set_legacy
    (ConsumerComponent.set_buildStatus (Some Pending)
       (DepUpdateItem.legacy item)) item.

(** What the callback of [deps.forEach] leaves of an edge when it does not
    throw. *)
Definition rewrittenDep {W} (C : Collaborators W) (updatedIds : list BitId.t)
    (dl : DependencyList.t) (d : Dependency.t) : Dependency.t :=
  match searchWithoutVersion updatedIds (Dependency.id d) with
  | Some updatedBitId =>
      Dependency.mk updatedBitId
        (lookupPackageName dl (BitId_toString W C (Dependency.id d)))
  | None => d
  end.

(** What the callback of [extensions.forEach] leaves of an entry. *)
Definition rewrittenExt (updatedIds : list BitId.t)
    (e : ExtensionDataEntry.t) : ExtensionDataEntry.t :=
  match ExtensionDataEntry.extensionId e with
  | Some extensionId =>
      match searchWithoutVersion updatedIds extensionId with
      | Some updatedBitId =>
          ExtensionDataEntry.set_extensionId (Some updatedBitId) e
      | None => e
      end
  | None => e
  end.

(** The component [c] after a completed rewrite with lookup set
    [updatedIds] and dependency list [dl]. *)
Definition rewrittenComponent {W} (C : Collaborators W)
    (updatedIds : list BitId.t) (dl : DependencyList.t) (c : Component.t)
  : Component.t :=
  let l := Component._consumer c in
  Component.set_consumer
    (ConsumerComponent.set_extensions
       (map (rewrittenExt updatedIds) (ConsumerComponent.extensions l))
       (ConsumerComponent.set_devDependencies
          (map (rewrittenDep C updatedIds dl) (ConsumerComponent.devDependencies l))
          (ConsumerComponent.set_dependencies
             (map (rewrittenDep C updatedIds dl) (ConsumerComponent.dependencies l))
             l)))
    c.

(** Same scope and name. *)
Definition same_target (a b : BitId.t) : Prop :=
  BitId.scope b = BitId.scope a /\ BitId.name b = BitId.name a.

Definition same_dep_target (d d' : Dependency.t) : Prop :=
  same_target (Dependency.id d) (Dependency.id d').

Definition same_ext_target (e e' : ExtensionDataEntry.t) : Prop :=
  match ExtensionDataEntry.extensionId e, ExtensionDataEntry.extensionId e' with
  | Some a, Some b => same_target a b
  | None, None => True
  | _, _ => False
  end.

Definition is_enrich (ev : Event) : Prop :=
  exists c r, ev = EvEnrichSource c r.

(** One callback of the rewrite either has not touched its edge or has
    left it as the completed rewrite does. *)
Definition dep_step {W} (C : Collaborators W) (updatedIds : list BitId.t)
    (dl : DependencyList.t) (d d' : Dependency.t) : Prop :=
  d' = d \/ d' = rewrittenDep C updatedIds dl d.

Definition ext_step (updatedIds : list BitId.t)
    (e e' : ExtensionDataEntry.t) : Prop :=
  e' = e \/ e' = rewrittenExt updatedIds e.

Definition is_extract (ev : Event) : bool :=
  match ev with EvExtractDepsFromLegacy _ _ => true | _ => false end.

Definition is_persist (ev : Event) : bool :=
  match ev with EvPersist _ => true | _ => false end.

Definition is_import (ev : Event) : bool :=
  match ev with EvImport _ _ _ => true | _ => false end.

(** The identifier strings of a batch: the root of every item and its
    dependency strings. *)
Definition batch_strings (raw : list DepUpdateItemRaw.t) : list string :=
  map DepUpdateItemRaw.componentId raw
    ++ concat (map DepUpdateItemRaw.dependencies raw).

(** The completed calls that store a legacy component and that reload the
    component built from it. *)
Definition store_call (legacyComp : ConsumerComponent.t) : Event :=
  EvAddSourceFromScope legacyComp (Ok tt).

Definition reload_call (legacyComp : ConsumerComponent.t)
    (component : Component.t) : Event :=
  EvGetFromConsumerComponent legacyComp (Ok component).

(** The calls [t] end the preparation of a build of [components]: one
    store per legacy component, then one reload per legacy component,
    whose answers are [components], then the builder on them. *)
Definition stored_reloaded_built (components : list Component.t)
    (rb : result (JsonValue * list PipeResult.t)) (t : list Event) : Prop :=
  exists pre legacyComponents post,
    t = pre
          ++ map store_call legacyComponents
          ++ zip_with reload_call legacyComponents components
          ++ EvTagListener components true true rb :: post /\
    length legacyComponents = length components.

Definition not_build (ev : Event) : Prop := stage ev <> 8.

(** The two completed calls that clear the cache of one scope: the remote
    is resolved by the scope name, then sent the [PostSign] action with
    the identifiers of the group. *)
Definition cache_calls {W} (C : Collaborators W)
    (group : string * list BitId.t) (remote : string) : list Event :=
  [EvRemoteResolve (fst group) (Ok remote);
   EvRemoteAction remote PostSign_name
     (map (BitId_toString W C) (snd group)) (Ok tt)].

(** [groups] partition [ids] by scope: one group per scope name, a group
    holds identifiers of its scope only, and all groups together hold
    every identifier once. *)
Definition partition_by_scope (ids : list BitId.t)
    (groups : list (string * list BitId.t)) : Prop :=
  NoDup (map fst groups) /\
  Forall (fun g => Forall (fun id => BitId.scope id = fst g) (snd g)) groups /\
  concat (map snd groups) ≡ₚ ids.

(** What a rewrite with lookup set [updatedIds] and dependency list [dl]
    has made of [c] when it ended with [r] on [c']. *)
Definition rewrite_steps {W} (C : Collaborators W)
    (updatedIds : list BitId.t) (dl : DependencyList.t)
    (r : result unit) (c c' : Component.t) : Prop :=
  Forall2 (dep_step C updatedIds dl)
    (ConsumerComponent.dependencies (Component._consumer c))
    (ConsumerComponent.dependencies (Component._consumer c')) /\
  Forall2 (dep_step C updatedIds dl)
    (ConsumerComponent.devDependencies (Component._consumer c))
    (ConsumerComponent.devDependencies (Component._consumer c')) /\
  Forall2 (ext_step updatedIds)
    (ConsumerComponent.extensions (Component._consumer c))
    (ConsumerComponent.extensions (Component._consumer c')) /\
  (r <> Ok tt ->
   ConsumerComponent.extensions (Component._consumer c')
   = ConsumerComponent.extensions (Component._consumer c)) /\
  (forall d, same_dep_target d (rewrittenDep C updatedIds dl d)) /\
  (forall e, same_ext_target e (rewrittenExt updatedIds e)).

(** What [updateDepsOfItem] does from [(item, env)] to outcome [r] and
    [(item', env')], given that the rewrite of the item's component ends
    with [rw] on [(c1, env1)]. *)
Definition extracted_after_rewrite (item : DepUpdateItem.t)
    (t t' : list Event) (r : result unit) (item' : DepUpdateItem.t)
    (rw : result unit) (c1 : Component.t) (t1' : list Event) : Prop :=
  DepUpdateItem.dependencies item' = DepUpdateItem.dependencies item /\
  DepUpdateItem.versionToTag item' = DepUpdateItem.versionToTag item /\
  exists t1 t2,
    t1' = t ++ t1 /\ t' = t1' ++ t2 /\
    Forall (fun ev => is_extract ev = false) t1 /\
    match rw with
    | Ok _ => exists r0, t2 = [EvExtractDepsFromLegacy c1 r0]
    | Err e => t2 = [] /\ r = Err e /\
               item' = DepUpdateItem.set_component c1 item
    end.

(** What a completed [clearScopesCaches] has done from [st] to [st'].  The
    calls to the remotes are started together, so their order is left
    open. *)
Definition signs_each_scope_once {W} (C : Collaborators W)
    (st st' : This.t * Env W) : Prop :=
  let ids := map ConsumerComponent.id (This.legacyComponents (fst st)) in
  let groups := toGroupByScopeName ids in
  fst st' = fst st /\
  partition_by_scope ids groups /\
  exists remotes t,
    length remotes = length groups /\
    trace (snd st') = trace (snd st) ++ EvGetScopeRemotes (Ok tt) :: t /\
    t ≡ₚ concat (zip_with (cache_calls C) groups remotes).

(** What [saveDataIntoLocalScope] does from [st] to outcome [r] and
    [st']. *)
Definition persists_after_enrichment {W} (buildStatus : BuildStatus)
    (st : This.t * Env W) (r : result unit) (st' : This.t * Env W) : Prop :=
  exists t,
    trace (snd st') = trace (snd st) ++ t /\
    ((exists ev, ev ∈ t /\ is_persist ev = true) ->
       t = map enrich_call (This.depsUpdateItems (fst st')) ++ [EvPersist r] /\
       Forall (has_status buildStatus) (This.depsUpdateItems (fst st'))) /\
    ((forall ev, ev ∈ t -> is_persist ev = false) -> exists e, r = Err e).

(** The collaborators [C], except that [persist] throws [e]. *)
Definition with_failing_persist {W} (C : Collaborators W) (e : exn)
  : Collaborators W :=
  {| ComponentID_fromString := ComponentID_fromString W C;
     ComponentID_toString := ComponentID_toString W C;
     BitId_toString := BitId_toString W C;
     scope_import := scope_import W C;
     scope_get := scope_get W C;
     scope_getVersionHistory := scope_getVersionHistory W C;
     semver_satisfies := semver_satisfies W C;
     semver_gt := semver_gt W C;
     legacyScope_getModelComponent := legacyScope_getModelComponent W C;
     getValidVersionOrReleaseType := getValidVersionOrReleaseType W C;
     dependencyResolver_getDependencies :=
       dependencyResolver_getDependencies W C;
     dependencyResolver_extractDepsFromLegacy :=
       dependencyResolver_extractDepsFromLegacy W C;
     DependencyResolverAspect_id := DependencyResolverAspect_id W C;
     extension_matches := extension_matches W C;
     Date_now := Date_now W C;
     addFlattenedDependenciesToComponents :=
       addFlattenedDependenciesToComponents W C;
     sources_addSourceFromScope := sources_addSourceFromScope W C;
     scope_getFromConsumerComponent := scope_getFromConsumerComponent W C;
     builder_tagListener := builder_tagListener W C;
     scope_builderDataMapToLegacyOnTagResults :=
       scope_builderDataMapToLegacyOnTagResults W C;
     updateComponentsByTagResult := updateComponentsByTagResult W C;
     getPublishedPackages := getPublishedPackages W C;
     sources_enrichSource := sources_enrichSource W C;
     objects_persist := fun w => (Err e, w);
     exportMany := exportMany W C;
     getScopeRemotes := getScopeRemotes W C;
     remotes_resolve := remotes_resolve W C;
     remote_action := remote_action W C |}.

(** A run in which [persist] throws. *)
Definition failing_run : result UpdateDepsResult.t * Main nat :=
  updateDependenciesVersions
    (with_failing_persist (Demo.scope []) (Error "disk full"))
    [Demo.raw_a] (Demo.options true false) Demo.start.

(** * Properties *)

(** ** The monad *)

Section MonadFacts.
Context {S : Type}.

Lemma bind_Ok {A B} (m : SE S A) (k : A -> SE S B) s b s' :
  bind m k s = (Ok b, s') ->
  exists a s1, m s = (Ok a, s1) /\ k a s1 = (Ok b, s').
Proof.
  unfold bind. destruct (m s) as [[a|e] s1]; intros H.
  - eauto.
  - discriminate.
Qed.

Lemma bind_Err {A B} (m : SE S A) (k : A -> SE S B) s e s' :
  bind m k s = (Err e, s') ->
  m s = (Err e, s') \/ exists a s1, m s = (Ok a, s1) /\ k a s1 = (Err e, s').
Proof.
  unfold bind. destruct (m s) as [[a|e0] s1]; intros H.
  - right. eauto.
  - left. inversion H. reflexivity.
Qed.

Lemma bind_step_Ok {A B} (m : SE S A) (k : A -> SE S B) s a s1 :
  m s = (Ok a, s1) -> bind m k s = k a s1.
Proof. unfold bind. intros ->. reflexivity. Qed.

Lemma bind_step_Err {A B} (m : SE S A) (k : A -> SE S B) s e s1 :
  m s = (Err e, s1) -> bind m k s = (Err e, s1).
Proof. unfold bind. intros ->. reflexivity. Qed.


Lemma mapM_returns {A B} (f : A -> SE S B) :
  (forall a s, exists b s', f a s = (Ok b, s')) ->
  forall l s, exists bs s', mapM f l s = (Ok bs, s').
Proof.
  intros Hf. induction l as [|a l IH]; intros s; simpl.
  - unfold ret. eauto.
  - unfold bind. destruct (Hf a s) as (b & s1 & ->).
    destruct (IH s1) as (bs & s2 & ->). unfold ret. eauto.
Qed.

End MonadFacts.

Section ForEachFacts.
Context {X E : Type}.

(** An in-place traversal keeps every element in relation [R] with what
    it was, whether it completes or throws. *)
Lemma forEach_Forall2 (f : SE (X * E) unit) (R : X -> X -> Prop) :
  (forall x, R x x) ->
  (forall x e r x' e', f (x, e) = (r, (x', e')) -> R x x') ->
  forall l e r l' e', forEach f l e = (r, (l', e')) -> Forall2 R l l'.
Proof.
  intros Hrefl Hf. induction l as [|x l IH]; simpl; intros e r l' e' H.
  - inversion H. constructor.
  - destruct (f (x, e)) as [[[]|err] [x' e1]] eqn:Hx.
    + destruct (forEach f l e1) as [res [r' e2]] eqn:Hl.
      inversion H; subst. constructor; eauto.
    + inversion H; subst. constructor; eauto.
      clear -Hrefl. induction l; constructor; auto.
Qed.


(** When the traversal throws, it throws at one element: the elements
    before it went through completed callbacks, the elements after it
    are as they were. *)
Lemma forEach_Err_split (f : SE (X * E) unit) :
  forall l e err l' e', forEach f l e = (Err err, (l', e')) ->
  exists pre x post pre' x' e1,
    l = pre ++ x :: post /\ l' = pre' ++ x' :: post /\
    forEach f pre e = (Ok tt, (pre', e1)) /\
    f (x, e1) = (Err err, (x', e')).
Proof.
  induction l as [|x l IH]; simpl; intros e err l' e' H.
  - discriminate.
  - destruct (f (x, e)) as [[[]|err0] [x' e1]] eqn:Hx.
    + destruct (forEach f l e1) as [res [r' e2]] eqn:Hl.
      inversion H; subst.
      apply IH in Hl as (pre & y & post & pre' & y' & e3 & -> & -> & Hpre & Hy).
      exists (x :: pre), y, post, (x' :: pre'), y', e3.
      simpl. rewrite Hx, Hpre. auto.
    + inversion H; subst.
      exists [], x, l, [], x', e. simpl. auto.
Qed.

Lemma forEach_length (f : SE (X * E) unit) l e r l' e' :
  forEach f l e = (r, (l', e')) -> length l' = length l.
Proof.
  intros H.
  apply (forEach_Forall2 f (fun _ _ => True)) in H; auto.
  symmetry. eapply Forall2_length; eauto.
Qed.
End ForEachFacts.

(** ** What a computation appends to the trace *)

Section EmitsFacts.
Context {S : Type} `{Traced S}.

Lemma emits_ret {A} P (a : A) : emits P (ret a : SE S A).
Proof.
  intros s r s' Heq. inversion Heq; subst.
  exists []. rewrite app_nil_r. auto.
Qed.

Lemma emits_throw {A} P e : emits P (throw e : SE S A).
Proof.
  intros s r s' Heq. inversion Heq; subst.
  exists []. rewrite app_nil_r. auto.
Qed.

Lemma emits_gets {A} P (f : S -> A) : emits P (gets f).
Proof.
  intros s r s' Heq. inversion Heq; subst.
  exists []. rewrite app_nil_r. auto.
Qed.

Lemma emits_of_result {A} P (x : result A) : emits P (of_result x : SE S A).
Proof.
  intros s r s' Heq. inversion Heq; subst.
  exists []. rewrite app_nil_r. auto.
Qed.

Lemma emits_bind {A B} P (m : SE S A) (k : A -> SE S B) :
  emits P m -> (forall a, emits P (k a)) -> emits P (bind m k).
Proof.
  intros Hm Hk s r s' Heq. unfold bind in Heq.
  destruct (m s) as [[a|e] s1] eqn:Hms.
  - destruct (Hm _ _ _ Hms) as (t1 & E1 & F1).
    destruct (Hk a _ _ _ Heq) as (t2 & E2 & F2).
    exists (t1 ++ t2). rewrite E2, E1, app_assoc. split; auto.
    apply Forall_app; auto.
  - inversion Heq; subst. eapply Hm; eauto.
Qed.

Lemma emits_mapM {A B} P (f : A -> SE S B) l :
  (forall a, emits P (f a)) -> emits P (mapM f l).
Proof.
  intros Hf. induction l as [|a l IH]; simpl.
  - apply emits_ret.
  - apply emits_bind; [apply Hf|]. intros b.
    apply emits_bind; [apply IH|]. intros bs. apply emits_ret.
Qed.

Lemma emits_weaken {A} (P Q : Event -> Prop) (m : SE S A) :
  (forall e, P e -> Q e) -> emits P m -> emits Q m.
Proof.
  intros HPQ Hm s r s' Heq.
  destruct (Hm _ _ _ Heq) as (t & E1 & F1).
  exists t. split; auto. eapply Forall_impl; eauto.
Qed.

Lemma staged_of_emits {A} p (m : SE S A) :
  emits (in_stage p) m -> staged p p m.
Proof.
  intros Hm s r s' Heq.
  destruct (Hm _ _ _ Heq) as (t & E1 & F1).
  exists t. split; [|split]; auto.
  - eapply Forall_impl; eauto. unfold in_stage, stage_between. intros; lia.
  - clear E1. induction F1 as [|e t He F1 IH]; constructor; auto.
    eapply Forall_impl; eauto. unfold in_stage, stage_le in *.
    intros; simpl in *; lia.
Qed.

Lemma staged_of_silent {A} lo hi (m : SE S A) :
  emits silent m -> staged lo hi m.
Proof.
  intros Hm s r s' Heq.
  destruct (Hm _ _ _ Heq) as (t & E1 & F1).
  destruct t as [|e t].
  - exists []. repeat split; auto. constructor.
  - inversion F1 as [|? ? []].
Qed.

Lemma staged_weaken {A} lo hi lo' hi' (m : SE S A) :
  lo' <= lo -> hi <= hi' -> staged lo hi m -> staged lo' hi' m.
Proof.
  intros Hlo Hhi Hm s r s' Heq.
  destruct (Hm _ _ _ Heq) as (t & E1 & F1 & S1).
  exists t. repeat split; auto.
  eapply Forall_impl; eauto. unfold stage_between. intros; lia.
Qed.

Lemma sorted_app (t1 t2 : list Event) mid :
  Forall (fun e => stage e <= mid) t1 ->
  Forall (fun e => mid <= stage e) t2 ->
  StronglySorted stage_le t1 -> StronglySorted stage_le t2 ->
  StronglySorted stage_le (t1 ++ t2).
Proof.
  intros F1 F2 S1 S2. induction S1 as [|e t1 S1 IH F]; simpl; auto.
  inversion F1; subst. constructor; auto.
  apply Forall_app. split; auto.
  eapply Forall_impl; eauto. unfold stage_le. intros; simpl in *; lia.
Qed.

Lemma staged_bind {A B} lo mid hi (m : SE S A) (k : A -> SE S B) :
  staged lo mid m -> (forall a, staged mid hi (k a)) ->
  lo <= mid -> mid <= hi ->
  staged lo hi (bind m k).
Proof.
  intros Hm Hk Hlo Hhi s r s' Heq. unfold bind in Heq.
  destruct (m s) as [[a|e] s1] eqn:Hms.
  - destruct (Hm _ _ _ Hms) as (t1 & E1 & F1 & S1).
    destruct (Hk a _ _ _ Heq) as (t2 & E2 & F2 & S2).
    exists (t1 ++ t2). rewrite E2, E1, app_assoc. split; [|split]; auto.
    + apply Forall_app; split; eapply Forall_impl; eauto;
        unfold stage_between; intros; lia.
    + apply sorted_app with mid; auto;
        eapply Forall_impl; eauto; unfold stage_between; intros; lia.
  - inversion Heq; subst.
    destruct (Hm _ _ _ Hms) as (t1 & E1 & F1 & S1).
    exists t1. repeat split; auto.
    eapply Forall_impl; eauto. unfold stage_between; intros; lia.
Qed.
End EmitsFacts.

Section FocusFacts.
Context {X E : Type} `{Traced E}.

Lemma emits_getX P : emits P (getX : SE (X * E) X).
Proof.
  intros s r s' Heq. inversion Heq; subst.
  exists []. rewrite app_nil_r. auto.
Qed.

Lemma emits_modifyX P (f : X -> X) : emits P (modifyX f : SE (X * E) unit).
Proof.
  intros s r s' Heq. inversion Heq; subst.
  exists []. unfold trace_of, focus_traced. simpl. rewrite app_nil_r. auto.
Qed.

Lemma emits_liftE {A} P (m : SE E A) : emits P m -> emits P (liftE m : SE (X * E) A).
Proof.
  intros Hm [x e] r s' Heq. unfold liftE in Heq. simpl in Heq.
  destruct (m e) as [r0 e0] eqn:Hme. inversion Heq; subst.
  apply Hm in Hme. exact Hme.
Qed.

Lemma emits_forEachM P (f : SE (X * E) unit) :
  emits P f -> emits P (forEachM f).
Proof.
  intros Hf [l e]. unfold forEachM. simpl.
  revert e. induction l as [|x l IH]; simpl; intros e r s' Heq.
  - inversion Heq; subst. exists []. unfold trace_of, focus_traced. simpl.
    rewrite app_nil_r. auto.
  - destruct (f (x, e)) as [[[]|err] [x' e1]] eqn:Hx.
    + destruct (forEach f l e1) as [res [r' e2]] eqn:Hl.
      inversion Heq; subst.
      destruct (Hf _ _ _ Hx) as (t1 & E1 & F1).
      destruct (IH _ _ _ Hl) as (t2 & E2 & F2).
      unfold trace_of, focus_traced in *. simpl in *.
      exists (t1 ++ t2). rewrite E2, E1, app_assoc. split; auto.
      apply Forall_app; auto.
    + inversion Heq; subst.
      destruct (Hf _ _ _ Hx) as (t1 & E1 & F1).
      exists t1. auto.
Qed.
End FocusFacts.

Lemma emits_zoom {X Y E A} `{Traced E} P (get : X -> Y) (set : Y -> X -> X)
    (m : SE (Y * E) A) :
  emits P m -> emits P (zoom get set m).
Proof.
  intros Hm [x e] r s' Heq. unfold zoom in Heq. simpl in Heq.
  destruct (m (get x, e)) as [r0 [y e0]] eqn:Hme. inversion Heq; subst.
  apply Hm in Hme. exact Hme.
Qed.

Lemma emits_call {W A} (P : Event -> Prop) (f : W -> result A * W) ev :
  (forall r, P (ev r)) -> emits P (call f ev).
Proof.
  intros HP env r s' Heq. unfold call in Heq.
  destruct (f (world env)) as [r0 w]. inversion Heq; subst.
  exists [ev r]. split; auto.
Qed.

Lemma emits_debug {W} (P : Event -> Prop) msg :
  P (EvDebug msg) -> emits P (@logger_debug W msg).
Proof.
  intros HP env r s' Heq. inversion Heq; subst.
  exists [EvDebug msg]. split; auto.
Qed.

(** ** The stage of every method's calls *)

Ltac emits_step :=
  cbv zeta;
  first
    [ apply emits_ret | apply emits_throw | apply emits_gets
    | apply emits_of_result | apply emits_getX | apply emits_modifyX
    | apply emits_bind; [|intros ?]
    | apply emits_mapM; intros ?
    | apply emits_forEachM | apply emits_zoom | apply emits_liftE
    | apply emits_call; intros ?; reflexivity
    | apply emits_debug; reflexivity
    | match goal with
      | |- emits _ (match ?x with _ => _ end) => destruct x
      | |- emits _ (if ?x then _ else _) => destruct x
      end ].

Ltac emits_tac := repeat emits_step.

Section StageFacts.
Context {W : Type} (C : Collaborators W).

Lemma getExactVersionBySemverRange_emits id range :
  emits (in_stage 2) (getExactVersionBySemverRange C id range).
Proof.
  intros env r s' Heq. unfold getExactVersionBySemverRange in Heq.
  destruct (scope_getVersionHistory W C id (world env)) as [r0 w].
  inversion Heq; subst. eexists [_]. split; eauto.
  constructor; [reflexivity|constructor].
Qed.

Lemma importAllMissing_emits raw :
  emits (in_stage 1) (importAllMissing C raw).
Proof. unfold importAllMissing, fromString. emits_tac. Qed.

Lemma parseDevUpdatesItems_emits raw :
  emits (in_stage 2) (parseDevUpdatesItems C raw).
Proof.
  unfold parseDevUpdatesItems, parseDevUpdatesItem,
    getDependencyWithExactVersion, fromString.
  emits_tac; try apply getExactVersionBySemverRange_emits; emits_tac.
Qed.

Lemma updateFutureVersion_emits :
  emits (in_stage 3) (updateFutureVersion C).
Proof.
  unfold updateFutureVersion, onItems, planVersion, onLegacy. emits_tac.
Qed.

Lemma updateAllDeps_emits :
  emits (in_stage 4) (updateAllDeps C).
Proof.
  unfold updateAllDeps, onItems, updateDepsOfItem, onComponent,
    updateDependenciesVersionsOfComponent, updateDependencyResolver,
    onConsumer, rewriteDep, rewriteExt.
  emits_tac.
Qed.

Lemma date_now_emits : emits (in_stage 6) (date_now C).
Proof.
  intros env r s' Heq. unfold date_now in Heq.
  destruct (Date_now W C (world env)) as [d w].
  inversion Heq; subst. eexists [_]. split; eauto.
  constructor; [reflexivity|constructor].
Qed.

Lemma addLogToComponents_emits :
  emits (in_stage 6) (addLogToComponents C).
Proof.
  unfold addLogToComponents, onItems, onLegacy, stampLog. emits_tac.
  apply date_now_emits.
Qed.

Lemma addFlattenedDependencies_emits :
  emits (in_stage 6) (addFlattenedDependencies C).
Proof. unfold addFlattenedDependencies, onItems. emits_tac. Qed.

Lemma addBuildStatus_emits : emits silent (@addBuildStatus W).
Proof. unfold addBuildStatus, onItems, onLegacy. emits_tac. Qed.

Lemma addComponentsToScope_emits :
  emits (in_stage 7) (addComponentsToScope C).
Proof. unfold addComponentsToScope. emits_tac. Qed.

Lemma updateComponents_emits :
  emits (in_stage 7) (updateComponents C).
Proof. unfold updateComponents, onItems, updateComponent. emits_tac. Qed.

Lemma saveDataIntoLocalScope_emits buildStatus :
  emits (in_stage 10) (saveDataIntoLocalScope C buildStatus).
Proof.
  unfold saveDataIntoLocalScope, onItems, onLegacy, saveComponent. emits_tac.
Qed.

Lemma export_emits : emits (in_stage 11) (export C).
Proof. unfold export. emits_tac. Qed.

Lemma clearScopesCaches_emits : emits (in_stage 11) (clearScopesCaches C).
Proof. unfold clearScopesCaches, clearScopeCache. emits_tac. Qed.
End StageFacts.

(** ** The workflow runs its stages in order *)

Section Pipeline.
Context {W : Type} (C : Collaborators W).

Lemma staged_seq {S A B} `{Traced S} p lo hi (m : SE S A) (k : A -> SE S B) :
  emits (in_stage p) m -> lo <= p -> p <= hi ->
  (forall a, staged p hi (k a)) -> staged lo hi (bind m k).
Proof.
  intros Hm Hlo Hhi Hk. apply staged_bind with p; auto.
  apply staged_weaken with p p; auto. apply staged_of_emits; auto.
Qed.

Lemma staged_seq_silent {S A B} `{Traced S} lo hi (m : SE S A)
    (k : A -> SE S B) :
  emits silent m -> lo <= hi ->
  (forall a, staged lo hi (k a)) -> staged lo hi (bind m k).
Proof.
  intros Hm Hle Hk. apply staged_bind with lo; auto.
  apply staged_of_silent; auto.
Qed.

Lemma commitAndReturn_staged opts built :
  staged 10 11 (commitAndReturn C opts built).
Proof.
  unfold commitAndReturn. cbv zeta.
  apply staged_seq_silent; [unfold onItems; emits_tac | lia | intros _].
  apply staged_seq_silent; [emits_tac | lia | intros legacyComponents].
  apply (staged_seq 10);
    [apply saveDataIntoLocalScope_emits | lia | lia | intros _].
  apply (staged_seq 11);
    [destruct (UpdateDepsOptions.multiple opts);
     [apply export_emits | apply clearScopesCaches_emits]
    | lia | lia | intros _].
  apply staged_of_silent. emits_tac.
Qed.

Lemma stampBuildCommit_staged opts :
  staged 6 11 (stampBuildCommit C opts).
Proof.
  unfold stampBuildCommit.
  apply (staged_seq 6); [apply addLogToComponents_emits | lia | lia | intros _].
  apply (staged_seq 6);
    [apply addFlattenedDependencies_emits | lia | lia | intros _].
  apply staged_seq_silent; [apply addBuildStatus_emits | lia | intros _].
  apply (staged_seq 7); [apply addComponentsToScope_emits | lia | lia | intros _].
  apply (staged_seq 7); [apply updateComponents_emits | lia | lia | intros _].
  apply staged_seq_silent; [emits_tac | lia | intros components].
  apply (staged_seq 8); [emits_tac | lia | lia | intros built].
  apply staged_weaken with 10 11; [lia | lia |].
  apply commitAndReturn_staged.
Qed.

Lemma updateDependenciesVersions_staged raw opts :
  staged 1 11 (updateDependenciesVersions C raw opts).
Proof.
  change (updateDependenciesVersions C raw opts) with
    (modifyX (This.set_updateDepsOptions opts) ;;;
     importAllMissing C raw ;;;
     items <- liftE (parseDevUpdatesItems C raw) ;;
     modifyX (This.set_depsUpdateItems items) ;;;
     updateFutureVersion C ;;;
     updateAllDeps C ;;;
     stampBuildCommit C opts).
  apply staged_seq_silent; [emits_tac | lia | intros _].
  apply (staged_seq 1); [apply importAllMissing_emits | lia | lia | intros _].
  apply (staged_seq 2);
    [apply emits_liftE, parseDevUpdatesItems_emits | lia | lia | intros items].
  apply staged_seq_silent; [emits_tac | lia | intros _].
  apply (staged_seq 3); [apply updateFutureVersion_emits | lia | lia | intros _].
  apply (staged_seq 4); [apply updateAllDeps_emits | lia | lia | intros _].
  apply staged_weaken with 6 11; [lia | lia |].
  apply stampBuildCommit_staged.
Qed.

(** In a trace in stage order, a call of an earlier stage comes before
    every call of a later stage. *)
Lemma sorted_stage_order (t : list Event) :
  StronglySorted stage_le t ->
  forall i j a b, t !! i = Some a -> t !! j = Some b ->
    stage a < stage b -> i < j.
Proof.
  induction 1 as [|e t St IH F]; intros i j a b Hi Hj Hlt.
  - rewrite lookup_nil in Hi. discriminate.
  - destruct i as [|i], j as [|j]; simpl in *.
    + inversion Hi; inversion Hj; subst. lia.
    + lia.
    + inversion Hj; subst.
      rewrite Forall_forall in F.
      assert (a ∈ t) as Ha by (eapply list_elem_of_lookup_2; eauto).
      apply F in Ha. unfold stage_le in Ha. lia.
    + specialize (IH i j a b Hi Hj Hlt). lia.
Qed.
End Pipeline.


(** ** updateDependencyResolver *)

Section MetadataFacts.
Context {W : Type} (C : Collaborators W).



End MetadataFacts.



(** ** updateDependenciesVersionsOfComponent: the frame *)

Section RewriteFacts.
Context {W : Type} (C : Collaborators W).

Lemma rewriteDep_kept updatedIds dl cs d env r d' env' :
  rewriteDep C updatedIds dl cs (d, env) = (r, (d', env')) ->
  dep_kept updatedIds d d'.
Proof.
  unfold rewriteDep, dep_kept, dep_matches, bind, getX. simpl.
  destruct (searchWithoutVersion updatedIds (Dependency.id d)) as [u|].
  - discriminate.
  - intros Heq _. inversion Heq; subst. reflexivity.
Qed.

Lemma rewriteExt_kept updatedIds cs e env r e' env' :
  rewriteExt C updatedIds cs (e, env) = (r, (e', env')) ->
  ext_kept updatedIds e e'.
Proof.
  unfold rewriteExt, ext_kept, ext_matches, bind, getX. simpl.
  destruct (ExtensionDataEntry.extensionId e) as [x|] eqn:Hx.
  - destruct (searchWithoutVersion updatedIds x) as [u|].
    + unfold liftE, logger_debug, modifyX. simpl.
      intros Heq. inversion Heq; subst. split; [discriminate|].
      destruct e; simpl in *. subst. reflexivity.
    + intros Heq. inversion Heq; subst. split; auto.
      destruct e'; simpl in *. subst. reflexivity.
  - intros Heq. inversion Heq; subst. split; auto.
    destruct e'; simpl in *. subst. reflexivity.
Qed.

Lemma dep_kept_frame updatedIds l l' :
  Forall2 (dep_kept updatedIds) l l' -> deps_frame updatedIds l l'.
Proof.
  intros F. split.
  - symmetry. eapply Forall2_length; eauto.
  - intros i d Hi Hm.
    destruct (Forall2_lookup_l _ _ _ _ _ F Hi) as (d' & Hi' & Hk).
    rewrite Hi'. f_equal. apply Hk. exact Hm.
Qed.

Lemma ext_kept_frame updatedIds l l' :
  Forall2 (ext_kept updatedIds) l l' -> exts_frame updatedIds l l'.
Proof.
  intros F. split; [|split].
  - symmetry. eapply Forall2_length; eauto.
  - intros i e Hi Hm.
    destruct (Forall2_lookup_l _ _ _ _ _ F Hi) as (e' & Hi' & Hk & _).
    rewrite Hi'. f_equal. apply Hk. exact Hm.
  - intros i e e' Hi Hi'.
    destruct (Forall2_lookup_l _ _ _ _ _ F Hi) as (e2 & Hi2 & _ & Hk).
    congruence.
Qed.

Lemma dep_kept_refl updatedIds d : dep_kept updatedIds d d.
Proof. intros _. reflexivity. Qed.

Lemma ext_kept_refl updatedIds e : ext_kept updatedIds e e.
Proof. split; auto. destruct e; reflexivity. Qed.

Lemma Forall2_refl_list {A} (R : A -> A -> Prop) (l : list A) :
  (forall x, R x x) -> Forall2 R l l.
Proof. intros H. induction l; constructor; auto. Qed.

Lemma deps_frame_refl updatedIds l : deps_frame updatedIds l l.
Proof. apply dep_kept_frame, Forall2_refl_list, dep_kept_refl. Qed.

Lemma exts_frame_refl updatedIds l : exts_frame updatedIds l l.
Proof. apply ext_kept_frame, Forall2_refl_list, ext_kept_refl. Qed.

Lemma rewrite_frame_refl updatedIds c : rewrite_frame updatedIds c c.
Proof.
  unfold rewrite_frame.
  split; [reflexivity|].
  split; [apply deps_frame_refl|].
  split; [apply deps_frame_refl|].
  split; [apply exts_frame_refl|].
  repeat split; reflexivity.
Qed.

(** The two lists behind [allDeps] after the traversal of the joint
    array. *)
Lemma allDeps_split updatedIds (deps dev l' : list Dependency.t) :
  Forall2 (dep_kept updatedIds) (deps ++ dev) l' ->
  deps_frame updatedIds deps (take (length deps) l') /\
  deps_frame updatedIds dev (drop (length deps) l').
Proof.
  intros F. apply Forall2_app_inv_l in F as (k1 & k2 & F1 & F2 & ->).
  assert (length k1 = length deps) as Hlen
    by (symmetry; eapply Forall2_length; eauto).
  rewrite <- Hlen, take_app_length, drop_app_length.
  split; apply dep_kept_frame; auto.
Qed.

(** C5: whatever the outcome of [updateDependenciesVersionsOfComponent]
    (completed or thrown), the component keeps the same number of
    dependencies, dev-dependencies and extensions; every dependency edge
    whose target is not found in the lookup set (batch identifiers followed
    by the item's resolved dependencies, compared without version) keeps
    its identifier, version and package name; every extension entry whose
    reference is not found keeps all its fields, and a found one differs in
    the referenced identifier only; all other fields of the component are
    untouched. *)
Theorem C5_rewrite_touches_matched_edges_only
    (dependencies : list ComponentID.t) (currentBitIds : list BitId.t)
    (c : Component.t) (env : Env W) :
  rewrite_frame (updatedIdsOf dependencies currentBitIds) c
    (fst (snd (updateDependenciesVersionsOfComponent C dependencies
                 currentBitIds (c, env)))).
Proof.
  set (U := updatedIdsOf dependencies currentBitIds).
  unfold updateDependenciesVersionsOfComponent. fold U.
  unfold bind at 1. unfold getX at 1. cbv beta iota. simpl fst.
  unfold bind at 1. unfold liftE at 1, call at 1. simpl.
  destruct (dependencyResolver_getDependencies W C c (world env)) as [[dl|e] w];
    simpl; [|apply rewrite_frame_refl].
  unfold onConsumer, zoom at 1. simpl.
  unfold bind at 1. unfold zoom at 1. simpl.
  destruct (forEachM (rewriteDep C U dl (ComponentID_toString W C (Component.id c)))
              (allDeps (Component._consumer c),
               mkEnv w (trace env ++ [EvGetDependencies c (Ok dl)])))
    as [r1 [l1 env1]] eqn:H1.
  unfold forEachM in H1. simpl in H1.
  assert (Forall2 (dep_kept U) (allDeps (Component._consumer c)) l1) as F1.
  { eapply forEach_Forall2; [| |exact H1].
    - apply dep_kept_refl.
    - intros; eapply rewriteDep_kept; eauto. }
  apply allDeps_split in F1 as [Fd Fv].
  destruct r1 as [[]|err]; simpl.
  - unfold zoom. simpl.
    destruct (forEachM (rewriteExt C U (ComponentID_toString W C (Component.id c)))
                (ConsumerComponent.extensions (Component._consumer c), env1))
      as [r2 [l2 env2]] eqn:H2.
    unfold forEachM in H2. simpl in H2.
    assert (Forall2 (ext_kept U)
              (ConsumerComponent.extensions (Component._consumer c)) l2) as F2.
    { eapply forEach_Forall2; [| |exact H2].
      - apply ext_kept_refl.
      - intros; eapply rewriteExt_kept; eauto. }
    apply ext_kept_frame in F2.
    unfold rewrite_frame. simpl.
    split; [reflexivity|]. split; [exact Fd|]. split; [exact Fv|].
    split; [exact F2|]. repeat split; reflexivity.
  - unfold rewrite_frame. simpl.
    split; [reflexivity|]. split; [exact Fd|]. split; [exact Fv|].
    split; [apply exts_frame_refl|]. repeat split; reflexivity.
Qed.

End RewriteFacts.


(** ** importAllMissing *)

Section ImportFacts.
Context {W : Type} (C : Collaborators W).




End ImportFacts.

(** ** What a computation leaves untouched *)

Section KeepsFacts.
Context {X E : Type}.

Lemma keeps_ret {A} (a : A) : keeps_focus (ret a : SE (X * E) A).
Proof. intros s r s' Heq. inversion Heq; subst. reflexivity. Qed.

Lemma keeps_throw {A} e : keeps_focus (throw e : SE (X * E) A).
Proof. intros s r s' Heq. inversion Heq; subst. reflexivity. Qed.

Lemma keeps_gets {A} (f : X * E -> A) : keeps_focus (gets f).
Proof. intros s r s' Heq. inversion Heq; subst. reflexivity. Qed.

Lemma keeps_of_result {A} (x : result A) :
  keeps_focus (of_result x : SE (X * E) A).
Proof. intros s r s' Heq. inversion Heq; subst. reflexivity. Qed.

Lemma keeps_liftE {A} (m : SE E A) : keeps_focus (liftE m : SE (X * E) A).
Proof.
  intros [x e] r s' Heq. unfold liftE in Heq. simpl in Heq.
  destruct (m e) as [r0 e0]. inversion Heq; subst. reflexivity.
Qed.

Lemma keeps_bind {A B} (m : SE (X * E) A) (k : A -> SE (X * E) B) :
  keeps_focus m -> (forall a, keeps_focus (k a)) -> keeps_focus (bind m k).
Proof.
  intros Hm Hk s r s' Heq. unfold bind in Heq.
  destruct (m s) as [[a|e] s1] eqn:Hms.
  - apply Hk in Heq. apply Hm in Hms. congruence.
  - inversion Heq; subst. eapply Hm; eauto.
Qed.

Lemma keeps_mapM {A B} (f : A -> SE (X * E) B) l :
  (forall a, keeps_focus (f a)) -> keeps_focus (mapM f l).
Proof.
  intros Hf. induction l as [|a l IH]; simpl.
  - apply keeps_ret.
  - apply keeps_bind; [apply Hf|]. intros b.
    apply keeps_bind; [apply IH|]. intros bs. apply keeps_ret.
Qed.
End KeepsFacts.

Ltac keeps_step :=
  cbv zeta;
  first
    [ apply keeps_ret | apply keeps_throw | apply keeps_gets
    | apply keeps_of_result | apply keeps_liftE
    | apply keeps_bind; [|intros ?]
    | apply keeps_mapM; intros ?
    | match goal with
      | |- keeps_focus (match ?x with _ => _ end) => destruct x
      | |- keeps_focus (if ?x then _ else _) => destruct x
      end ].

Ltac keeps_tac := repeat keeps_step.

Section KeepsThis.
Context {W : Type} (C : Collaborators W).


Lemma export_keeps : keeps_focus (export C).
Proof. unfold export. keeps_tac. Qed.

Lemma clearScopesCaches_keeps : keeps_focus (clearScopesCaches C).
Proof. unfold clearScopesCaches. keeps_tac. Qed.

Lemma addComponentsToScope_keeps : keeps_focus (addComponentsToScope C).
Proof. unfold addComponentsToScope. keeps_tac. Qed.
End KeepsThis.

(** ** The workflow step by step *)

Section RunFacts.
Context {W : Type} (C : Collaborators W).

Lemma updateDependenciesVersions_cut raw opts :
  updateDependenciesVersions C raw opts =
  (modifyX (This.set_updateDepsOptions opts) ;;;
   importAllMissing C raw ;;;
   items <- liftE (parseDevUpdatesItems C raw) ;;
   modifyX (This.set_depsUpdateItems items) ;;;
   updateFutureVersion C ;;;
   updateAllDeps C ;;;
   stampBuildCommit C opts).
Proof. reflexivity. Qed.

(** Where a run can stop. *)
Lemma run_cases raw opts (st : Main W) r st' :
  updateDependenciesVersions C raw opts st = (r, st') ->
  let s0 := (This.set_updateDepsOptions opts (fst st), snd st) in
  (exists e, importAllMissing C raw s0 = (Err e, st') /\ r = Err e) \/
  exists s1, importAllMissing C raw s0 = (Ok tt, s1) /\
    ((exists e env2, parseDevUpdatesItems C raw (snd s1) = (Err e, env2) /\
                     r = Err e /\ st' = (fst s1, env2)) \/
     exists items env2,
       parseDevUpdatesItems C raw (snd s1) = (Ok items, env2) /\
       let s2 := (This.set_depsUpdateItems items (fst s1), env2) in
       ((exists e, updateFutureVersion C s2 = (Err e, st') /\ r = Err e) \/
        exists s3, updateFutureVersion C s2 = (Ok tt, s3) /\
          ((exists e, updateAllDeps C s3 = (Err e, st') /\ r = Err e) \/
           exists s4, updateAllDeps C s3 = (Ok tt, s4) /\
                      stampBuildCommit C opts s4 = (r, st')))).
Proof.
  rewrite updateDependenciesVersions_cut. intros Hrun. cbv zeta.
  unfold bind at 1 in Hrun. unfold modifyX at 1 in Hrun. cbv beta iota in Hrun.
  unfold bind at 1 in Hrun.
  destruct (importAllMissing C raw _) as [[[]|e1] s1] eqn:H1.
  2:{ left. exists e1. inversion Hrun; subst. auto. }
  right. exists s1. split; [reflexivity|].
  unfold bind at 1 in Hrun. unfold liftE at 1 in Hrun.
  destruct (parseDevUpdatesItems C raw (snd s1)) as [[items|e2] env2] eqn:H2.
  2:{ left. exists e2, env2. inversion Hrun; subst. auto. }
  right. exists items, env2. split; [reflexivity|].
  unfold bind at 1 in Hrun. unfold modifyX at 1 in Hrun. cbv beta iota in Hrun.
  simpl fst in Hrun. simpl snd in Hrun.
  unfold bind at 1 in Hrun.
  destruct (updateFutureVersion C _) as [[[]|e3] s3] eqn:H3.
  2:{ left. exists e3. inversion Hrun; subst. auto. }
  right. exists s3. split; [reflexivity|].
  unfold bind at 1 in Hrun.
  destruct (updateAllDeps C s3) as [[[]|e4] s4] eqn:H4.
  2:{ left. exists e4. inversion Hrun; subst. auto. }
  right. exists s4. split; [reflexivity|]. exact Hrun.
Qed.

End RunFacts.

(** ** updateFutureVersion *)

Section PlanFacts.
Context {W : Type} (C : Collaborators W).




End PlanFacts.


(** ** Aborting in the parse/resolve step *)

Section AbortFacts.
Context {S : Type} `{Traced S}.

Lemma aborting_silent {A} (m : SE S A) : emits silent m -> aborting m.
Proof.
  intros Hm s r s' Heq. destruct (Hm _ _ _ Heq) as (t & Ht & F).
  exists t. split; [exact Ht|]. intros ev x Hin _.
  rewrite Forall_forall in F. destruct (F _ Hin).
Qed.

Lemma aborting_bind {A B} (m : SE S A) (k : A -> SE S B) :
  aborting m -> (forall a, aborting (k a)) -> aborting (bind m k).
Proof.
  intros Hm Hk s r s' Heq. unfold bind in Heq.
  destruct (m s) as [[a|e] s1] eqn:Hms.
  - destruct (Hm _ _ _ Hms) as (t1 & E1 & A1).
    destruct (Hk a _ _ _ Heq) as (t2 & E2 & A2).
    exists (t1 ++ t2). rewrite E2, E1, app_assoc. split; [reflexivity|].
    intros ev x Hin Hab. apply elem_of_app in Hin as [Hin|Hin].
    + destruct (A1 _ _ Hin Hab) as (x' & Hx' & _). discriminate.
    + eauto.
  - inversion Heq; subst.
    destruct (Hm _ _ _ Hms) as (t1 & E1 & A1).
    exists t1. split; [exact E1|].
    intros ev x Hin Hab. destruct (A1 _ _ Hin Hab) as (x' & Hx' & Hab').
    inversion Hx'; subst. eauto.
Qed.

Lemma aborting_mapM {A B} (f : A -> SE S B) l :
  (forall a, aborting (f a)) -> aborting (mapM f l).
Proof.
  intros Hf. induction l as [|a l IH]; simpl.
  - apply aborting_silent, emits_ret.
  - apply aborting_bind; [apply Hf|]. intros b.
    apply aborting_bind; [apply IH|]. intros bs.
    apply aborting_silent, emits_ret.
Qed.
End AbortFacts.

Section ParseFacts.
Context {W : Type} (C : Collaborators W).

Lemma getDependencyWithExactVersion_aborting depStr :
  aborting (getDependencyWithExactVersion C depStr).
Proof.
  unfold getDependencyWithExactVersion.
  apply aborting_bind; [apply aborting_silent; unfold fromString; emits_tac|].
  intros compId. cbv zeta.
  intros env r s' Heq. unfold bind, getExactVersionBySemverRange in Heq.
  destruct (scope_getVersionHistory W C _ (world env)) as [[versions|e] w].
  - destruct (maxSatisfying C versions _) as [v|] eqn:Hmax.
    + eexists [_]. split.
      * destruct (truthy (Some v)); inversion Heq; subst; reflexivity.
      * intros ev x Hin Hab. apply list_elem_of_singleton in Hin. subst.
        inversion Hab.
    + simpl in Heq. inversion Heq; subst.
      eexists [_]. split; [reflexivity|].
      intros ev x Hin Hab. apply list_elem_of_singleton in Hin. subst.
      eexists. split; [reflexivity|]. apply aborts_range.
  - inversion Heq; subst. eexists [_]. split; [reflexivity|].
    intros ev x Hin Hab. apply list_elem_of_singleton in Hin. subst.
    inversion Hab.
Qed.

Lemma parseDevUpdatesItem_aborting raw :
  aborting (parseDevUpdatesItem C raw).
Proof.
  unfold parseDevUpdatesItem.
  apply aborting_bind; [apply aborting_silent; unfold fromString; emits_tac|].
  intros componentId.
  intros env r s' Heq. unfold bind at 1 in Heq. unfold call at 1 in Heq.
  destruct (scope_get W C componentId (world env)) as [[[c|]|e] w].
  - pose proof (aborting_bind
                  (mapM (getDependencyWithExactVersion C)
                        (DepUpdateItemRaw.dependencies raw))
                  (fun dependencies =>
                     ret (DepUpdateItem.mk c dependencies
                            (DepUpdateItemRaw.versionToTag raw)))) as Hk.
    destruct (Hk (aborting_mapM _ _ (getDependencyWithExactVersion_aborting))
                 (fun _ => aborting_silent _ (emits_ret _ _)) _ _ _ Heq)
      as (t & Ht & Ha).
    unfold trace_of, Env_traced in Ht. simpl in Ht.
    exists (EvGet componentId (Ok (Some c)) :: t). split.
    + unfold trace_of, Env_traced. rewrite Ht, <- app_assoc. reflexivity.
    + intros ev x Hin Hab. apply elem_of_cons in Hin as [->|Hin].
      * inversion Hab.
      * eauto.
  - inversion Heq; subst. eexists [_]. split; [reflexivity|].
    intros ev x Hin Hab. apply list_elem_of_singleton in Hin. subst.
    eexists. split; [reflexivity|]. apply aborts_get.
  - inversion Heq; subst. eexists [_]. split; [reflexivity|].
    intros ev x Hin Hab. apply list_elem_of_singleton in Hin. subst.
    inversion Hab.
Qed.

Lemma parseDevUpdatesItems_aborting raw :
  aborting (parseDevUpdatesItems C raw).
Proof. apply aborting_mapM, parseDevUpdatesItem_aborting. Qed.

Lemma aborts_with_stage ev x : aborts_with ev x -> stage ev = 2.
Proof. intros []; reflexivity. Qed.

End ParseFacts.

Ltac trace_simpl :=
  unfold trace_of, focus_traced, trace_of, Env_traced in *; simpl in *.

Section AbortRun.
Context {W : Type} (C : Collaborators W).

Lemma not_in_other_stage (ev : Event) (t : list Event) (P : Event -> Prop) :
  Forall P t -> (P ev -> False) -> ev ∈ t -> False.
Proof.
  intros F HP Hin. rewrite Forall_forall in F. apply HP, F, Hin.
Qed.

(** A run in which a lookup finds nothing ends with the exception of that
    lookup, and has made no call beyond the parse/resolve stage. *)
Lemma run_aborts raw opts this w r st' ev x :
  updateDependenciesVersions C raw opts (this, mkEnv w []) = (r, st') ->
  ev ∈ trace (snd st') -> aborts_with ev x ->
  (exists x', r = Err x' /\ aborts_with ev x') /\
  Forall (fun e => stage e <= 2) (trace (snd st')).
Proof.
  intros Hrun Hin Hab.
  pose proof (aborts_with_stage _ _ Hab) as Hstage.
  apply run_cases in Hrun. cbv zeta in Hrun. simpl fst in Hrun.
  simpl snd in Hrun.
  destruct Hrun as [(e & H1 & _)|(s1 & H1 & Hrun)].
  { exfalso. apply importAllMissing_emits in H1 as (t1 & E1 & F1).
    trace_simpl. rewrite E1 in Hin.
    eapply (not_in_other_stage ev t1); eauto. unfold in_stage. lia. }
  apply importAllMissing_emits in H1 as (t1 & E1 & F1). trace_simpl.
  assert (ev ∈ t1 -> False) as Hn1.
  { eapply not_in_other_stage; eauto. unfold in_stage. lia. }
  destruct Hrun as [(e & env2 & H2 & -> & ->)|(items & env2 & H2 & Hrun)].
  { destruct (parseDevUpdatesItems_aborting C raw _ _ _ H2) as (t2 & E2 & A2).
    destruct (parseDevUpdatesItems_emits C raw _ _ _ H2) as (t2' & E2' & F2).
    trace_simpl. rewrite E2 in E2'. apply app_inv_head in E2'. subst t2'.
    rewrite E2, E1 in Hin |- *. split.
    - apply elem_of_app in Hin as [Hin|Hin]; [destruct (Hn1 Hin)|].
      destruct (A2 _ _ Hin Hab) as (x' & Hx' & Hab').
      inversion Hx'; subst. eauto.
    - apply Forall_app. split; eapply Forall_impl; eauto;
        unfold in_stage; intros; simpl in *; lia. }
  exfalso.
  destruct (parseDevUpdatesItems_aborting C raw _ _ _ H2) as (t2 & E2 & A2).
  trace_simpl.
  assert (ev ∈ t2 -> False) as Hn2.
  { intros Hin2. destruct (A2 _ _ Hin2 Hab) as (x' & Hx' & _). discriminate. }
  cbv zeta in Hrun.
  destruct Hrun as [(e & H3 & _)|(s3 & H3 & Hrun)].
  { apply updateFutureVersion_emits in H3 as (t3 & E3 & F3). trace_simpl.
    rewrite E3, E2, E1 in Hin.
    apply elem_of_app in Hin as [Hin|Hin];
      [apply elem_of_app in Hin as [Hin|Hin]; auto|].
    eapply (not_in_other_stage ev t3); eauto. unfold in_stage. lia. }
  apply updateFutureVersion_emits in H3 as (t3 & E3 & F3). trace_simpl.
  assert (ev ∈ t3 -> False) as Hn3.
  { eapply not_in_other_stage; eauto. unfold in_stage. lia. }
  destruct Hrun as [(e & H4 & _)|(s4 & H4 & Hrun)].
  { apply updateAllDeps_emits in H4 as (t4 & E4 & F4). trace_simpl.
    rewrite E4, E3, E2, E1 in Hin.
    repeat (apply elem_of_app in Hin as [Hin|Hin]); auto.
    eapply (not_in_other_stage ev t4); eauto. unfold in_stage. lia. }
  apply updateAllDeps_emits in H4 as (t4 & E4 & F4). trace_simpl.
  apply stampBuildCommit_staged in Hrun as (t5 & E5 & F5 & _). trace_simpl.
  rewrite E5, E4, E3, E2, E1 in Hin.
  repeat (apply elem_of_app in Hin as [Hin|Hin]); auto.
  - eapply (not_in_other_stage ev t4); eauto. unfold in_stage. lia.
  - eapply (not_in_other_stage ev t5); eauto. unfold stage_between. lia.
Qed.

(** C8: in every run of [updateDependenciesVersions], if the store's [get]
    returns nothing for the identifier of an update item, the run throws
    [ComponentNotFound] for that identifier, and every call it has made
    belongs to the import or the parse/resolve stage: no call of version
    planning, rewriting, staging, build or commit was made. *)
Theorem C8_absent_component_aborts raw opts (this : This.t) (w : W) r st' id :
  updateDependenciesVersions C raw opts (this, mkEnv w []) = (r, st') ->
  EvGet id (Ok None) ∈ trace (snd st') ->
  r = Err (ComponentNotFound id) /\
  Forall (fun e => stage e <= 2) (trace (snd st')).
Proof.
  intros Hrun Hin.
  destruct (run_aborts _ _ _ _ _ _ _ _ Hrun Hin (aborts_get id))
    as ((x' & -> & Hab) & Hst).
  split; [|exact Hst]. inversion Hab; subst. reflexivity.
Qed.

End AbortRun.


(** ** getDependencyWithExactVersion *)

Section ResolveFacts.
Context {W : Type} (C : Collaborators W).





End ResolveFacts.


(** ** saveDataIntoLocalScope and the end of the workflow *)

Section CommitFacts.
Context {W : Type} (C : Collaborators W).

Lemma buildStatusOf_find pipes :
  buildStatusOf (List.find PipeResult.hasErrors pipes) = batch_status pipes.
Proof.
  unfold batch_status. induction pipes as [|p pipes IH]; simpl; auto.
  destruct (PipeResult.hasErrors p); simpl; auto.
Qed.

Lemma find_None_Forall pipes :
  List.find PipeResult.hasErrors pipes = None <->
  Forall (fun p => PipeResult.hasErrors p = false) pipes.
Proof.
  induction pipes as [|p pipes IH]; simpl.
  - split; auto.
  - destruct (PipeResult.hasErrors p) eqn:Hp.
    + split; [discriminate|]. intros F. inversion F; subst. congruence.
    + rewrite IH. split; [intros F; constructor; auto|].
      intros F. inversion F; auto.
Qed.

Lemma find_Some_batch_status pipes p :
  List.find PipeResult.hasErrors pipes = Some p -> batch_status pipes = Failed.
Proof. intros Hf. rewrite <- buildStatusOf_find, Hf. reflexivity. Qed.

Lemma saveComponent_Ok buildStatus item env item' env' :
  onLegacy (saveComponent C buildStatus) (item, env) = (Ok tt, (item', env')) ->
  item' = DepUpdateItem.set_legacy
            (ConsumerComponent.set_buildStatus (Some buildStatus)
               (DepUpdateItem.legacy item)) item /\
  trace env' = trace env ++ [enrich_call item'].
Proof.
  unfold onLegacy, zoom, saveComponent, bind, modifyX, getX, liftE, call.
  simpl.
  destruct (sources_enrichSource W C _ (world env)) as [[[]|e] w]; simpl;
    intros Heq; inversion Heq; subst; clear Heq.
  split; reflexivity.
Qed.

Lemma saveComponents_Ok buildStatus items env items' env' :
  forEach (onLegacy (saveComponent C buildStatus)) items env
    = (Ok tt, (items', env')) ->
  trace env' = trace env ++ map enrich_call items' /\
  Forall (has_status buildStatus) items'.
Proof.
  revert env items' env'.
  induction items as [|item items IH]; simpl; intros env items' env' Heq.
  - inversion Heq; subst. simpl. rewrite app_nil_r. auto.
  - destruct (onLegacy (saveComponent C buildStatus) (item, env))
      as [[[]|err] [item1 env1]] eqn:H1; [|discriminate].
    destruct (forEach _ items env1) as [res [items1 env2]] eqn:H2.
    inversion Heq; subst.
    apply saveComponent_Ok in H1 as (-> & E1).
    apply IH in H2 as (E2 & F2).
    split.
    + rewrite E2, E1, <- app_assoc. reflexivity.
    + constructor; [reflexivity|exact F2].
Qed.

Lemma saveDataIntoLocalScope_Ok buildStatus (st st' : Main W) :
  saveDataIntoLocalScope C buildStatus st = (Ok tt, st') ->
  trace (snd st') = trace (snd st)
                      ++ map enrich_call (This.depsUpdateItems (fst st'))
                      ++ [EvPersist (Ok tt)] /\
  Forall (has_status buildStatus) (This.depsUpdateItems (fst st')).
Proof.
  unfold saveDataIntoLocalScope. intros Heq.
  apply bind_Ok in Heq as ([] & s1 & H1 & H2).
  unfold onItems, zoom, forEachM in H1. simpl in H1.
  destruct (forEach _ _ _) as [r [l' e']] eqn:Hf.
  inversion H1; subst. clear H1.
  apply saveComponents_Ok in Hf as (E1 & F1).
  unfold liftE, call in H2. simpl in H2.
  destruct (objects_persist W C (world e')) as [[[]|e] w]; inversion H2; subst.
  simpl. split; [|exact F1].
  rewrite E1, <- app_assoc. reflexivity.
Qed.

Lemma finish_Ok opts (st st' : Main W) :
  (if UpdateDepsOptions.multiple opts then export C else clearScopesCaches C) st
    = (Ok tt, st') ->
  fst st' = fst st /\
  exists post, trace (snd st') = trace (snd st) ++ post /\
               Forall (in_stage 11) post.
Proof.
  intros Heq. destruct (UpdateDepsOptions.multiple opts).
  - split; [eapply export_keeps; eauto|].
    apply export_emits in Heq. exact Heq.
  - split; [eapply clearScopesCaches_keeps; eauto|].
    apply clearScopesCaches_emits in Heq. exact Heq.
Qed.

Lemma commitAndReturn_Ok opts built (st st' : Main W) res :
  commitAndReturn C opts built st = (Ok res, st') ->
  exists post,
    trace (snd st') = trace (snd st)
                        ++ map enrich_call (UpdateDepsResult.depsUpdateItems res)
                        ++ EvPersist (Ok tt) :: post /\
    Forall (in_stage 11) post /\
    Forall (has_status (batch_status (snd built)))
      (UpdateDepsResult.depsUpdateItems res) /\
    UpdateDepsResult.error res
      = errorOf (List.find PipeResult.hasErrors (snd built)).
Proof.
  unfold commitAndReturn. cbv zeta. intros Heq.
  apply bind_Ok in Heq as ([] & s1 & H1 & Heq).
  unfold onItems, zoom, modifyX in H1. simpl in H1.
  inversion H1; subst; clear H1.
  apply bind_Ok in Heq as (legacyComponents & s2 & H2 & Heq).
  inversion H2; subst; clear H2.
  apply bind_Ok in Heq as ([] & s3 & H3 & Heq).
  apply saveDataIntoLocalScope_Ok in H3 as (E3 & F3). simpl in E3.
  apply bind_Ok in Heq as ([] & s4 & H4 & Heq).
  apply finish_Ok in H4 as (K4 & post & E4 & F4).
  apply bind_Ok in Heq as (items & s5 & H5 & Heq).
  inversion H5; subst; clear H5.
  inversion Heq; subst; clear Heq. simpl.
  exists post. rewrite K4. split; [|split; [exact F4|split]].
  - rewrite E4, E3, <- !app_assoc. reflexivity.
  - rewrite <- buildStatusOf_find. exact F3.
  - reflexivity.
Qed.

Lemma stampBuildCommit_Ok opts (st st' : Main W) res :
  stampBuildCommit C opts st = (Ok res, st') ->
  exists pre components built post,
    trace (snd st') =
      trace (snd st) ++ pre
        ++ EvTagListener components true true (Ok built)
        :: map enrich_call (UpdateDepsResult.depsUpdateItems res)
        ++ EvPersist (Ok tt) :: post /\
    Forall (fun e => stage e <= 7) pre /\
    Forall (in_stage 11) post /\
    Forall (has_status (batch_status (snd built)))
      (UpdateDepsResult.depsUpdateItems res) /\
    UpdateDepsResult.error res
      = errorOf (List.find PipeResult.hasErrors (snd built)).
Proof.
  unfold stampBuildCommit. intros Heq.
  apply bind_Ok in Heq as ([] & s1 & H1 & Heq).
  apply addLogToComponents_emits in H1 as (t1 & E1 & F1).
  apply bind_Ok in Heq as ([] & s2 & H2 & Heq).
  apply addFlattenedDependencies_emits in H2 as (t2 & E2 & F2).
  apply bind_Ok in Heq as ([] & s3 & H3 & Heq).
  apply addBuildStatus_emits in H3 as (t3 & E3 & F3).
  apply bind_Ok in Heq as ([] & s4 & H4 & Heq).
  apply addComponentsToScope_emits in H4 as (t4 & E4 & F4).
  apply bind_Ok in Heq as ([] & s5 & H5 & Heq).
  apply updateComponents_emits in H5 as (t5 & E5 & F5).
  apply bind_Ok in Heq as (components & s6 & H6 & Heq).
  inversion H6; subst; clear H6.
  apply bind_Ok in Heq as (built & s7 & H7 & Heq).
  unfold liftE, call in H7.
  destruct (builder_tagListener W C _ true true (world (snd s6)))
    as [[b|e] w] eqn:Hb; inversion H7; subst; clear H7.
  apply commitAndReturn_Ok in Heq as (post & E8 & F8 & Hst & Herr).
  trace_simpl.
  exists (t1 ++ t2 ++ t3 ++ t4 ++ t5), (This.components (fst s6)), built, post.
  split; [|split; [|split; [exact F8|split; [exact Hst|exact Herr]]]].
  - rewrite E8, E5, E4, E3, E2, E1, <- !app_assoc. reflexivity.
  - repeat (apply Forall_app; split).
    all: eapply Forall_impl; eauto; unfold in_stage, silent;
      intros; simpl in *; try lia; tauto.
Qed.

(** The shape of the trace of a run that returns. *)
Lemma run_Ok_shape raw opts (this : This.t) (w : W) res st' :
  updateDependenciesVersions C raw opts (this, mkEnv w []) = (Ok res, st') ->
  exists pre components built post,
    trace (snd st') =
      pre ++ EvTagListener components true true (Ok built)
          :: map enrich_call (UpdateDepsResult.depsUpdateItems res)
          ++ EvPersist (Ok tt) :: post /\
    Forall (fun e => stage e <= 7) pre /\
    Forall (in_stage 11) post /\
    Forall (has_status (batch_status (snd built)))
      (UpdateDepsResult.depsUpdateItems res) /\
    UpdateDepsResult.error res
      = errorOf (List.find PipeResult.hasErrors (snd built)).
Proof.
  intros Hrun. apply run_cases in Hrun. cbv zeta in Hrun.
  simpl fst in Hrun. simpl snd in Hrun.
  destruct Hrun as [(e & _ & Hr)|(s1 & H1 & Hrun)]; [discriminate|].
  apply importAllMissing_emits in H1 as (t1 & E1 & F1).
  destruct Hrun as [(e & env2 & _ & Hr & _)|(items & env2 & H2 & Hrun)];
    [discriminate|].
  apply parseDevUpdatesItems_emits in H2 as (t2 & E2 & F2).
  cbv zeta in Hrun.
  destruct Hrun as [(e & _ & Hr)|(s3 & H3 & Hrun)]; [discriminate|].
  apply updateFutureVersion_emits in H3 as (t3 & E3 & F3).
  destruct Hrun as [(e & _ & Hr)|(s4 & H4 & Hrun)]; [discriminate|].
  apply updateAllDeps_emits in H4 as (t4 & E4 & F4).
  apply stampBuildCommit_Ok in Hrun
    as (pre & components & built & post & E5 & F5 & F6 & Hst & Herr).
  trace_simpl.
  exists (t1 ++ t2 ++ t3 ++ t4 ++ pre), components, built, post.
  split; [|split; [|split; [exact F6|split; [exact Hst|exact Herr]]]].
  - rewrite E5, E4, E3, E2, E1, <- !app_assoc. reflexivity.
  - repeat (apply Forall_app; split); auto.
    all: eapply Forall_impl; eauto; unfold in_stage;
      intros; simpl in *; lia.
Qed.

Lemma call_Ok {A} (f : W -> result A * W) ev (a : A) (env : Env W) :
  fst (f (world env)) = Ok a ->
  exists env', call f ev env = (Ok a, env').
Proof.
  unfold call. destruct (f (world env)) as [r w]. simpl. intros ->. eauto.
Qed.

Lemma saveComponent_returns buildStatus item (env : Env W) :
  (forall c w, fst (sources_enrichSource W C c w) = Ok tt) ->
  exists item' env',
    onLegacy (saveComponent C buildStatus) (item, env) = (Ok tt, (item', env')).
Proof.
  intros Hen.
  unfold onLegacy, zoom, saveComponent, bind, modifyX, getX, liftE.
  simpl.
  destruct (call_Ok (sources_enrichSource W C
                       (ConsumerComponent.set_buildStatus (Some buildStatus)
                          (DepUpdateItem.legacy item)))
                    (EvEnrichSource
                       (ConsumerComponent.set_buildStatus (Some buildStatus)
                          (DepUpdateItem.legacy item)))
                    tt env (Hen _ _)) as (env1 & ->).
  eauto.
Qed.

Lemma saveComponents_returns buildStatus items (env : Env W) :
  (forall c w, fst (sources_enrichSource W C c w) = Ok tt) ->
  exists items' env',
    forEach (onLegacy (saveComponent C buildStatus)) items env
    = (Ok tt, (items', env')).
Proof.
  intros Hen. revert env.
  induction items as [|item items IH]; intros env; simpl; [eauto|].
  destruct (saveComponent_returns buildStatus item env Hen)
    as (item' & env1 & ->).
  destruct (IH env1) as (items' & env' & ->). eauto.
Qed.

Lemma saveDataIntoLocalScope_returns buildStatus (st : Main W) :
  commit_collaborators_succeed C ->
  exists st', saveDataIntoLocalScope C buildStatus st = (Ok tt, st').
Proof.
  intros (Hen & Hp & _). unfold saveDataIntoLocalScope.
  unfold bind, onItems, zoom, forEachM. simpl.
  destruct (saveComponents_returns buildStatus (This.depsUpdateItems (fst st))
              (snd st) Hen) as (items' & env' & ->).
  unfold liftE. simpl.
  destruct (call_Ok (objects_persist W C) EvPersist tt env' (Hp _)) as (env2 & ->).
  eauto.
Qed.

Lemma clearScopeCache_returns group (env : Env W) :
  commit_collaborators_succeed C ->
  exists u env', clearScopeCache C group env = (Ok u, env').
Proof.
  intros (_ & _ & _ & _ & Hres & Hact). unfold clearScopeCache. cbv zeta.
  unfold bind.
  destruct (Hres (fst group) (world env)) as (remote & Hr).
  destruct (call_Ok _ (EvRemoteResolve (fst group)) remote env Hr)
    as (env1 & ->).
  destruct (call_Ok (remote_action W C remote PostSign_name
                       (map (BitId_toString W C) (snd group)))
                    (EvRemoteAction remote PostSign_name
                       (map (BitId_toString W C) (snd group)))
                    tt env1 (Hact remote PostSign_name _ _)) as (env2 & ->).
  eauto.
Qed.

Lemma finish_returns opts (st : Main W) :
  commit_collaborators_succeed C ->
  exists st',
    (if UpdateDepsOptions.multiple opts then export C else clearScopesCaches C) st
    = (Ok tt, st').
Proof.
  intros Hc. pose proof Hc as (_ & _ & Hex & Hsr & _).
  destruct (UpdateDepsOptions.multiple opts).
  - unfold export, bind, gets, liftE. simpl.
    destruct (call_Ok (exportMany W C
                         (map ConsumerComponent.id (This.legacyComponents (fst st))))
                      (EvExportMany
                         (map ConsumerComponent.id (This.legacyComponents (fst st))))
                      tt (snd st) (Hex _ _)) as (env1 & ->).
    eauto.
  - unfold clearScopesCaches. unfold bind at 1. unfold gets at 1.
    cbv beta iota zeta. unfold bind at 1. unfold liftE at 1.
    destruct (call_Ok (getScopeRemotes W C) EvGetScopeRemotes tt (snd st) (Hsr _))
      as (env1 & ->).
    unfold bind at 1. unfold liftE at 1. simpl snd.
    destruct (mapM_returns (clearScopeCache C)
                (fun g e => clearScopeCache_returns g e Hc)
                (toGroupByScopeName
                   (map ConsumerComponent.id (This.legacyComponents (fst st))))
                env1) as (us & env2 & ->).
    unfold ret. eauto.
Qed.

Lemma commitAndReturn_returns : build_errors_do_not_abort C.
Proof.
  intros Hc opts built st.
  assert (exists res st', commitAndReturn C opts built st = (Ok res, st'))
    as (res & st' & Hrun).
  { unfold commitAndReturn. cbv zeta.
    unfold bind at 1. unfold onItems at 1, zoom at 1, modifyX at 1.
    cbv beta iota. simpl fst. simpl snd.
    unfold bind at 1. unfold gets at 1. cbv beta iota.
    unfold bind at 1.
    destruct (saveDataIntoLocalScope_returns
                (buildStatusOf (List.find PipeResult.hasErrors (snd built)))
                (This.set_depsUpdateItems
                   (write_back DepUpdateItem.set_legacy
                      (This.depsUpdateItems (fst st))
                      (updateComponentsByTagResult W C
                         (map DepUpdateItem.legacy (This.depsUpdateItems (fst st)))
                         (scope_builderDataMapToLegacyOnTagResults W C (fst built))))
                   (fst st), snd st) Hc) as (s3 & ->).
    unfold bind at 1.
    destruct (finish_returns opts s3 Hc) as (s4 & ->).
    unfold bind, gets, ret. eauto. }
  exists res, st'. split; [exact Hrun|].
  apply commitAndReturn_Ok in Hrun as (post & _ & _ & Hst & Herr).
  split; [exact Herr|exact Hst].
Qed.

(** C10: in every run of [updateDependenciesVersions] that returns, one
    status is computed from the builder's answer (Failed when some pipeline
    result has errors, Succeed when none has) and every item of the batch
    carries it when it is handed to [enrichSource]; the [enrichSource]
    calls, one per item, are followed by [persist], and no commit call was
    made before the builder answered. *)
Theorem C10_one_build_status_for_the_batch raw opts (this : This.t) (w : W)
    res st' :
  updateDependenciesVersions C raw opts (this, mkEnv w []) = (Ok res, st') ->
  committed_with_single_status res (trace (snd st')).
Proof.
  intros Hrun.
  apply run_Ok_shape in Hrun
    as (pre & components & [bdm pipes] & post & E & F1 & F2 & Hst & _).
  exists pre, components, bdm, pipes, post.
  split; [exact E|]. split; [exact F1|]. split; [exact F2|].
  split; [exact Hst|]. unfold batch_status. split.
  - intros Hex. apply Exists_exists in Hex as (p & Hin & Hp).
    assert (existsb PipeResult.hasErrors pipes = true) as ->; [|reflexivity].
    apply existsb_exists. exists p. split; [|exact Hp].
    apply list_elem_of_In. exact Hin.
  - intros Hall.
    assert (existsb PipeResult.hasErrors pipes = false) as ->; [|reflexivity].
    apply find_None_Forall in Hall. clear -Hall.
    induction pipes as [|p pipes IH]; simpl in *; auto.
    destruct (PipeResult.hasErrors p); [discriminate|auto].
Qed.

(** C1: (1) in every run of [updateDependenciesVersions] that returns,
    the [error] field of the result is null exactly when no pipeline result
    of the builder has errors; and when one has, the run has still
    committed the batch ([enrichSource] on every item, then [persist]) with
    [buildStatus = Failed] on every component, and [error] is the formatted
    message of the first pipeline result with errors.  (2) Pipeline errors
    never make the method throw: with store and remote collaborators that
    do not throw, what follows the builder's answer returns a result,
    whatever the answer. *)
Theorem C1_build_errors_are_committed_and_reported :
  (forall raw opts (this : This.t) (w : W) res st',
     updateDependenciesVersions C raw opts (this, mkEnv w []) = (Ok res, st') ->
     reports_build_errors res (trace (snd st'))) /\
  build_errors_do_not_abort C.
Proof.
  split; [|apply commitAndReturn_returns].
  intros raw opts this w res st' Hrun.
  apply run_Ok_shape in Hrun
    as (pre & components & [bdm pipes] & post & E & _ & _ & Hst & Herr).
  simpl in Hst, Herr.
  exists components, bdm, pipes. split; [|split].
  - rewrite E. apply elem_of_app. right. apply elem_of_cons. left. reflexivity.
  - rewrite Herr, <- find_None_Forall.
    destruct (List.find PipeResult.hasErrors pipes); simpl; split;
      intros; congruence.
  - intros pipe Hfind.
    pose proof (find_some _ _ Hfind) as [Hin Hp].
    split; [exact Hp|]. split; [apply list_elem_of_In; exact Hin|].
    split; [rewrite Herr, Hfind; reflexivity|].
    split; [rewrite <- (find_Some_batch_status _ _ Hfind); exact Hst|].
    split.
    + apply Forall_forall. intros item Hitem. rewrite E.
      apply elem_of_app. right. apply elem_of_cons. right.
      apply elem_of_app. left. apply list_elem_of_fmap. exists item. auto.
    + rewrite E. apply elem_of_app. right. apply elem_of_cons. right.
      apply elem_of_app. right. apply elem_of_cons. left. reflexivity.
Qed.

End CommitFacts.


(** ** A missing package name *)

Section MissingPackageFacts.
Context {W : Type} (C : Collaborators W).







End MissingPackageFacts.

(** On the batch [a; c] of the concrete scope the rewrite throws for [c],
    whose edge on [b] is matched and has no package name; by then the edge
    of [a] on [b] has been rewritten to the resolved version. *)
Example rewrite_of_a_survives_the_failure_of_c :
  exists st',
    updateAllDeps (Demo.scope []) Demo.rewrite_start
    = (Err (Error (missing_package_msg "teambit/b@0.9.0" "teambit/c@1.0.0")),
       st') /\
    This.depsUpdateItems (fst st') !! 1 = Some Demo.item_c /\
    (ConsumerComponent.dependencies <$>
       (DepUpdateItem.legacy <$> This.depsUpdateItems (fst st') !! 0))
    = Some [Dependency.mk (ComponentID._legacy Demo.b_resolved)
              (Some "pkg-teambit/b@0.9.0")].
Proof.
  eexists. split; [vm_compute; reflexivity|].
  split; vm_compute; reflexivity.
Qed.


(** ** Batch members that depend on each other *)

Section BatchIdsFacts.
Context {W : Type} (C : Collaborators W).

Lemma planVersion_keeps_id opts item env r item' env' :
  planVersion C opts (item, env) = (r, (item', env')) ->
  Component.id (DepUpdateItem.component item')
  = Component.id (DepUpdateItem.component item).
Proof.
  unfold planVersion.
  unfold bind at 1. unfold getX at 1. cbv beta iota. simpl fst.
  unfold bind at 1. unfold liftE at 1, call at 1. simpl.
  destruct (legacyScope_getModelComponent W C _ (world env)) as [[mc|e] w];
    simpl; [|intros Heq; inversion Heq; reflexivity].
  destruct (UpdateDepsOptions.tag opts).
  - unfold bind at 1. unfold of_result at 1.
    destruct (getValidVersionOrReleaseType W C _) as [[rt ev]|e];
      [|intros Heq; inversion Heq; reflexivity].
    unfold bind at 1. unfold of_result at 1. simpl.
    destruct (ModelComponent.getVersionToAdd mc rt ev) as [v|e];
      [|intros Heq; inversion Heq; reflexivity].
    unfold onLegacy, zoom, modifyX. simpl.
    intros Heq; inversion Heq; reflexivity.
  - unfold onLegacy, zoom, modifyX. simpl.
    intros Heq; inversion Heq; reflexivity.
Qed.

(** Version planning writes the [version] of the legacy components; the
    identifiers that [updateAllDeps] cross-references are those of the
    components as loaded, and planning leaves them as they are. *)
Lemma updateFutureVersion_keeps_batch_ids (st st' : Main W) r :
  updateFutureVersion C st = (r, st') ->
  currentBitIdsOf (This.depsUpdateItems (fst st'))
  = currentBitIdsOf (This.depsUpdateItems (fst st)).
Proof.
  unfold updateFutureVersion, bind, gets, onItems, zoom, forEachM. simpl.
  destruct (forEach _ _ _) as [r0 [l' e']] eqn:Hf.
  intros Heq. inversion Heq; subst. simpl.
  assert (Forall2 (fun item item' =>
                     Component.id (DepUpdateItem.component item')
                     = Component.id (DepUpdateItem.component item))
            (This.depsUpdateItems (fst st)) l') as F.
  { eapply forEach_Forall2; [| |exact Hf].
    - reflexivity.
    - intros x e r1 x' e1 Hx. eapply planVersion_keeps_id; eauto. }
  unfold currentBitIdsOf. rewrite !map_map.
  clear Hf Heq.
  induction F as [|x y l k Hxy F IH]; simpl; [reflexivity|].
  rewrite Hxy, IH. reflexivity.
Qed.

End BatchIdsFacts.

(** C2 does not hold of the code.  (1) In any scope, version planning
    leaves the identifiers that [updateAllDeps] takes as [currentBitIds]
    exactly as they were when the components were loaded.  (2) At a batch
    of two in the concrete scope: [a], whose dependency list holds an edge
    on [b] at 0.9.0, and [b], stored at 1.0.0 and advanced to 3.0.0.  The
    run returns; [b] carries its new version 3.0.0, and the edge of [a] on
    [b] carries 1.0.0, the version under which [b] was loaded. *)
Theorem C2_intra_batch_edge_carries_the_loaded_version :
  (forall W (C : Collaborators W) (st st' : Main W) r,
     updateFutureVersion C st = (r, st') ->
     currentBitIdsOf (This.depsUpdateItems (fst st'))
     = currentBitIdsOf (This.depsUpdateItems (fst st))) /\
  exists res st',
    updateDependenciesVersions (Demo.scope [Demo.cleanPipe])
      [Demo.raw_a_plain; Demo.raw_b] (Demo.options true true) Demo.start
    = (Ok res, st') /\
    map (fun item =>
           (ConsumerComponent.name (DepUpdateItem.legacy item),
            ConsumerComponent.version (DepUpdateItem.legacy item)))
        (UpdateDepsResult.depsUpdateItems res)
    = [("a", Some "1.0.1"); ("b", Some "3.0.0")] /\
    map (fun item =>
           map Dependency.id
               (ConsumerComponent.dependencies (DepUpdateItem.legacy item)))
        (UpdateDepsResult.depsUpdateItems res)
    = [[BitId.mk "teambit" "b" (Some "1.0.0")]; []].
Proof.
  split.
  - intros W C st st' r. apply updateFutureVersion_keeps_batch_ids.
  - eexists. eexists. split; [vm_compute; reflexivity|].
    split; vm_compute; reflexivity.
Qed.

(** ** The concrete scope *)

Section DemoFacts.
Import Demo.





(** The end-to-end scenario of the spec: [a] pinned to [b] in the caret
    range of 1.0.0 with history 1.0.0, 1.1.0, 2.0.0, tagged with a minor
    bump, build succeeding. *)
Example end_to_end_scenario :
  exists res st',
    updateDependenciesVersions (scope [cleanPipe]) [raw_a] (options true false)
      start = (Ok res, st') /\
    UpdateDepsResult.error res = None /\
    map DepUpdateItem.dependencies (UpdateDepsResult.depsUpdateItems res)
    = [[b_resolved]] /\
    map (fun item => ConsumerComponent.version (DepUpdateItem.legacy item))
        (UpdateDepsResult.depsUpdateItems res)
    = [Some "1.1.0"].
Proof.
  eexists. eexists. split; [vm_compute; reflexivity|].
  repeat split; vm_compute; reflexivity.
Qed.

Example star_range_yields_highest :
  maxSatisfying (scope []) ["1.0.0"; "1.2.0"; "2.0.0"] "*" = Some "2.0.0".
Proof. reflexivity. Qed.

End DemoFacts.

(** ** The theorems at the concrete scope *)

Lemma C1_witness :
  exists res st',
    updateDependenciesVersions (Demo.scope [Demo.cleanPipe; Demo.brokenPipe])
      [Demo.raw_a] (Demo.options true false) Demo.start = (Ok res, st') /\
    reports_build_errors res (trace (snd st')).
Proof.
  eexists. eexists. split; [vm_compute; reflexivity|].
  eapply (proj1 (C1_build_errors_are_committed_and_reported
                   (Demo.scope [Demo.cleanPipe; Demo.brokenPipe]))
                [Demo.raw_a] (Demo.options true false)
                (This.mk [] (Demo.options false false)) 0).
  vm_compute. reflexivity.
Defined.

Lemma C10_witness :
  exists res st',
    updateDependenciesVersions (Demo.scope [Demo.cleanPipe; Demo.brokenPipe])
      [Demo.raw_a_plain; Demo.raw_b] (Demo.options true true) Demo.start
    = (Ok res, st') /\
    committed_with_single_status res (trace (snd st')).
Proof.
  eexists. eexists. split; [vm_compute; reflexivity|].
  eapply (C10_one_build_status_for_the_batch
            (Demo.scope [Demo.cleanPipe; Demo.brokenPipe])
            [Demo.raw_a_plain; Demo.raw_b] (Demo.options true true)
            (This.mk [] (Demo.options false false)) 0).
  vm_compute. reflexivity.
Defined.

Lemma C8_witness :
  exists r st',
    updateDependenciesVersions (Demo.scope []) [Demo.raw_a; Demo.raw_missing]
      (Demo.options true false) Demo.start = (r, st') /\
    EvGet (ComponentID.mk (BitId.mk "teambit" "zzz" None)) (Ok None)
      ∈ trace (snd st') /\
    r = Err (ComponentNotFound (ComponentID.mk (BitId.mk "teambit" "zzz" None))) /\
    Forall (fun e => stage e <= 2) (trace (snd st')).
Proof.
  eexists. eexists. split; [vm_compute; reflexivity|].
  assert (EvGet (ComponentID.mk (BitId.mk "teambit" "zzz" None)) (Ok None)
            ∈ [EvImport
                 [ComponentID.mk (BitId.mk "teambit" "b" (Some "latest"));
                  ComponentID.mk (BitId.mk "teambit" "b" (Some "latest"))]
                 false (Ok tt);
               EvGet (ComponentID.mk (BitId.mk "teambit" "a" None))
                 (Ok (Some (Demo.stored Demo.legacy_a)));
               EvGetExactVersionBySemverRange
                 (ComponentID.mk (BitId.mk "teambit" "b" None)) "^1.0.0"
                 (Ok (Some "1.1.0"));
               EvGet (ComponentID.mk (BitId.mk "teambit" "zzz" None)) (Ok None)])
    as Hin by (repeat constructor).
  split; [exact Hin|].
  eapply (C8_absent_component_aborts (Demo.scope [])
            [Demo.raw_a; Demo.raw_missing] (Demo.options true false)
            (This.mk [] (Demo.options false false)) 0).
  - vm_compute. reflexivity.
  - exact Hin.
Defined.





(** ** No exception is swallowed *)

Section FailFastFacts.
Context {S : Type} `{Traced S}.

Lemma fail_fast_nil {A} (r : result A) : fail_fast [] r.
Proof. apply fail_fast_returned. constructor. Qed.

Lemma failfast_silent {A} (m : SE S A) : emits silent m -> failfast m.
Proof.
  intros Hm s r s' Heq. destruct (Hm _ _ _ Heq) as (t & Ht & F).
  exists t. split; [exact Ht|]. apply fail_fast_returned.
  eapply Forall_impl; eauto. intros ev [].
Qed.

Lemma fail_fast_Ok_returned {A} t (a : A) :
  fail_fast t (Ok a) -> Forall returned t.
Proof. intros Hff. inversion Hff; subst. assumption. Qed.

Lemma fail_fast_retype {A B} t e :
  fail_fast t (Err e : result A) -> fail_fast t (Err e : result B).
Proof.
  intros Hff. inversion Hff; subst.
  - apply fail_fast_returned. assumption.
  - apply fail_fast_thrown; assumption.
Qed.

Lemma fail_fast_app {A} t1 t2 (r : result A) :
  Forall returned t1 -> fail_fast t2 r -> fail_fast (t1 ++ t2) r.
Proof.
  intros F1 Hff. inversion Hff; subst.
  - apply fail_fast_returned. apply Forall_app; auto.
  - rewrite app_assoc. apply fail_fast_thrown; auto.
    apply Forall_app; auto.
Qed.

Lemma failfast_bind {A B} (m : SE S A) (k : A -> SE S B) :
  failfast m -> (forall a, failfast (k a)) -> failfast (bind m k).
Proof.
  intros Hm Hk s r s' Heq. unfold bind in Heq.
  destruct (m s) as [[a|e] s1] eqn:Hms.
  - destruct (Hm _ _ _ Hms) as (t1 & E1 & F1).
    destruct (Hk a _ _ _ Heq) as (t2 & E2 & F2).
    exists (t1 ++ t2). rewrite E2, E1, app_assoc. split; [reflexivity|].
    apply fail_fast_app; [|exact F2].
    eapply fail_fast_Ok_returned; eauto.
  - inversion Heq; subst.
    destruct (Hm _ _ _ Hms) as (t1 & E1 & F1).
    exists t1. split; [exact E1|]. apply (@fail_fast_retype A B). exact F1.
Qed.

Lemma failfast_mapM {A B} (f : A -> SE S B) l :
  (forall a, failfast (f a)) -> failfast (mapM f l).
Proof.
  intros Hf. induction l as [|a l IH]; simpl.
  - apply failfast_silent, emits_ret.
  - apply failfast_bind; [apply Hf|]. intros b.
    apply failfast_bind; [apply IH|]. intros bs.
    apply failfast_silent, emits_ret.
Qed.
End FailFastFacts.

Section FailFastFocus.
Context {X E : Type} `{Traced E}.

Lemma failfast_liftE {A} (m : SE E A) :
  failfast m -> failfast (liftE m : SE (X * E) A).
Proof.
  intros Hm [x e] r s' Heq. unfold liftE in Heq. simpl in Heq.
  destruct (m e) as [r0 e0] eqn:Hme. inversion Heq; subst.
  apply Hm in Hme. exact Hme.
Qed.

Lemma failfast_forEachM (f : SE (X * E) unit) :
  failfast f -> failfast (forEachM f).
Proof.
  intros Hf [l e]. unfold forEachM. simpl.
  revert e. induction l as [|x l IH]; simpl; intros e r s' Heq.
  - inversion Heq; subst. exists []. unfold trace_of, focus_traced. simpl.
    rewrite app_nil_r. split; [reflexivity|apply fail_fast_nil].
  - destruct (f (x, e)) as [[[]|err] [x' e1]] eqn:Hx.
    + destruct (forEach f l e1) as [res [r' e2]] eqn:Hl.
      inversion Heq; subst.
      destruct (Hf _ _ _ Hx) as (t1 & E1 & F1).
      destruct (IH _ _ _ Hl) as (t2 & E2 & F2).
      unfold trace_of, focus_traced in *. simpl in *.
      exists (t1 ++ t2). rewrite E2, E1, app_assoc. split; [reflexivity|].
      apply fail_fast_app; [|exact F2].
      eapply fail_fast_Ok_returned; eauto.
    + inversion Heq; subst.
      destruct (Hf _ _ _ Hx) as (t1 & E1 & F1).
      exists t1. split; [exact E1|exact F1].
Qed.
End FailFastFocus.

Lemma failfast_zoom {X Y E A} `{Traced E} (get : X -> Y) (set : Y -> X -> X)
    (m : SE (Y * E) A) :
  failfast m -> failfast (zoom get set m).
Proof.
  intros Hm [x e] r s' Heq. unfold zoom in Heq. simpl in Heq.
  destruct (m (get x, e)) as [r0 [y e0]] eqn:Hme. inversion Heq; subst.
  apply Hm in Hme. exact Hme.
Qed.

Lemma failfast_call {W A} (f : W -> result A * W) ev :
  (forall r, event_error (ev r) = result_error r) -> failfast (call f ev).
Proof.
  intros Hev env r s' Heq. unfold call in Heq.
  destruct (f (world env)) as [r0 w]. inversion Heq; subst.
  exists [ev r]. split; [reflexivity|].
  destruct r as [a|e].
  - apply fail_fast_returned. constructor; [|constructor].
    unfold returned. rewrite Hev. reflexivity.
  - apply (fail_fast_thrown []); [constructor|]. rewrite Hev. reflexivity.
Qed.

Ltac failfast_step :=
  cbv zeta;
  first
    [ apply failfast_silent;
      first [ apply emits_ret | apply emits_throw | apply emits_gets
            | apply emits_of_result | apply emits_getX | apply emits_modifyX ]
    | apply failfast_bind; [|intros ?]
    | apply failfast_mapM; intros ?
    | apply failfast_forEachM | apply failfast_zoom | apply failfast_liftE
    | apply failfast_call; intros ?; reflexivity
    | match goal with
      | |- failfast (match ?x with _ => _ end) => destruct x
      | |- failfast (if ?x then _ else _) => destruct x
      end ].

Ltac failfast_tac := repeat failfast_step.

Section FailFastRun.
Context {W : Type} (C : Collaborators W).

Lemma logger_debug_failfast msg : failfast (@logger_debug W msg).
Proof.
  intros env r s' Heq. inversion Heq; subst.
  exists [EvDebug msg]. split; [reflexivity|].
  apply fail_fast_returned. constructor; [reflexivity|constructor].
Qed.

Lemma date_now_failfast : failfast (date_now C).
Proof.
  intros env r s' Heq. unfold date_now in Heq.
  destruct (Date_now W C (world env)) as [d w].
  inversion Heq; subst. eexists [_]. split; [reflexivity|].
  apply fail_fast_returned. constructor; [reflexivity|constructor].
Qed.

Lemma getExactVersionBySemverRange_failfast id range :
  failfast (getExactVersionBySemverRange C id range).
Proof.
  intros env r s' Heq. unfold getExactVersionBySemverRange in Heq.
  destruct (scope_getVersionHistory W C id (world env)) as [[versions|e] w];
    inversion Heq; subst; eexists [_]; (split; [reflexivity|]).
  - apply fail_fast_returned. constructor; [reflexivity|constructor].
  - apply (fail_fast_thrown []); [constructor|reflexivity].
Qed.

Lemma updateDependenciesVersions_failfast raw opts :
  failfast (updateDependenciesVersions C raw opts).
Proof.
  unfold updateDependenciesVersions, importAllMissing, parseDevUpdatesItems,
    parseDevUpdatesItem, getDependencyWithExactVersion, fromString,
    updateFutureVersion, planVersion, updateAllDeps, updateDepsOfItem,
    updateDependenciesVersionsOfComponent, updateDependencyResolver,
    rewriteDep, rewriteExt, addLogToComponents, stampLog,
    addFlattenedDependencies, addBuildStatus, addComponentsToScope,
    updateComponents, updateComponent, saveDataIntoLocalScope, saveComponent,
    export, clearScopesCaches, clearScopeCache, onItems, onLegacy,
    onComponent, onConsumer.
  failfast_tac;
    first [ apply getExactVersionBySemverRange_failfast
          | apply logger_debug_failfast
          | apply date_now_failfast
          | idtac ].
  all: failfast_tac.
Qed.

End FailFastRun.

Lemma fail_fast_split {A} (t : list Event) (r : result A) pre ev post e :
  fail_fast t r -> t = pre ++ ev :: post -> event_error ev = Some e ->
  post = [] /\ r = Err e.
Proof.
  intros Hff. destruct Hff as [t0 r0 F|t0 ev0 e0 F He0]; intros Ht He.
  - exfalso. subst t0. rewrite Forall_forall in F.
    assert (returned ev) as Hr.
    { apply F. apply elem_of_app. right. apply elem_of_cons. auto. }
    unfold returned in Hr. congruence.
  - destruct post as [|p post] using rev_ind.
    + apply app_inj_tail in Ht as [_ ->]. split; [reflexivity|]. congruence.
    + exfalso. clear IHpost.
      rewrite app_comm_cons, app_assoc in Ht.
      apply app_inj_tail in Ht as [Ht _]. subst t0.
      rewrite Forall_forall in F.
      assert (returned ev) as Hr.
      { apply F. apply elem_of_app. right. apply elem_of_cons. auto. }
      unfold returned in Hr. congruence.
Qed.

(** ** What a computation preserves *)

Section PreservesFacts.
Context {X E : Type} (R : X -> X -> Prop).




End PreservesFacts.



(** ** The items of a run answer the requests *)

Section RequestFacts.
Context {W : Type} (C : Collaborators W).



















End RequestFacts.

(** ** parseDevUpdatesItems *)

Section ParseShape.
Context {W : Type} (C : Collaborators W).






End ParseShape.

Section ResultShape.
Context {W : Type} (C : Collaborators W).






End ResultShape.

(** ** The calls of a whole run *)

Section RunCalls.
Context {W : Type} (C : Collaborators W).

(** A property of calls holds of every call of a run as soon as it holds
    of the calls of every stage but the build and the last one, of the
    builder call as the source makes it, and of the calls of the last
    step. *)
Lemma run_emits (P : Event -> Prop) raw opts :
  (forall ev, stage ev <> 8 -> stage ev <> 11 -> P ev) ->
  (forall cs r, P (EvTagListener cs true true r)) ->
  emits P (if UpdateDepsOptions.multiple opts
           then export C else clearScopesCaches C) ->
  emits P (updateDependenciesVersions C raw opts).
Proof.
  intros Hother Hbuild Hlast.
  assert (forall p, p <> 8 -> p <> 11 -> forall ev, in_stage p ev -> P ev) as Hst.
  { intros p H8 H11 ev Hev. unfold in_stage in Hev. apply Hother; lia. }
  assert (forall ev, silent ev -> P ev) as Hsil by (intros ev []).
  unfold updateDependenciesVersions.
  apply emits_bind; [emits_tac|intros _].
  apply emits_bind;
    [eapply emits_weaken; [apply (Hst 1); lia|apply importAllMissing_emits]
    |intros _].
  apply emits_bind;
    [eapply emits_weaken;
       [apply (Hst 2); lia|apply emits_liftE, parseDevUpdatesItems_emits]
    |intros items].
  apply emits_bind; [emits_tac|intros _].
  apply emits_bind;
    [eapply emits_weaken; [apply (Hst 3); lia|apply updateFutureVersion_emits]
    |intros _].
  apply emits_bind;
    [eapply emits_weaken; [apply (Hst 4); lia|apply updateAllDeps_emits]
    |intros _].
  apply emits_bind;
    [eapply emits_weaken; [apply (Hst 6); lia|apply addLogToComponents_emits]
    |intros _].
  apply emits_bind;
    [eapply emits_weaken;
       [apply (Hst 6); lia|apply addFlattenedDependencies_emits]
    |intros _].
  apply emits_bind;
    [eapply emits_weaken; [exact Hsil|apply addBuildStatus_emits]|intros _].
  apply emits_bind;
    [eapply emits_weaken; [apply (Hst 7); lia|apply addComponentsToScope_emits]
    |intros _].
  apply emits_bind;
    [eapply emits_weaken; [apply (Hst 7); lia|apply updateComponents_emits]
    |intros _].
  apply emits_bind; [emits_tac|intros components].
  apply emits_bind;
    [apply emits_liftE, emits_call; intros r; apply Hbuild|intros built].
  cbv zeta.
  apply emits_bind; [unfold onItems; emits_tac|intros _].
  apply emits_bind; [emits_tac|intros legacyComponents].
  apply emits_bind;
    [eapply emits_weaken;
       [apply (Hst 10); lia|apply saveDataIntoLocalScope_emits]
    |intros _].
  apply emits_bind; [exact Hlast|intros _].
  emits_tac.
Qed.

Lemma finish_finishes_as opts :
  emits (finishes_as (UpdateDepsOptions.multiple opts))
    (if UpdateDepsOptions.multiple opts then export C else clearScopesCaches C).
Proof.
  destruct (UpdateDepsOptions.multiple opts).
  - unfold export. emits_tac.
    apply emits_call. intros r _. unfold is_export. eauto.
  - unfold clearScopesCaches, clearScopeCache. emits_tac.
    all: apply emits_call; intros r _ (ids & r0 & Heq); discriminate.
Qed.

Lemma stampBuildCommit_build_answered opts (st st' : Main W) r :
  stampBuildCommit C opts st = (r, st') ->
  exists t, trace (snd st') = trace (snd st) ++ t /\
            build_answered_or_not_passed t.
Proof.
  unfold stampBuildCommit. intros Heq.
  set (tail := fun _ : unit =>
         components <- gets (fun s : Main W => This.components (fst s)) ;;
         built <- liftE (call (builder_tagListener W C components true true)
                              (EvTagListener components true true)) ;;
         commitAndReturn C opts built).
  assert (emits (fun ev => stage ev <= 7)
            (addLogToComponents C ;;;
             addFlattenedDependencies C ;;;
             addBuildStatus ;;;
             addComponentsToScope C ;;;
             updateComponents C)) as Hpre.
  { apply emits_bind;
      [eapply emits_weaken; [|apply addLogToComponents_emits];
       unfold in_stage; intros; simpl in *; lia|intros _].
    apply emits_bind;
      [eapply emits_weaken; [|apply addFlattenedDependencies_emits];
       unfold in_stage; intros; simpl in *; lia|intros _].
    apply emits_bind;
      [eapply emits_weaken; [|apply addBuildStatus_emits];
       intros ev []|intros _].
    apply emits_bind;
      [eapply emits_weaken; [|apply addComponentsToScope_emits];
       unfold in_stage; intros; simpl in *; lia|intros _].
    eapply emits_weaken; [|apply updateComponents_emits].
    unfold in_stage; intros; simpl in *; lia. }
  unfold bind at 1 2 3 4 5 in Heq. unfold bind at 1 2 3 4 in Hpre.
  destruct (addLogToComponents C st) as [[[]|e1] s1] eqn:H1.
  2:{ inversion Heq; subst.
      destruct (Hpre st (Err e1) st') as (t & Ht & F);
        [rewrite H1; reflexivity|].
      exists t. split; [exact Ht|]. left.
      eapply Forall_impl; [exact F|]. intros; simpl in *; lia. }
  destruct (addFlattenedDependencies C s1) as [[[]|e2] s2] eqn:H2.
  2:{ inversion Heq; subst.
      destruct (Hpre st (Err e2) st') as (t & Ht & F);
        [rewrite H1, H2; reflexivity|].
      exists t. split; [exact Ht|]. left.
      eapply Forall_impl; [exact F|]. intros; simpl in *; lia. }
  destruct (addBuildStatus s2) as [[[]|e3] s3] eqn:H3.
  2:{ inversion Heq; subst.
      destruct (Hpre st (Err e3) st') as (t & Ht & F);
        [rewrite H1, H2, H3; reflexivity|].
      exists t. split; [exact Ht|]. left.
      eapply Forall_impl; [exact F|]. intros; simpl in *; lia. }
  destruct (addComponentsToScope C s3) as [[[]|e4] s4] eqn:H4.
  2:{ inversion Heq; subst.
      destruct (Hpre st (Err e4) st') as (t & Ht & F);
        [rewrite H1, H2, H3, H4; reflexivity|].
      exists t. split; [exact Ht|]. left.
      eapply Forall_impl; [exact F|]. intros; simpl in *; lia. }
  destruct (updateComponents C s4) as [[[]|e5] s5] eqn:H5.
  2:{ inversion Heq; subst.
      destruct (Hpre st (Err e5) st') as (t & Ht & F);
        [rewrite H1, H2, H3, H4, H5; reflexivity|].
      exists t. split; [exact Ht|]. left.
      eapply Forall_impl; [exact F|]. intros; simpl in *; lia. }
  destruct (Hpre st (Ok tt) s5) as (t & Ht & F);
    [rewrite H1, H2, H3, H4, H5; reflexivity|].
  unfold bind at 1 in Heq. unfold gets at 1 in Heq. cbv beta iota in Heq.
  unfold bind at 1 in Heq. unfold liftE at 1, call at 1 in Heq.
  destruct (builder_tagListener W C (This.components (fst s5)) true true
              (world (snd s5))) as [[built|e] w7] eqn:Hb.
  - simpl in Heq.
    destruct (commitAndReturn_staged C opts built _ _ _ Heq)
      as (t2 & Ht2 & _ & _).
    trace_simpl.
    exists (t ++ [EvTagListener (This.components (fst s5)) true true (Ok built)]
              ++ t2).
    split; [rewrite Ht2, Ht, <- !app_assoc; reflexivity|].
    right. exists (This.components (fst s5)), built.
    apply elem_of_app. right. apply elem_of_app. left.
    apply list_elem_of_singleton. reflexivity.
  - simpl in Heq. inversion Heq; subst. trace_simpl.
    exists (t ++ [EvTagListener (This.components (fst s5)) true true (Err e)]).
    split; [rewrite Ht, <- app_assoc; reflexivity|].
    left. apply Forall_app. split.
    + eapply Forall_impl; [exact F|]. intros; simpl in *; lia.
    + constructor; [simpl; lia|constructor].
Qed.

Lemma run_build_answered raw opts (this : This.t) (w : W) r st' :
  updateDependenciesVersions C raw opts (this, mkEnv w []) = (r, st') ->
  build_answered_or_not_passed (trace (snd st')).
Proof.
  intros Hrun. apply run_cases in Hrun. cbv zeta in Hrun.
  simpl fst in Hrun. simpl snd in Hrun.
  assert (forall t p, p <= 8 -> Forall (in_stage p) t ->
                      Forall (fun ev => stage ev <= 8) t) as Hw.
  { intros t p Hp F. eapply Forall_impl; eauto.
    unfold in_stage. intros; simpl in *; lia. }
  destruct Hrun as [(e & H1 & _)|(s1 & H1 & Hrun)].
  { apply importAllMissing_emits in H1 as (t1 & E1 & F1). trace_simpl.
    left. rewrite E1. apply (Hw _ 1); [lia|exact F1]. }
  apply importAllMissing_emits in H1 as (t1 & E1 & F1). trace_simpl.
  destruct Hrun as [(e & env2 & H2 & _ & ->)|(items & env2 & H2 & Hrun)].
  { apply parseDevUpdatesItems_emits in H2 as (t2 & E2 & F2). trace_simpl.
    left. rewrite E2, E1. apply Forall_app. split.
    - apply (Hw _ 1); [lia|exact F1].
    - apply (Hw _ 2); [lia|exact F2]. }
  apply parseDevUpdatesItems_emits in H2 as (t2 & E2 & F2). trace_simpl.
  destruct Hrun as [(e & H3 & _)|(s3 & H3 & Hrun)].
  { apply updateFutureVersion_emits in H3 as (t3 & E3 & F3). trace_simpl.
    left. rewrite E3, E2, E1. repeat (apply Forall_app; split).
    - apply (Hw _ 1); [lia|exact F1].
    - apply (Hw _ 2); [lia|exact F2].
    - apply (Hw _ 3); [lia|exact F3]. }
  apply updateFutureVersion_emits in H3 as (t3 & E3 & F3). trace_simpl.
  destruct Hrun as [(e & H4 & _)|(s4 & H4 & Hrun)].
  { apply updateAllDeps_emits in H4 as (t4 & E4 & F4). trace_simpl.
    left. rewrite E4, E3, E2, E1. repeat (apply Forall_app; split).
    - apply (Hw _ 1); [lia|exact F1].
    - apply (Hw _ 2); [lia|exact F2].
    - apply (Hw _ 3); [lia|exact F3].
    - apply (Hw _ 4); [lia|exact F4]. }
  apply updateAllDeps_emits in H4 as (t4 & E4 & F4). trace_simpl.
  apply stampBuildCommit_build_answered in Hrun as (t5 & E5 & [F5|F5]).
  - left. rewrite E5, E4, E3, E2, E1. repeat (apply Forall_app; split).
    + apply (Hw _ 1); [lia|exact F1].
    + apply (Hw _ 2); [lia|exact F2].
    + apply (Hw _ 3); [lia|exact F3].
    + apply (Hw _ 4); [lia|exact F4].
    + exact F5.
  - right. destruct F5 as (cs & built & Hin). exists cs, built.
    rewrite E5. apply elem_of_app. right. exact Hin.
Qed.

(** X3: no exception is swallowed.  In every run of
    [updateDependenciesVersions], if a call that the source awaits on its
    own (any call but those started together under [Promise.all]) throws,
    it is the last call the run makes and the run throws that very
    exception. *)
Theorem X3_first_thrown_exception_ends_the_run raw opts (this : This.t)
    (w : W) r st' pre ev post e :
  updateDependenciesVersions C raw opts (this, mkEnv w []) = (r, st') ->
  trace (snd st') = pre ++ ev :: post ->
  started_together ev = false ->
  event_error ev = Some e ->
  post = [] /\ r = Err e.
Proof.
  intros Hrun Ht _ He.
  destruct (updateDependenciesVersions_failfast C raw opts _ _ _ Hrun)
    as (t & Et & Hff).
  trace_simpl. rewrite Et in Ht.
  eapply fail_fast_split; eauto.
Qed.

(** X4: in every run of [updateDependenciesVersions], whatever its
    outcome, the calls come in the order of the workflow: import, then
    parse/resolve, then version planning, then rewriting with the metadata
    update, then stamping, then staging, then the build, then the commit,
    then export or cache clearing.  A call of an earlier stage is never
    made after a call of a later one. *)
Theorem X4_calls_come_in_workflow_order raw opts (this : This.t) (w : W)
    r st' i j a b :
  updateDependenciesVersions C raw opts (this, mkEnv w []) = (r, st') ->
  trace (snd st') !! i = Some a -> trace (snd st') !! j = Some b ->
  stage a < stage b -> i < j.
Proof.
  intros Hrun Hi Hj Hlt.
  destruct (updateDependenciesVersions_staged C raw opts _ _ _ Hrun)
    as (t & Ht & _ & Hsorted).
  trace_simpl. rewrite Ht in Hi, Hj.
  eapply sorted_stage_order; eauto.
Qed.

(** X5: in every run of [updateDependenciesVersions], whatever its
    outcome, the builder is only ever called with [throwOnError] and
    [seedersOnly] set, and a call of the commit or of what follows it
    ([enrichSource], [persist], export, cache clearing) is only made when
    the builder has answered without throwing. *)
Theorem X5_commit_needs_the_builders_answer raw opts (this : This.t) (w : W)
    r st' :
  updateDependenciesVersions C raw opts (this, mkEnv w []) = (r, st') ->
  Forall builder_flags_set (trace (snd st')) /\
  forall ev, ev ∈ trace (snd st') -> 10 <= stage ev ->
    exists components built,
      EvTagListener components true true (Ok built) ∈ trace (snd st').
Proof.
  intros Hrun. split.
  - assert (emits builder_flags_set (updateDependenciesVersions C raw opts))
      as Hem.
    { apply run_emits.
      - intros ev H8 _ cs a b r0 ->. simpl in H8. congruence.
      - intros cs r0 cs' a b r1 Heq. inversion Heq; subst. auto.
      - eapply emits_weaken;
          [|destruct (UpdateDepsOptions.multiple opts);
            [apply export_emits|apply clearScopesCaches_emits]].
        unfold in_stage. intros ev Hst cs a b r0 ->. simpl in Hst. lia. }
    destruct (Hem _ _ _ Hrun) as (t & Ht & F). trace_simpl.
    rewrite Ht. exact F.
  - intros ev Hin Hst.
    destruct (run_build_answered _ _ _ _ _ _ Hrun) as [F|Hans].
    + rewrite Forall_forall in F. apply F in Hin. lia.
    + exact Hans.
Qed.

(** X6: in every run of [updateDependenciesVersions], what follows the
    commit depends on [multiple] alone: with [multiple] set, the only call
    is [exportMany]; with [multiple] not set, [exportMany] is never
    called (the remotes are resolved and sent the PostSign action
    instead). *)
Theorem X6_export_or_clear_caches_never_both raw opts (this : This.t) (w : W)
    r st' ev :
  updateDependenciesVersions C raw opts (this, mkEnv w []) = (r, st') ->
  ev ∈ trace (snd st') -> stage ev = 11 ->
  if UpdateDepsOptions.multiple opts then is_export ev else ~ is_export ev.
Proof.
  intros Hrun Hin Hst.
  assert (emits (finishes_as (UpdateDepsOptions.multiple opts))
            (updateDependenciesVersions C raw opts)) as Hem.
  { apply run_emits.
    - intros ev0 _ H11 Hst0. congruence.
    - intros cs r0 Hst0. simpl in Hst0. lia.
    - apply finish_finishes_as. }
  destruct (Hem _ _ _ Hrun) as (t & Ht & F). trace_simpl.
  rewrite Ht in Hin. rewrite Forall_forall in F.
  apply (F _ Hin Hst).
Qed.

End RunCalls.

(** ** A traversal whose callback never throws *)


(** ** updateFutureVersion: the frame *)

Section PlanFrame.
Context {W : Type} (C : Collaborators W).

Lemma planned_only_refl item : planned_only item item.
Proof.
  unfold planned_only. destruct item as [[i c] d v]. destruct c. reflexivity.
Qed.

Lemma planned_only_set_version v item :
  planned_only item
    (DepUpdateItem.set_legacy
       (ConsumerComponent.set_version v (DepUpdateItem.legacy item)) item).
Proof.
  unfold planned_only. destruct item as [[i c] d v0]. destruct c. reflexivity.
Qed.

Lemma planVersion_outcome opts item (env : Env W) r item' env' :
  planVersion C opts (item, env) = (r, (item', env')) ->
  (exists e, r = Err e /\ item' = item) \/
  (r = Ok tt /\ exists v,
     item' = DepUpdateItem.set_legacy
               (ConsumerComponent.set_version (Some v)
                  (DepUpdateItem.legacy item)) item).
Proof.
  unfold planVersion.
  unfold bind at 1. unfold getX at 1. cbv beta iota. simpl fst.
  unfold bind at 1. unfold liftE at 1, call at 1. simpl.
  destruct (legacyScope_getModelComponent W C _ (world env)) as [[mc|e] w];
    simpl; [|intros Heq; inversion Heq; subst; left; eauto].
  destruct (UpdateDepsOptions.tag opts).
  - unfold bind at 1. unfold of_result at 1.
    destruct (getValidVersionOrReleaseType W C _) as [[rt ev]|e];
      [|intros Heq; inversion Heq; subst; left; eauto].
    unfold bind at 1. unfold of_result at 1. simpl.
    destruct (ModelComponent.getVersionToAdd mc rt ev) as [v|e];
      [|intros Heq; inversion Heq; subst; left; eauto].
    unfold onLegacy, zoom, modifyX. simpl.
    intros Heq; inversion Heq; subst. right. eauto.
  - unfold onLegacy, zoom, modifyX. simpl.
    intros Heq; inversion Heq; subst. right. eauto.
Qed.

Lemma planVersion_snap opts item (env : Env W) mc w' :
  UpdateDepsOptions.tag opts = false ->
  legacyScope_getModelComponent W C
    (ConsumerComponent.id (DepUpdateItem.legacy item)) (world env)
    = (Ok mc, w') ->
  planVersion C opts (item, env)
  = (Ok tt,
     (DepUpdateItem.set_legacy
        (ConsumerComponent.set_version
           (Some (ModelComponent.getSnapToAdd mc))
           (DepUpdateItem.legacy item)) item,
      mkEnv w' (trace env ++
                  [EvGetModelComponent
                     (ConsumerComponent.id (DepUpdateItem.legacy item))
                     (Ok mc)]))).
Proof.
  intros Htag Hmc. unfold planVersion.
  unfold bind at 1. unfold getX at 1. cbv beta iota. simpl fst.
  unfold bind at 1. unfold liftE at 1, call at 1. simpl.
  rewrite Hmc, Htag. reflexivity.
Qed.

(** X7: [updateFutureVersion] writes versions and nothing else.  Whatever
    its outcome, every item of the batch is what it was up to the
    [version] of its legacy component, and the options are untouched;
    when it throws, it throws at one item, that item and every item after
    it are exactly as they were (no item is left half planned).  Without
    [tag], the [versionToTag] of an item plays no part: as soon as the
    model component is found, its snapshot hash is assigned. *)
Theorem X7_updateFutureVersion_writes_versions_only :
  (forall (st : Main W),
     Forall2 planned_only (This.depsUpdateItems (fst st))
       (This.depsUpdateItems (fst (snd (updateFutureVersion C st)))) /\
     This.updateDepsOptions (fst (snd (updateFutureVersion C st)))
     = This.updateDepsOptions (fst st)) /\
  (forall (st st' : Main W) e,
     updateFutureVersion C st = (Err e, st') ->
     exists pre x post pre',
       This.depsUpdateItems (fst st) = pre ++ x :: post /\
       This.depsUpdateItems (fst st') = pre' ++ x :: post /\
       length pre' = length pre) /\
  (forall opts item (env : Env W) mc w',
     UpdateDepsOptions.tag opts = false ->
     legacyScope_getModelComponent W C
       (ConsumerComponent.id (DepUpdateItem.legacy item)) (world env)
       = (Ok mc, w') ->
     fst (planVersion C opts (item, env)) = Ok tt /\
     ConsumerComponent.version
       (DepUpdateItem.legacy (fst (snd (planVersion C opts (item, env)))))
     = Some (ModelComponent.getSnapToAdd mc)).
Proof.
  split; [|split].
  - intros st.
    unfold updateFutureVersion, bind, gets, onItems, zoom, forEachM. simpl.
    destruct (forEach _ _ _) as [r [l' e']] eqn:Hf. simpl.
    split; [|reflexivity].
    eapply forEach_Forall2; [| |exact Hf].
    + apply planned_only_refl.
    + intros x e r0 x' e1 Hx.
      apply planVersion_outcome in Hx as [(err & _ & ->)|(_ & v & ->)].
      * apply planned_only_refl.
      * apply planned_only_set_version.
  - intros st st' e.
    unfold updateFutureVersion, bind, gets, onItems, zoom, forEachM. simpl.
    destruct (forEach _ _ _) as [r [l' e']] eqn:Hf.
    intros Heq. inversion Heq; subst. simpl.
    apply forEach_Err_split in Hf
      as (pre & x & post & pre' & x' & e1 & Hl & -> & Hpre & Hx).
    apply planVersion_outcome in Hx as [(err & _ & ->)|(Hr & _)];
      [|discriminate].
    exists pre, x, post, pre'. split; [exact Hl|]. split; [reflexivity|].
    eapply forEach_length; eauto.
  - intros opts item env mc w' Htag Hmc.
    rewrite (planVersion_snap _ _ _ _ _ Htag Hmc). simpl. auto.
Qed.

End PlanFrame.

(** ** addLogToComponents, addBuildStatus *)

Section StampFacts.
Context {W : Type} (C : Collaborators W).


Lemma addBuildStatus_run (st : Main W) :
  addBuildStatus st
  = (Ok tt,
     (This.set_depsUpdateItems
        (map set_pending (This.depsUpdateItems (fst st))) (fst st),
      snd st)).
Proof.
  unfold addBuildStatus, onItems, zoom, forEachM. simpl.
  assert (forall l (e : Env W),
            forEach (onLegacy (modifyX
                       (ConsumerComponent.set_buildStatus (Some Pending))))
                    l e
            = (Ok tt, (map set_pending l, e))) as Hmap.
  { induction l as [|x l IH]; intros e; simpl; [reflexivity|].
    unfold onLegacy at 1, zoom, modifyX. simpl. rewrite IH. reflexivity. }
  rewrite Hmap. reflexivity.
Qed.


End StampFacts.

(** ** The effect of the rewrite *)

Section RewriteEffect.
Context {W : Type} (C : Collaborators W).

Lemma rewriteDep_step U dl cs d (env : Env W) r d' env' :
  rewriteDep C U dl cs (d, env) = (r, (d', env')) ->
  dep_step C U dl d d' /\ world env' = world env /\
  (r = Ok tt -> d' = rewrittenDep C U dl d) /\
  (missing_package C U dl d = false -> r = Ok tt).
Proof.
  unfold rewriteDep, dep_step, rewrittenDep, missing_package, dep_matches,
    bind, getX. simpl.
  destruct (searchWithoutVersion U (Dependency.id d)) as [u|].
  - destruct (truthy (lookupPackageName dl _)) eqn:Ht.
    + unfold liftE, logger_debug, modifyX. simpl.
      intros Heq. inversion Heq; subst. simpl. auto.
    + unfold throw. intros Heq. inversion Heq; subst. simpl.
      repeat split; auto; discriminate.
  - unfold ret. intros Heq. inversion Heq; subst. auto.
Qed.

Lemma rewriteExt_step U cs e (env : Env W) r e' env' :
  rewriteExt C U cs (e, env) = (r, (e', env')) ->
  r = Ok tt /\ e' = rewrittenExt U e /\ world env' = world env.
Proof.
  unfold rewriteExt, rewrittenExt, bind, getX. simpl.
  destruct (ExtensionDataEntry.extensionId e) as [x|].
  - destruct (searchWithoutVersion U x) as [u|].
    + unfold liftE, logger_debug, modifyX. simpl.
      intros Heq. inversion Heq; subst. auto.
    + unfold ret. intros Heq. inversion Heq; subst. auto.
  - unfold ret. intros Heq. inversion Heq; subst. auto.
Qed.

Lemma rewriteDeps_complete U dl cs l :
  Forall (fun d => missing_package C U dl d = false) l ->
  forall env : Env W, exists env',
    forEach (rewriteDep C U dl cs) l env
    = (Ok tt, (map (rewrittenDep C U dl) l, env')) /\
    world env' = world env.
Proof.
  induction 1 as [|d l Hd _ IH]; intros env; simpl.
  - exists env. auto.
  - destruct (rewriteDep C U dl cs (d, env)) as [r [d' e1]] eqn:H1.
    apply rewriteDep_step in H1 as (_ & Hw & Hok & Hm).
    rewrite (Hm Hd) in *. rewrite (Hok eq_refl).
    destruct (IH e1) as (e2 & -> & Hw2).
    exists e2. split; [reflexivity|congruence].
Qed.

Lemma rewriteExts_complete U cs l :
  forall env : Env W, exists env',
    forEach (rewriteExt C U cs) l env
    = (Ok tt, (map (rewrittenExt U) l, env')) /\
    world env' = world env.
Proof.
  induction l as [|x l IH]; intros env; simpl.
  - exists env. auto.
  - destruct (rewriteExt C U cs (x, env)) as [r [x' e1]] eqn:H1.
    apply rewriteExt_step in H1 as (-> & -> & Hw).
    destruct (IH e1) as (e2 & -> & Hw2).
    exists e2. split; [reflexivity|congruence].
Qed.

(** X9: a rewrite that finds every package name completes, and does what
    a map does.  When the dependency list is obtained and no edge of the
    component is in the lookup set without a package name, then
    [updateDependenciesVersionsOfComponent] returns, and leaves the
    component with every matched edge of both lists pointing to the found
    identifier under the package name of the list, every matched extension
    reference replaced by the found identifier, all in their places, and
    the world as [getDependencies] left it. *)
Theorem X9_rewrite_completes_as_a_map
    (dependencies : list ComponentID.t) (currentBitIds : list BitId.t)
    (c : Component.t) (env : Env W) dl w' :
  dependencyResolver_getDependencies W C c (world env) = (Ok dl, w') ->
  Forall (fun d => missing_package C
                     (updatedIdsOf dependencies currentBitIds) dl d = false)
         (allDeps (Component._consumer c)) ->
  exists env',
    updateDependenciesVersionsOfComponent C dependencies currentBitIds (c, env)
    = (Ok tt,
       (rewrittenComponent C (updatedIdsOf dependencies currentBitIds) dl c,
        env')) /\
    world env' = w'.
Proof.
  set (U := updatedIdsOf dependencies currentBitIds).
  intros Hdl Hall.
  unfold updateDependenciesVersionsOfComponent. fold U.
  unfold bind at 1. unfold getX at 1. cbv beta iota. simpl fst.
  unfold bind at 1. unfold liftE at 1, call at 1. simpl.
  rewrite Hdl. simpl.
  unfold onConsumer, zoom at 1. simpl.
  unfold bind at 1. unfold zoom at 1. simpl.
  unfold forEachM at 1. simpl.
  destruct (rewriteDeps_complete U dl
              (ComponentID_toString W C (Component.id c)) _ Hall
              (mkEnv w' (trace env ++ [EvGetDependencies c (Ok dl)])))
    as (e1 & -> & Hw1).
  simpl. unfold zoom, forEachM. simpl.
  destruct (rewriteExts_complete U
              (ComponentID_toString W C (Component.id c))
              (ConsumerComponent.extensions (Component._consumer c)) e1)
    as (e2 & He2 & Hw2).
  destruct c as [i l]. destruct l; simpl in *.
  rewrite He2. simpl.
  exists e2. split; [|congruence].
  unfold rewrittenComponent, set_allDeps, allDeps. simpl.
  rewrite map_app.
  rewrite <- (length_map (rewrittenDep C U dl) dependencies0) at 1 2.
  rewrite take_app_length, drop_app_length. reflexivity.
Qed.

Lemma dep_step_refl U dl d : dep_step C U dl d d.
Proof. left. reflexivity. Qed.

Lemma ext_step_refl U e : ext_step U e e.
Proof. left. reflexivity. Qed.

Lemma same_target_found U x u :
  searchWithoutVersion U x = Some u -> u ∈ U /\ same_target x u.
Proof.
  unfold searchWithoutVersion. intros Hf.
  apply find_some in Hf as (Hin & Heq).
  split; [apply list_elem_of_In; exact Hin|].
  unfold BitId.isEqualWithoutVersion in Heq.
  apply andb_true_iff in Heq as (Hs & Hn).
  apply String.eqb_eq in Hs, Hn. split; congruence.
Qed.

Lemma rewrittenDep_target U dl d :
  same_dep_target d (rewrittenDep C U dl d).
Proof.
  unfold same_dep_target, rewrittenDep.
  destruct (searchWithoutVersion U (Dependency.id d)) as [u|] eqn:Hs.
  - simpl. eapply same_target_found; eauto.
  - split; reflexivity.
Qed.

Lemma rewrittenExt_target U e :
  same_ext_target e (rewrittenExt U e).
Proof.
  unfold same_ext_target, rewrittenExt.
  destruct (ExtensionDataEntry.extensionId e) as [x|] eqn:Hx.
  - destruct (searchWithoutVersion U x) as [u|] eqn:Hs.
    + simpl. eapply same_target_found; eauto.
    + rewrite Hx. split; reflexivity.
  - rewrite Hx. exact I.
Qed.

Lemma allDeps_steps (R : Dependency.t -> Dependency.t -> Prop)
    (deps dev l' : list Dependency.t) :
  Forall2 R (deps ++ dev) l' ->
  Forall2 R deps (take (length deps) l') /\
  Forall2 R dev (drop (length deps) l').
Proof.
  intros F. apply Forall2_app_inv_l in F as (k1 & k2 & F1 & F2 & ->).
  assert (length k1 = length deps) as Hlen
    by (symmetry; eapply Forall2_length; eauto).
  rewrite <- Hlen, take_app_length, drop_app_length. auto.
Qed.

(** X10: a rewrite that throws leaves no edge in a third state.  Whatever
    the outcome of [updateDependenciesVersionsOfComponent], once the
    dependency list is obtained every edge of both lists and every
    extension entry is either exactly as it was or exactly as the completed
    rewrite leaves it; when the rewrite throws, the extensions are all as
    they were; and when the dependency list cannot be obtained, the
    component is untouched.  With the lookup as the spec describes it, a
    rewritten edge or reference keeps the scope and the name of its
    target. *)
Theorem X10_rewrite_steps_are_all_or_nothing
    (dependencies : list ComponentID.t) (currentBitIds : list BitId.t)
    (c c' : Component.t) (env env' : Env W) r rdl w' :
  updateDependenciesVersionsOfComponent C dependencies currentBitIds (c, env)
  = (r, (c', env')) ->
  dependencyResolver_getDependencies W C c (world env) = (rdl, w') ->
  match rdl with
  | Err e => r = Err e /\ c' = c
  | Ok dl =>
      rewrite_steps C (updatedIdsOf dependencies currentBitIds) dl r c c'
  end.
Proof.
  intros Hrun Hdl. set (U := updatedIdsOf dependencies currentBitIds).
  unfold rewrite_steps. fold U. revert Hrun.
  unfold updateDependenciesVersionsOfComponent. fold U.
  unfold bind at 1. unfold getX at 1. cbv beta iota. simpl fst.
  unfold bind at 1. unfold liftE at 1, call at 1. simpl.
  rewrite Hdl. destruct rdl as [dl|e]; simpl;
    [|intros Heq; inversion Heq; subst; auto].
  unfold onConsumer, zoom at 1. simpl.
  unfold bind at 1. unfold zoom at 1. simpl.
  destruct (forEachM (rewriteDep C U dl (ComponentID_toString W C (Component.id c)))
              (allDeps (Component._consumer c),
               mkEnv w' (trace env ++ [EvGetDependencies c (Ok dl)])))
    as [r1 [l1 env1]] eqn:H1.
  unfold forEachM in H1. simpl in H1.
  assert (Forall2 (dep_step C U dl) (allDeps (Component._consumer c)) l1) as F1.
  { eapply forEach_Forall2; [| |exact H1].
    - apply dep_step_refl.
    - intros x e0 r0 x' e0' Hx. apply rewriteDep_step in Hx. tauto. }
  apply allDeps_steps in F1 as [Fd Fv].
  destruct r1 as [[]|err]; simpl.
  - unfold zoom. simpl.
    destruct (forEachM (rewriteExt C U (ComponentID_toString W C (Component.id c)))
                (ConsumerComponent.extensions (Component._consumer c), env1))
      as [r2 [l2 env2]] eqn:H2.
    unfold forEachM in H2. simpl in H2.
    assert (Forall2 (ext_step U)
              (ConsumerComponent.extensions (Component._consumer c)) l2) as F2.
    { eapply forEach_Forall2; [| |exact H2].
      - apply ext_step_refl.
      - intros x e0 r0 x' e0' Hx. apply rewriteExt_step in Hx.
        right. tauto. }
    assert (r2 = Ok tt) as ->.
    { destruct (rewriteExts_complete U
                  (ComponentID_toString W C (Component.id c))
                  (ConsumerComponent.extensions (Component._consumer c)) env1)
        as (e2 & He2 & _).
      rewrite He2 in H2. congruence. }
    intros Heq. inversion Heq; subst. simpl.
    split; [exact Fd|]. split; [exact Fv|]. split; [exact F2|].
    split; [congruence|].
    split; [apply rewrittenDep_target|apply rewrittenExt_target].
  - intros Heq. inversion Heq; subst. simpl.
    split; [exact Fd|]. split; [exact Fv|].
    split; [apply Forall2_refl_list, ext_step_refl|].
    split; [reflexivity|].
    split; [apply rewrittenDep_target|apply rewrittenExt_target].
Qed.

End RewriteEffect.

(** ** Parsing before importing *)

Section MapMFacts.
Context {S A B : Type}.

Lemma mapM_untouched (f : A -> SE S B) :
  (forall a s, snd (f a s) = s) ->
  forall l s, snd (mapM f l s) = s.
Proof.
  intros Hf. induction l as [|a l IH]; intros s; simpl; [reflexivity|].
  unfold bind. specialize (Hf a s).
  destruct (f a s) as [[b|e] s1]; simpl in *; subst; [|reflexivity].
  specialize (IH s). destruct (mapM f l s) as [[bs|e] s2]; simpl in *; auto.
Qed.

Lemma mapM_Err_elem (f : A -> SE S B) l a :
  a ∈ l ->
  (forall s, exists e, fst (f a s) = Err e) ->
  forall s, exists e, fst (mapM f l s) = Err e.
Proof.
  intros Hin Ha. induction l as [|a0 l IH]; intros s; simpl.
  - inversion Hin.
  - unfold bind. destruct (f a0 s) as [[b|e] s1] eqn:H0; simpl; [|eauto].
    apply elem_of_cons in Hin as [->|Hin].
    + destruct (Ha s) as (e & He). rewrite H0 in He. discriminate.
    + destruct (IH Hin s1) as (e & He).
      destruct (mapM f l s1) as [[bs|e'] s2]; simpl in *; [discriminate|eauto].
Qed.

Lemma mapM_Err_inv (f : A -> SE S B) l s e s' :
  mapM f l s = (Err e, s') ->
  exists a s0, a ∈ l /\ fst (f a s0) = Err e.
Proof.
  revert s. induction l as [|a0 l IH]; intros s; simpl.
  - discriminate.
  - unfold bind. destruct (f a0 s) as [[b|e0] s1] eqn:H0.
    + destruct (mapM f l s1) as [[bs|e1] s2] eqn:H1; [discriminate|].
      intros Heq. inversion Heq; subst.
      apply IH in H1 as (a & s0 & Hin & Ha).
      exists a, s0. split; [apply elem_of_cons; auto|exact Ha].
    + intros Heq. inversion Heq; subst.
      exists a0, s. split; [apply elem_of_cons; auto|rewrite H0; reflexivity].
Qed.

End MapMFacts.

Lemma elem_of_concat {A} (x : A) (ls : list (list A)) :
  x ∈ concat ls <-> exists l, x ∈ l /\ l ∈ ls.
Proof.
  split.
  - intros Hx. apply list_elem_of_In, in_concat in Hx as (l & Hl & Hx).
    exists l. split; apply list_elem_of_In; assumption.
  - intros (l & Hx & Hl). apply list_elem_of_In, in_concat. exists l.
    split; apply list_elem_of_In; assumption.
Qed.

Section ParseFirst.
Context {W : Type} (C : Collaborators W).

Lemma fromString_untouched {S} str (s : S) : snd (fromString C str s) = s.
Proof. reflexivity. Qed.

Lemma latestOf_untouched (item : DepUpdateItemRaw.t) (s : Main W) :
  snd ((ids <- mapM (fromString C) (DepUpdateItemRaw.dependencies item) ;;
        ret (map (ComponentID.changeVersion (Some LATEST)) ids)) s) = s.
Proof.
  unfold bind.
  pose proof (mapM_untouched (fromString C) (fun a s => eq_refl)
                (DepUpdateItemRaw.dependencies item) s) as Hs.
  destruct (mapM _ _ s) as [[ids|e] s1]; simpl in *; auto.
Qed.

Lemma importAllMissing_malformed raw (st : Main W) str e :
  str ∈ batch_strings raw ->
  ComponentID_fromString W C str = Err e ->
  exists e' str',
    importAllMissing C raw st = (Err e', st) /\
    str' ∈ batch_strings raw /\
    ComponentID_fromString W C str' = Err e'.
Proof.
  intros Hin Hbad.
  pose (f1 := fun d : DepUpdateItemRaw.t =>
                (fromString C (DepUpdateItemRaw.componentId d)
                 : SE (Main W) ComponentID.t)).
  pose (f2 := fun item : DepUpdateItemRaw.t =>
                ((ids <- mapM (fromString C)
                              (DepUpdateItemRaw.dependencies item) ;;
                  ret (map (ComponentID.changeVersion (Some LATEST)) ids))
                 : SE (Main W) (list ComponentID.t))).
  assert (forall s, exists e0, fst (fromString C str s : result _ * Main W)
                               = Err e0) as Hstr
    by (intros s; exists e; unfold fromString, of_result; simpl;
        exact Hbad).
  destruct (mapM f1 raw st) as [[roots|e1] s1] eqn:H1;
    (assert (s1 = st) as ->
       by (pose proof (f_equal snd H1) as Hs; simpl in Hs; rewrite <- Hs;
           apply (mapM_untouched f1 (fun a s => eq_refl)))).
  - destruct (mapM f2 raw st) as [[depss|e2] s2] eqn:H2;
      (assert (s2 = st) as ->
         by (pose proof (f_equal snd H2) as Hs; simpl in Hs; rewrite <- Hs;
             apply (mapM_untouched f2 latestOf_untouched))).
    + exfalso.
      unfold batch_strings in Hin. apply elem_of_app in Hin as [Hin|Hin].
      * apply list_elem_of_fmap in Hin as (d & -> & Hd).
        destruct (mapM_Err_elem f1 raw d Hd (fun s => Hstr s) st)
          as (e0 & He0).
        rewrite H1 in He0. discriminate.
      * apply elem_of_concat in Hin as (l & Hl' & Hl).
        apply list_elem_of_fmap in Hl as (d & -> & Hd).
        destruct (mapM_Err_elem f2 raw d Hd) with (s := st) as (e0 & He0).
        { intros s. unfold f2, bind.
          destruct (mapM_Err_elem (fromString C)
                      (DepUpdateItemRaw.dependencies d) str Hl' Hstr s)
            as (e0 & He0).
          destruct (mapM (fromString C) _ s) as [[ids|e1] s1];
            simpl in *; [discriminate|eauto]. }
        rewrite H2 in He0. discriminate.
    + exists e2.
      pose proof H2 as H2'.
      apply mapM_Err_inv in H2' as (d & s0 & Hd & Hd').
      unfold f2, bind in Hd'.
      destruct (mapM (fromString C) (DepUpdateItemRaw.dependencies d) s0)
        as [[ids|e3] s3] eqn:H3; simpl in Hd'; [discriminate|].
      inversion Hd'; subst e3.
      apply mapM_Err_inv in H3 as (str' & s4 & Hstr' & Hbad').
      exists str'. split; [|split; [|exact Hbad']].
      * unfold importAllMissing.
        etransitivity; [exact (bind_step_Ok _ _ _ _ _ H1)|].
        exact (bind_step_Err _ _ _ _ _ H2).
      * unfold batch_strings. apply elem_of_app. right.
        apply elem_of_concat. exists (DepUpdateItemRaw.dependencies d).
        split; [exact Hstr'|]. apply list_elem_of_fmap. eauto.
  - exists e1.
    pose proof H1 as H1'.
    apply mapM_Err_inv in H1' as (d & s0 & Hd & Hd').
    exists (DepUpdateItemRaw.componentId d).
    split; [|split; [|exact Hd']].
    + unfold importAllMissing. exact (bind_step_Err _ _ _ _ _ H1).
    + unfold batch_strings. apply elem_of_app. left.
      apply list_elem_of_fmap. eauto.
Qed.

(** X11: identifiers are validated before anything is touched.  When one
    identifier string of the batch, a root or a dependency of any item,
    does not parse, [updateDependenciesVersions] throws the parse error of
    such a string without having called any collaborator: the world and
    the trace are as they were, and of [this] only the options are set. *)
Theorem X11_malformed_identifier_stops_before_any_call
    raw opts (st : Main W) str e :
  str ∈ batch_strings raw ->
  ComponentID_fromString W C str = Err e ->
  exists e' str',
    updateDependenciesVersions C raw opts st
    = (Err e', (This.set_updateDepsOptions opts (fst st), snd st)) /\
    str' ∈ batch_strings raw /\
    ComponentID_fromString W C str' = Err e'.
Proof.
  intros Hin Hbad.
  destruct (importAllMissing_malformed raw
              (This.set_updateDepsOptions opts (fst st), snd st) str e Hin Hbad)
    as (e' & str' & Himp & Hin' & Hbad').
  exists e', str'. split; [|auto].
  unfold updateDependenciesVersions.
  unfold bind at 1. unfold modifyX at 1. cbv beta iota.
  rewrite (bind_step_Err _ _ _ _ _ Himp). reflexivity.
Qed.

End ParseFirst.

(** ** updateAllDeps: rewrite, then metadata *)

Section Composition.
Context {W : Type} (C : Collaborators W).

Lemma updateDependenciesVersionsOfComponent_no_extract deps cur :
  emits (fun ev => is_extract ev = false)
    (updateDependenciesVersionsOfComponent C deps cur).
Proof.
  unfold updateDependenciesVersionsOfComponent, onConsumer, rewriteDep,
    rewriteExt.
  emits_tac.
Qed.

(** X12: dependency metadata is recomputed from the rewritten component.
    In [updateAllDeps], for every item, [extractDepsFromLegacy] is called
    only when the rewrite of that item completed, once, and on the
    component as the rewrite left it; when the rewrite throws, the item
    keeps the partly rewritten component and the exception is the
    rewrite's; in every case the resolved dependencies and [versionToTag]
    of the item stay. *)
Theorem X12_metadata_is_extracted_from_the_rewritten_component
    currentBitIds item (env : Env W) r item' env' rw c1 env1 :
  updateDepsOfItem C currentBitIds (item, env) = (r, (item', env')) ->
  updateDependenciesVersionsOfComponent C
    (DepUpdateItem.dependencies item) currentBitIds
    (DepUpdateItem.component item, env) = (rw, (c1, env1)) ->
  extracted_after_rewrite item (trace env) (trace env') r item' rw c1
    (trace env1).
Proof.
  intros Hrun Hrw. unfold extracted_after_rewrite.
  destruct (updateDependenciesVersionsOfComponent_no_extract _ _ _ _ _ Hrw)
    as (t1 & Ht1 & F1).
  unfold trace_of, focus_traced, trace_of, Env_traced in Ht1. simpl in Ht1.
  revert Hrun. unfold updateDepsOfItem.
  unfold bind at 1. unfold getX at 1. cbv beta iota. simpl fst.
  unfold onComponent, zoom. simpl.
  unfold bind at 1. rewrite Hrw.
  destruct rw as [[]|e].
  - unfold updateDependencyResolver.
    unfold bind at 1. unfold getX at 1. cbv beta iota. simpl fst.
    unfold bind at 1. unfold liftE at 1, call at 1. simpl.
    destruct (dependencyResolver_extractDepsFromLegacy W C c1 (world env1))
      as [[deps|e] w]; simpl.
    + unfold onConsumer, zoom, modifyX. simpl.
      intros Heq. inversion Heq; subst. simpl.
      split; [reflexivity|]. split; [reflexivity|].
      exists t1, [EvExtractDepsFromLegacy c1 (Ok deps)].
      split; [exact Ht1|]. split; [reflexivity|]. split; [exact F1|].
      eexists. reflexivity.
    + intros Heq. inversion Heq; subst. simpl.
      split; [reflexivity|]. split; [reflexivity|].
      exists t1, [EvExtractDepsFromLegacy c1 (Err e)].
      split; [exact Ht1|]. split; [reflexivity|]. split; [exact F1|].
      eexists. reflexivity.
  - intros Heq. inversion Heq; subst. simpl.
    split; [reflexivity|]. split; [reflexivity|].
    exists t1, [].
    split; [exact Ht1|]. split; [rewrite app_nil_r; reflexivity|].
    split; [exact F1|]. auto.
Qed.

End Composition.

(** ** saveDataIntoLocalScope: enrich all, then persist *)

Section PersistFacts.
Context {W : Type} (C : Collaborators W).

Lemma saveComponents_no_persist buildStatus :
  emits (fun ev => is_persist ev = false)
    (onItems (forEachM (onLegacy (saveComponent C buildStatus)))
       : SE (Main W) unit).
Proof. unfold onItems, onLegacy, saveComponent. emits_tac. Qed.

(** X13: nothing is persisted before every component is enriched.  In
    every run of [saveDataIntoLocalScope], [persist] is called at most
    once, and when it is, the calls before it are exactly one completed
    [enrichSource] per item of the batch, in batch order, each on a
    component carrying the given build status; the outcome of the method
    is then the outcome of [persist].  When an [enrichSource] throws,
    nothing is persisted, and the method throws. *)
Theorem X13_persist_follows_complete_enrichment
    buildStatus (st st' : Main W) r :
  saveDataIntoLocalScope C buildStatus st = (r, st') ->
  persists_after_enrichment buildStatus st r st'.
Proof.
  unfold persists_after_enrichment, saveDataIntoLocalScope. unfold bind at 1.
  destruct (onItems (forEachM (onLegacy (saveComponent C buildStatus))) st)
    as [[[]|e] s1] eqn:H1.
  - unfold onItems, zoom, forEachM in H1. simpl in H1.
    destruct (forEach _ _ _) as [r1 [l' e']] eqn:Hf.
    inversion H1; subst. clear H1.
    apply saveComponents_Ok in Hf as (E1 & F1).
    unfold liftE, call. simpl.
    destruct (objects_persist W C (world e')) as [r0 w].
    intros Heq. inversion Heq; subst. simpl.
    exists (map enrich_call l' ++ [EvPersist r]).
    split; [rewrite E1, <- app_assoc; reflexivity|].
    split; [auto|].
    intros Hno. exfalso.
    specialize (Hno (EvPersist r)). simpl in Hno.
    assert (true = false); [|discriminate].
    apply Hno. apply elem_of_app. right. apply elem_of_cons. auto.
  - intros Heq. inversion Heq; subst.
    destruct (saveComponents_no_persist buildStatus _ _ _ H1) as (t & Ht & F).
    exists t. split; [exact Ht|]. split; [|eauto].
    intros (ev & Hin & Hp).
    rewrite Forall_forall in F. rewrite (F _ Hin) in Hp. discriminate.
Qed.

End PersistFacts.

(** ** The empty batch *)

Section EmptyBatch.
Context {W : Type} (C : Collaborators W).

(** X14: an empty batch still goes through the store, the builder and the
    commit.  A run on no item that returns has made exactly five calls:
    an import of nothing, the flattening of no component, a build of no
    component, a persist, and then an export of nothing when [multiple]
    is set, or the listing of the remotes when it is not; no component is
    looked up, no remote is resolved, and the result has no item. *)
Theorem X14_empty_batch_still_builds_and_persists
    opts (this : This.t) (w : W) res st' :
  updateDependenciesVersions C [] opts (this, mkEnv w []) = (Ok res, st') ->
  UpdateDepsResult.depsUpdateItems res = [] /\
  exists flattened built,
    trace (snd st')
    = [EvImport [] false (Ok tt);
       EvAddFlattenedDependencies [] (Ok flattened);
       EvTagListener [] true true (Ok built);
       EvPersist (Ok tt);
       if UpdateDepsOptions.multiple opts
       then EvExportMany [] (Ok tt) else EvGetScopeRemotes (Ok tt)].
Proof.
  unfold updateDependenciesVersions, importAllMissing, parseDevUpdatesItems,
    updateFutureVersion, updateAllDeps, addLogToComponents,
    addFlattenedDependencies, addBuildStatus, addComponentsToScope,
    updateComponents, saveDataIntoLocalScope, export, clearScopesCaches,
    onItems, zoom, forEachM, bind, gets, ret, modifyX, liftE, call,
    This.legacyComponents, This.components, write_back.
  simpl.
  destruct (UpdateDepsOptions.multiple opts) eqn:Hm.
  - destruct (scope_import W C [] false w) as [[[]|e] w1]; simpl;
      [|discriminate].
    destruct (addFlattenedDependenciesToComponents W C [] w1)
      as [[fl|e] w2]; simpl; [|discriminate].
    destruct (builder_tagListener W C [] true true w2) as [[b|e] w3]; simpl;
      [|discriminate].
    destruct (objects_persist W C w3) as [[[]|e] w4]; simpl; [|discriminate].
    destruct (exportMany W C [] w4) as [[[]|e] w5]; simpl; [|discriminate].
    intros Heq. inversion Heq; subst. simpl. split; eauto.
  - destruct (scope_import W C [] false w) as [[[]|e] w1]; simpl;
      [|discriminate].
    destruct (addFlattenedDependenciesToComponents W C [] w1)
      as [[fl|e] w2]; simpl; [|discriminate].
    destruct (builder_tagListener W C [] true true w2) as [[b|e] w3]; simpl;
      [|discriminate].
    destruct (objects_persist W C w3) as [[[]|e] w4]; simpl; [|discriminate].
    destruct (getScopeRemotes W C w4) as [[[]|e] w5]; simpl; [|discriminate].
    intros Heq. inversion Heq; subst. simpl. split; eauto.
Qed.

End EmptyBatch.

(** ** addComponentsToScope, updateComponents: store, reload, build *)

Section StoreReload.
Context {W : Type} (C : Collaborators W).

Lemma addSources_Ok l (env : Env W) bs env' :
  mapM (fun component =>
          call (sources_addSourceFromScope W C component)
               (EvAddSourceFromScope component)) l env = (Ok bs, env') ->
  trace env' = trace env ++ map store_call l.
Proof.
  revert env bs env'. induction l as [|c l IH]; simpl; intros env bs env' Heq.
  - inversion Heq; subst. rewrite app_nil_r. reflexivity.
  - apply bind_Ok in Heq as (b & e1 & H1 & Heq).
    apply bind_Ok in Heq as (bs' & e2 & H2 & Heq).
    inversion Heq; subst. apply IH in H2. rewrite H2.
    unfold call in H1.
    destruct (sources_addSourceFromScope W C c (world env)) as [[[]|e] w];
      inversion H1; subst. simpl.
    rewrite <- app_assoc. reflexivity.
Qed.

Lemma addComponentsToScope_Ok (st st' : Main W) :
  addComponentsToScope C st = (Ok tt, st') ->
  fst st' = fst st /\
  trace (snd st') = trace (snd st)
                      ++ map store_call (This.legacyComponents (fst st)).
Proof.
  intros Heq. split; [eapply addComponentsToScope_keeps; eauto|].
  unfold addComponentsToScope in Heq.
  apply bind_Ok in Heq as (ls & s1 & H1 & Heq).
  inversion H1; subst; clear H1.
  apply bind_Ok in Heq as (bs & s2 & H2 & Heq).
  inversion Heq; subst; clear Heq.
  unfold liftE in H2.
  destruct (mapM _ _ (snd s1)) as [rb e'] eqn:Hm.
  inversion H2; subst. simpl.
  eapply addSources_Ok; eauto.
Qed.

Lemma updateComponent_Ok item (env : Env W) item' env' :
  updateComponent C (item, env) = (Ok tt, (item', env')) ->
  item' = DepUpdateItem.set_component (DepUpdateItem.component item') item /\
  trace env' = trace env
                 ++ [reload_call (DepUpdateItem.legacy item)
                       (DepUpdateItem.component item')].
Proof.
  unfold updateComponent, bind, getX, liftE, call, modifyX. simpl.
  destruct (scope_getFromConsumerComponent W C _ (world env)) as [[c|e] w];
    simpl; intros Heq; inversion Heq; subst.
  simpl. auto.
Qed.

Lemma updateComponents_forEach_Ok items (env : Env W) items' env' :
  forEach (updateComponent C) items env = (Ok tt, (items', env')) ->
  trace env' = trace env
                 ++ zip_with reload_call (map DepUpdateItem.legacy items)
                      (map DepUpdateItem.component items') /\
  length items' = length items.
Proof.
  revert env items' env'.
  induction items as [|item items IH]; simpl; intros env items' env' Heq.
  - inversion Heq; subst. simpl. rewrite app_nil_r. auto.
  - destruct (updateComponent C (item, env)) as [[[]|err] [item1 env1]] eqn:H1;
      [|discriminate].
    destruct (forEach _ items env1) as [res [items1 env2]] eqn:H2.
    inversion Heq; subst.
    apply updateComponent_Ok in H1 as (_ & E1).
    apply IH in H2 as (E2 & L2). simpl.
    split; [|congruence].
    rewrite E2, E1, <- app_assoc. reflexivity.
Qed.

Lemma updateComponents_Ok (st st' : Main W) :
  updateComponents C st = (Ok tt, st') ->
  trace (snd st') = trace (snd st)
                      ++ zip_with reload_call (This.legacyComponents (fst st))
                           (This.components (fst st')) /\
  length (This.components (fst st'))
  = length (This.legacyComponents (fst st)).
Proof.
  unfold updateComponents, onItems, zoom, forEachM. simpl.
  destruct (forEach _ _ _) as [r [l' e']] eqn:Hf.
  intros Heq. inversion Heq; subst. simpl.
  apply updateComponents_forEach_Ok in Hf as (E & L).
  unfold This.legacyComponents, This.components. simpl.
  split; [exact E|]. rewrite !length_map. exact L.
Qed.

Lemma stampBuildCommit_stored_reloaded opts (st st' : Main W) r :
  stampBuildCommit C opts st = (r, st') ->
  exists t, trace (snd st') = trace (snd st) ++ t /\
    (Forall not_build t \/
     exists pre legacyComponents components rb post,
       t = pre
             ++ map store_call legacyComponents
             ++ zip_with reload_call legacyComponents components
             ++ EvTagListener components true true rb :: post /\
       length legacyComponents = length components /\
       Forall not_build pre /\ Forall not_build post).
Proof.
  unfold stampBuildCommit. intros Heq.
  assert (forall p t, p <> 8 -> Forall (in_stage p) t -> Forall not_build t)
    as Hnb.
  { intros p t Hp F. eapply Forall_impl; [exact F|].
    unfold in_stage, not_build. intros; simpl in *; lia. }
  unfold bind at 1 in Heq.
  destruct (addLogToComponents C st) as [[[]|e1] s1] eqn:H1.
  2:{ inversion Heq; subst.
      apply addLogToComponents_emits in H1 as (t1 & E1 & F1).
      exists t1. split; [exact E1|]. left. apply (Hnb 6); [lia|exact F1]. }
  apply addLogToComponents_emits in H1 as (t1 & E1 & F1).
  unfold bind at 1 in Heq.
  destruct (addFlattenedDependencies C s1) as [[[]|e2] s2] eqn:H2.
  2:{ inversion Heq; subst.
      apply addFlattenedDependencies_emits in H2 as (t2 & E2 & F2).
      trace_simpl.
      exists (t1 ++ t2). split; [rewrite E2, E1, <- app_assoc; reflexivity|].
      left. apply Forall_app. split; apply (Hnb 6); auto; lia. }
  apply addFlattenedDependencies_emits in H2 as (t2 & E2 & F2).
  unfold bind at 1 in Heq.
  destruct (addBuildStatus s2) as [[[]|e3] s3] eqn:H3.
  2:{ rewrite (addBuildStatus_run s2) in H3. discriminate. }
  rewrite (addBuildStatus_run s2) in H3. inversion H3; subst s3; clear H3.
  unfold bind at 1 in Heq.
  match type of Heq with
  | context [addComponentsToScope C ?s] =>
      destruct (addComponentsToScope C s) as [[[]|e4] s4] eqn:H4
  end.
  2:{ inversion Heq; subst.
      apply addComponentsToScope_emits in H4 as (t4 & E4 & F4).
      trace_simpl.
      exists (t1 ++ t2 ++ t4).
      split; [rewrite E4, E2, E1, <- !app_assoc; reflexivity|].
      left. repeat (apply Forall_app; split).
      - apply (Hnb 6); auto; lia.
      - apply (Hnb 6); auto; lia.
      - apply (Hnb 7); auto; lia. }
  apply addComponentsToScope_Ok in H4 as (K4 & E4). simpl in K4, E4.
  unfold bind at 1 in Heq.
  destruct (updateComponents C s4) as [[[]|e5] s5] eqn:H5.
  2:{ inversion Heq; subst.
      apply updateComponents_emits in H5 as (t5 & E5 & F5).
      trace_simpl.
      exists (t1 ++ t2 ++ map store_call
                (This.legacyComponents
                   (This.set_depsUpdateItems
                      (map set_pending (This.depsUpdateItems (fst s2)))
                      (fst s2))) ++ t5).
      split; [rewrite E5, E4, E2, E1, <- !app_assoc; reflexivity|].
      left. repeat (apply Forall_app; split).
      - apply (Hnb 6); auto; lia.
      - apply (Hnb 6); auto; lia.
      - apply Forall_forall. intros ev Hev.
        apply list_elem_of_fmap in Hev as (c & -> & _).
        unfold not_build. simpl. lia.
      - apply (Hnb 7); auto; lia. }
  apply updateComponents_Ok in H5 as (E5 & L5). rewrite K4 in E5, L5.
  unfold bind at 1 in Heq. unfold gets at 1 in Heq. cbv beta iota in Heq.
  unfold bind at 1 in Heq. unfold liftE at 1, call at 1 in Heq.
  destruct (builder_tagListener W C (This.components (fst s5)) true true
              (world (snd s5))) as [rb w7] eqn:Hb.
  set (ls := This.legacyComponents
               (This.set_depsUpdateItems
                  (map set_pending (This.depsUpdateItems (fst s2)))
                  (fst s2))) in *.
  assert (exists post,
            trace (snd st')
            = (trace (snd s5)
                 ++ [EvTagListener (This.components (fst s5)) true true rb])
                ++ post /\
            Forall not_build post) as (post & Ep & Fp).
  { destruct rb as [built|e]; simpl in Heq.
    - destruct (commitAndReturn_staged C opts built _ _ _ Heq)
        as (t7 & E7 & F7 & _).
      trace_simpl. exists t7. split; [exact E7|].
      eapply Forall_impl; [exact F7|].
      unfold stage_between, not_build. intros; simpl in *; lia.
    - inversion Heq; subst. simpl. exists []. rewrite app_nil_r. auto. }
  trace_simpl.
  exists ((t1 ++ t2) ++ map store_call ls
            ++ zip_with reload_call ls (This.components (fst s5))
            ++ EvTagListener (This.components (fst s5)) true true rb :: post).
  split.
  - rewrite Ep, E5, E4, E2, E1, <- !app_assoc. reflexivity.
  - right. exists (t1 ++ t2), ls, (This.components (fst s5)), rb, post.
    split; [reflexivity|]. split; [symmetry; exact L5|].
    split; [|exact Fp].
    apply Forall_app. split; apply (Hnb 6); auto; lia.
Qed.

Lemma build_call_unique (a b : list Event) ev ev' :
  Forall not_build a -> Forall not_build b ->
  stage ev = 8 -> ev ∈ a ++ ev' :: b -> ev = ev'.
Proof.
  intros Fa Fb Hs Hin.
  apply elem_of_app in Hin as [Hin|Hin].
  - rewrite Forall_forall in Fa. destruct (Fa _ Hin). exact Hs.
  - apply elem_of_cons in Hin as [->|Hin]; [reflexivity|].
    rewrite Forall_forall in Fb. destruct (Fb _ Hin). exact Hs.
Qed.

(** X15: what is built is what was stored and reloaded.  In every run,
    whenever the builder is called on [components], the calls just before
    it are one completed [addSourceFromScope] per legacy component of the
    batch, in batch order, then one completed [getFromConsumerComponent]
    per legacy component, on the same legacy components in the same
    order, and [components] are the answers of these reloads, in order.
    The builder is therefore never called when a store or a reload
    throws. *)
Theorem X15_builder_gets_the_stored_and_reloaded_components
    raw opts (this : This.t) (w : W) r st' components rb :
  updateDependenciesVersions C raw opts (this, mkEnv w []) = (r, st') ->
  EvTagListener components true true rb ∈ trace (snd st') ->
  stored_reloaded_built components rb (trace (snd st')).
Proof.
  intros Hrun Hin. apply run_cases in Hrun. cbv zeta in Hrun.
  simpl fst in Hrun. simpl snd in Hrun.
  assert (forall p t, p <> 8 -> Forall (in_stage p) t -> Forall not_build t)
    as Hnb.
  { intros p t Hp F. eapply Forall_impl; [exact F|].
    unfold in_stage, not_build. intros; simpl in *; lia. }
  assert (forall t, Forall not_build t ->
                    EvTagListener components true true rb ∈ t -> False)
    as Hout.
  { intros t F Ht. rewrite Forall_forall in F. apply (F _ Ht). reflexivity. }
  destruct Hrun as [(e & H1 & _)|(s1 & H1 & Hrun)].
  { apply importAllMissing_emits in H1 as (t1 & E1 & F1). trace_simpl.
    exfalso. apply (Hout (trace (snd st'))); [|exact Hin].
    rewrite E1. apply (Hnb 1); auto. }
  apply importAllMissing_emits in H1 as (t1 & E1 & F1). trace_simpl.
  destruct Hrun as [(e & env2 & H2 & _ & ->)|(items & env2 & H2 & Hrun)].
  { apply parseDevUpdatesItems_emits in H2 as (t2 & E2 & F2). trace_simpl.
    exfalso. apply (Hout (trace env2)); [|exact Hin].
    rewrite E2, E1. apply Forall_app.
    split; [apply (Hnb 1)|apply (Hnb 2)]; auto. }
  apply parseDevUpdatesItems_emits in H2 as (t2 & E2 & F2). trace_simpl.
  destruct Hrun as [(e & H3 & _)|(s3 & H3 & Hrun)].
  { apply updateFutureVersion_emits in H3 as (t3 & E3 & F3). trace_simpl.
    exfalso. apply (Hout (trace (snd st'))); [|exact Hin].
    rewrite E3, E2, E1. repeat (apply Forall_app; split).
    - apply (Hnb 1); auto.
    - apply (Hnb 2); auto.
    - apply (Hnb 3); auto. }
  apply updateFutureVersion_emits in H3 as (t3 & E3 & F3). trace_simpl.
  destruct Hrun as [(e & H4 & _)|(s4 & H4 & Hrun)].
  { apply updateAllDeps_emits in H4 as (t4 & E4 & F4). trace_simpl.
    exfalso. apply (Hout (trace (snd st'))); [|exact Hin].
    rewrite E4, E3, E2, E1. repeat (apply Forall_app; split).
    - apply (Hnb 1); auto.
    - apply (Hnb 2); auto.
    - apply (Hnb 3); auto.
    - apply (Hnb 4); auto. }
  apply updateAllDeps_emits in H4 as (t4 & E4 & F4). trace_simpl.
  assert (Forall not_build (((t1 ++ t2) ++ t3) ++ t4)) as Fpre.
  { repeat (apply Forall_app; split).
    - apply (Hnb 1); auto.
    - apply (Hnb 2); auto.
    - apply (Hnb 3); auto.
    - apply (Hnb 4); auto. }
  apply stampBuildCommit_stored_reloaded in Hrun
    as (t5 & E5 & [F5|(pre & ls & cs & rb' & post & -> & L & Fp & Fq)]).
  - exfalso. apply (Hout (trace (snd st'))); [|exact Hin].
    rewrite E5, E4, E3, E2, E1. apply Forall_app. split; auto.
  - rewrite E4, E3, E2, E1 in E5.
    assert (trace (snd st')
            = (((((t1 ++ t2) ++ t3) ++ t4) ++ pre)
                 ++ map store_call ls ++ zip_with reload_call ls cs)
                ++ EvTagListener cs true true rb' :: post) as E.
    { rewrite E5, <- !app_assoc. reflexivity. }
    rewrite E in Hin.
    assert (Forall not_build
              ((((((t1 ++ t2) ++ t3) ++ t4) ++ pre)
                  ++ map store_call ls ++ zip_with reload_call ls cs)))
      as Fall.
    { apply Forall_app. split; [apply Forall_app; split; assumption|].
      apply Forall_app. split.
      - apply Forall_forall. intros ev Hev.
        apply list_elem_of_fmap in Hev as (c & -> & _).
        unfold not_build. simpl. lia.
      - apply Forall_forall. intros ev Hev.
        apply elem_of_lookup_zip_with in Hev as (i & l & c & -> & _ & _).
        unfold not_build. simpl. lia. }
    apply (build_call_unique _ _ (EvTagListener components true true rb) _
             Fall Fq eq_refl) in Hin.
    inversion Hin; subst cs rb'.
    exists ((((t1 ++ t2) ++ t3) ++ t4) ++ pre), ls, post.
    split; [rewrite E5, <- !app_assoc; reflexivity|exact L].
Qed.

End StoreReload.

(** ** clearScopesCaches: one action per scope *)

Section GroupFacts.

Lemma group_insert_keys s id acc :
  map fst (group_insert s id acc)
  = if decide (s ∈ map fst acc) then map fst acc else map fst acc ++ [s].
Proof.
  induction acc as [|[k ids] acc IH]; simpl.
  - destruct (decide (s ∈ [])) as [H|_]; [inversion H|reflexivity].
  - destruct (String.eqb_spec k s) as [->|Hne]; simpl.
    + destruct (decide (s ∈ s :: map fst acc)) as [_|H]; [reflexivity|].
      destruct H. apply elem_of_cons. auto.
    + rewrite IH.
      destruct (decide (s ∈ map fst acc)) as [Hin|Hnin];
        destruct (decide (s ∈ k :: map fst acc)) as [Hin'|Hnin'];
        try reflexivity.
      * destruct Hnin'. apply elem_of_cons. auto.
      * apply elem_of_cons in Hin' as [->|Hin']; [congruence|contradiction].
Qed.

Lemma group_insert_NoDup s id acc :
  NoDup (map fst acc) -> NoDup (map fst (group_insert s id acc)).
Proof.
  intros Hnd. rewrite group_insert_keys.
  destruct (decide (s ∈ map fst acc)) as [Hin|Hnin]; [exact Hnd|].
  apply NoDup_app. split; [exact Hnd|]. split.
  - intros x Hx Hs. apply list_elem_of_singleton in Hs. subst. contradiction.
  - apply NoDup_singleton.
Qed.

Lemma group_insert_scopes id acc :
  Forall (fun g => Forall (fun i => BitId.scope i = fst g) (snd g)) acc ->
  Forall (fun g => Forall (fun i => BitId.scope i = fst g) (snd g))
         (group_insert (BitId.scope id) id acc).
Proof.
  induction 1 as [|[k ids] acc Hg Hacc IH]; simpl.
  - repeat constructor.
  - destruct (String.eqb_spec k (BitId.scope id)) as [->|Hne].
    + constructor; [|assumption]. simpl in *.
      apply Forall_app. split; [exact Hg|]. repeat constructor.
    + constructor; assumption.
Qed.

Lemma group_insert_members s id acc :
  concat (map snd (group_insert s id acc)) ≡ₚ concat (map snd acc) ++ [id].
Proof.
  induction acc as [|[k ids] acc IH]; simpl.
  - reflexivity.
  - destruct (String.eqb_spec k s) as [->|Hne]; simpl.
    + rewrite <- !app_assoc. apply Permutation_app_head.
      apply Permutation_app_comm.
    + rewrite IH, app_assoc. reflexivity.
Qed.

Lemma toGroupByScopeName_from ids acc done :
  partition_by_scope done acc ->
  partition_by_scope (done ++ ids)
    (fold_left (fun acc id => group_insert (BitId.scope id) id acc) ids acc).
Proof.
  revert acc done. induction ids as [|id ids IH]; intros acc done H; simpl.
  - rewrite app_nil_r. exact H.
  - replace (done ++ id :: ids) with ((done ++ [id]) ++ ids)
      by (rewrite <- app_assoc; reflexivity).
    apply IH. destruct H as (Hnd & Hsc & Hperm).
    split; [apply group_insert_NoDup; exact Hnd|].
    split; [apply group_insert_scopes; exact Hsc|].
    rewrite group_insert_members, Hperm. reflexivity.
Qed.

Lemma toGroupByScopeName_partition ids :
  partition_by_scope ids (toGroupByScopeName ids).
Proof.
  apply (toGroupByScopeName_from ids [] []).
  split; [constructor|]. split; [constructor|reflexivity].
Qed.

End GroupFacts.

Section CacheFacts.
Context {W : Type} (C : Collaborators W).

Lemma clearScopeCache_Ok group (env env' : Env W) :
  clearScopeCache C group env = (Ok tt, env') ->
  exists remote, trace env' = trace env ++ cache_calls C group remote.
Proof.
  unfold clearScopeCache, bind, call. simpl.
  destruct (remotes_resolve W C (fst group) (world env)) as [[remote|e] w1];
    simpl; [|discriminate].
  destruct (remote_action W C remote PostSign_name _ w1) as [[[]|e] w2];
    simpl; intros Heq; inversion Heq; subst.
  exists remote. simpl. rewrite <- app_assoc. reflexivity.
Qed.

Lemma clearScopeCaches_mapM_Ok groups (env env' : Env W) bs :
  mapM (clearScopeCache C) groups env = (Ok bs, env') ->
  exists remotes,
    length remotes = length groups /\
    trace env' = trace env
                   ++ concat (zip_with (cache_calls C) groups remotes).
Proof.
  revert env env' bs.
  induction groups as [|g groups IH]; simpl; intros env env' bs Heq.
  - inversion Heq; subst. exists []. simpl. rewrite app_nil_r. auto.
  - apply bind_Ok in Heq as ([] & e1 & H1 & Heq).
    apply bind_Ok in Heq as (bs' & e2 & H2 & Heq).
    inversion Heq; subst.
    apply clearScopeCache_Ok in H1 as (remote & E1).
    apply IH in H2 as (remotes & L & E2).
    exists (remote :: remotes). simpl. split; [congruence|].
    rewrite E2, E1, <- app_assoc. reflexivity.
Qed.

(** X16: a completed [clearScopesCaches] signs every component once, at
    the remote of its own scope.  The identifiers of the batch are split
    by scope into groups, one per scope name, that together hold every
    identifier once; after the list of remotes is obtained, each group
    gets one resolve of its scope name and one [PostSign] action, sent to
    the remote that resolve returned, with the identifiers of the group
    as strings; the calls are these and no others, in some order, and
    [this] is untouched. *)
Theorem X16_clearScopesCaches_signs_each_scope_once (st st' : Main W) :
  clearScopesCaches C st = (Ok tt, st') ->
  signs_each_scope_once C st st'.
Proof.
  intros Heq. unfold signs_each_scope_once. cbv zeta.
  split; [eapply clearScopesCaches_keeps; eauto|].
  split; [apply toGroupByScopeName_partition|].
  unfold clearScopesCaches in Heq.
  apply bind_Ok in Heq as (ls & s1 & H1 & Heq).
  inversion H1; subst; clear H1.
  apply bind_Ok in Heq as ([] & s2 & H2 & Heq).
  unfold liftE, call in H2. simpl in H2.
  destruct (getScopeRemotes W C (world (snd s1))) as [[[]|e] w1];
    inversion H2; subst; clear H2.
  apply bind_Ok in Heq as (bs & s3 & H3 & Heq).
  inversion Heq; subst; clear Heq.
  unfold liftE in H3. simpl in H3.
  destruct (mapM _ _ _) as [rb e'] eqn:Hm.
  inversion H3; subst. simpl.
  apply clearScopeCaches_mapM_Ok in Hm as (remotes & L & E).
  exists remotes, (concat (zip_with (cache_calls C)
                             (toGroupByScopeName
                                (map ConsumerComponent.id
                                   (This.legacyComponents (fst s1))))
                             remotes)).
  split; [exact L|]. split; [|reflexivity].
  rewrite E. simpl. rewrite <- app_assoc. reflexivity.
Qed.

End CacheFacts.

(** ** The properties above, on the instance [Demo] *)



Lemma X3_witness :
  trace (snd (snd failing_run))
  = removelast (trace (snd (snd failing_run)))
      ++ EvPersist (Err (Error "disk full")) :: [] /\
  started_together (EvPersist (Err (Error "disk full"))) = false /\
  event_error (EvPersist (Err (Error "disk full")))
  = Some (Error "disk full") /\
  ([] = ([] : list Event) /\ fst failing_run = Err (Error "disk full")).
Proof.
  split; [vm_compute; reflexivity|]. split; [reflexivity|].
  split; [reflexivity|].
  apply (X3_first_thrown_exception_ends_the_run
           (with_failing_persist (Demo.scope []) (Error "disk full"))
           [Demo.raw_a] (Demo.options true false)
           (This.mk [] (Demo.options false false)) 0
           (fst failing_run) (snd failing_run)
           (removelast (trace (snd (snd failing_run))))
           (EvPersist (Err (Error "disk full"))) []
           (Error "disk full")).
  - vm_compute. reflexivity.
  - vm_compute. reflexivity.
  - reflexivity.
  - reflexivity.
Defined.

Lemma X4_witness :
  exists r st' a b,
    updateDependenciesVersions (Demo.scope []) [Demo.raw_a]
      (Demo.options true false) Demo.start = (r, st') /\
    trace (snd st') !! 0 = Some a /\
    trace (snd st') !! 3 = Some b /\
    stage a < stage b /\ 0 < 3.
Proof.
  eexists. eexists. eexists. eexists.
  split; [vm_compute; reflexivity|].
  split; [vm_compute; reflexivity|].
  split; [vm_compute; reflexivity|].
  match goal with |- ?A /\ _ => assert A as Hlt by (simpl; lia) end.
  split; [exact Hlt|].
  eapply (X4_calls_come_in_workflow_order (Demo.scope []) [Demo.raw_a]
            (Demo.options true false) (This.mk [] (Demo.options false false))
            0 _ _ 0 3).
  - vm_compute. reflexivity.
  - vm_compute. reflexivity.
  - vm_compute. reflexivity.
  - exact Hlt.
Defined.

Lemma X5_witness :
  exists r st',
    updateDependenciesVersions (Demo.scope [Demo.cleanPipe]) [Demo.raw_a]
      (Demo.options true false) Demo.start = (r, st') /\
    Forall builder_flags_set (trace (snd st')) /\
    forall ev, ev ∈ trace (snd st') -> 10 <= stage ev ->
      exists components built,
        EvTagListener components true true (Ok built) ∈ trace (snd st').
Proof.
  eexists. eexists. split; [vm_compute; reflexivity|].
  eapply (X5_commit_needs_the_builders_answer (Demo.scope [Demo.cleanPipe])
            [Demo.raw_a] (Demo.options true false)
            (This.mk [] (Demo.options false false)) 0).
  vm_compute. reflexivity.
Defined.

Lemma X6_witness :
  exists r st' ev,
    updateDependenciesVersions (Demo.scope []) [Demo.raw_a_plain; Demo.raw_b]
      (Demo.options true true) Demo.start = (r, st') /\
    ev ∈ trace (snd st') /\ stage ev = 11 /\ is_export ev.
Proof.
  eexists. eexists. eexists.
  match goal with
  | |- ?A /\ _ => assert A as Hrun by (vm_compute; reflexivity)
  end.
  split; [exact Hrun|].
  match goal with |- ?A /\ _ => assert A as Hin end.
  { apply list_elem_of_In. simpl. do 22 right. left. reflexivity. }
  split; [exact Hin|]. split; [reflexivity|].
  exact (X6_export_or_clear_caches_never_both (Demo.scope [])
           [Demo.raw_a_plain; Demo.raw_b] (Demo.options true true)
           (This.mk [] (Demo.options false false)) 0 _ _ _ Hrun Hin eq_refl).
Defined.

Lemma X7_witness :
  UpdateDepsOptions.tag (Demo.options false false) = false /\
  legacyScope_getModelComponent nat (Demo.scope [])
    (ConsumerComponent.id (DepUpdateItem.legacy Demo.item_a)) 0
  = (Ok (Demo.modelComponent (ConsumerComponent.id Demo.legacy_a)), 1) /\
  fst (planVersion (Demo.scope []) (Demo.options false false)
         (Demo.item_a, mkEnv 0 [])) = Ok tt /\
  ConsumerComponent.version
    (DepUpdateItem.legacy
       (fst (snd (planVersion (Demo.scope []) (Demo.options false false)
                    (Demo.item_a, mkEnv 0 [])))))
  = Some (ModelComponent.getSnapToAdd
            (Demo.modelComponent (ConsumerComponent.id Demo.legacy_a))).
Proof.
  split; [reflexivity|]. split; [reflexivity|].
  apply (proj2 (proj2 (X7_updateFutureVersion_writes_versions_only
                         (Demo.scope [])))
               (Demo.options false false) Demo.item_a (mkEnv 0 [])
               (Demo.modelComponent (ConsumerComponent.id Demo.legacy_a)) 1
               eq_refl eq_refl).
Defined.


Lemma X9_witness :
  dependencyResolver_getDependencies nat (Demo.scope [])
    (Demo.stored Demo.legacy_a) 0
  = (Ok (Demo.dependenciesOf (Demo.stored Demo.legacy_a)), 1) /\
  Forall (fun d => missing_package (Demo.scope [])
                     (updatedIdsOf [Demo.b_resolved] [])
                     (Demo.dependenciesOf (Demo.stored Demo.legacy_a)) d
                   = false)
         (allDeps Demo.legacy_a) /\
  exists env',
    updateDependenciesVersionsOfComponent (Demo.scope []) [Demo.b_resolved] []
      (Demo.stored Demo.legacy_a, mkEnv 0 [])
    = (Ok tt,
       (rewrittenComponent (Demo.scope []) (updatedIdsOf [Demo.b_resolved] [])
          (Demo.dependenciesOf (Demo.stored Demo.legacy_a))
          (Demo.stored Demo.legacy_a),
        env')) /\
    world env' = 1.
Proof.
  assert (Forall (fun d => missing_package (Demo.scope [])
                     (updatedIdsOf [Demo.b_resolved] [])
                     (Demo.dependenciesOf (Demo.stored Demo.legacy_a)) d
                   = false)
            (allDeps Demo.legacy_a)) as Hall
    by (repeat constructor).
  split; [reflexivity|]. split; [exact Hall|].
  apply (X9_rewrite_completes_as_a_map (Demo.scope []) [Demo.b_resolved] []
           (Demo.stored Demo.legacy_a) (mkEnv 0 [])
           (Demo.dependenciesOf (Demo.stored Demo.legacy_a)) 1
           eq_refl Hall).
Defined.

Lemma X10_witness :
  exists r c' env',
    updateDependenciesVersionsOfComponent (Demo.scope []) [Demo.b_resolved] []
      (Demo.stored Demo.legacy_c, mkEnv 0 []) = (r, (c', env')) /\
    dependencyResolver_getDependencies nat (Demo.scope [])
      (Demo.stored Demo.legacy_c) 0
    = (Ok (Demo.dependenciesOf (Demo.stored Demo.legacy_c)), 1) /\
    rewrite_steps (Demo.scope []) (updatedIdsOf [Demo.b_resolved] [])
      (Demo.dependenciesOf (Demo.stored Demo.legacy_c)) r
      (Demo.stored Demo.legacy_c) c'.
Proof.
  eexists. eexists. eexists.
  split; [vm_compute; reflexivity|]. split; [reflexivity|].
  eapply (X10_rewrite_steps_are_all_or_nothing (Demo.scope [])
            [Demo.b_resolved] [] (Demo.stored Demo.legacy_c) _
            (mkEnv 0 []) _ _
            (Ok (Demo.dependenciesOf (Demo.stored Demo.legacy_c))) 1).
  - vm_compute. reflexivity.
  - reflexivity.
Defined.

Lemma X11_witness :
  "nonsense" ∈ batch_strings [DepUpdateItemRaw.mk "teambit/a" ["nonsense"] None] /\
  ComponentID_fromString nat (Demo.scope []) "nonsense"
  = Err (Error "invalid id nonsense") /\
  exists e' str',
    updateDependenciesVersions (Demo.scope [])
      [DepUpdateItemRaw.mk "teambit/a" ["nonsense"] None]
      (Demo.options true false) Demo.start
    = (Err e',
       (This.set_updateDepsOptions (Demo.options true false) (fst Demo.start),
        snd Demo.start)) /\
    str' ∈ batch_strings [DepUpdateItemRaw.mk "teambit/a" ["nonsense"] None] /\
    ComponentID_fromString nat (Demo.scope []) str' = Err e'.
Proof.
  assert ("nonsense"
            ∈ batch_strings [DepUpdateItemRaw.mk "teambit/a" ["nonsense"] None])
    as Hin by (unfold batch_strings; simpl; repeat constructor).
  split; [exact Hin|]. split; [reflexivity|].
  apply (X11_malformed_identifier_stops_before_any_call (Demo.scope [])
           [DepUpdateItemRaw.mk "teambit/a" ["nonsense"] None]
           (Demo.options true false) Demo.start "nonsense"
           (Error "invalid id nonsense") Hin eq_refl).
Defined.

Lemma X12_witness :
  exists r item' env' rw c1 env1,
    updateDepsOfItem (Demo.scope []) [] (Demo.item_a, mkEnv 0 [])
    = (r, (item', env')) /\
    updateDependenciesVersionsOfComponent (Demo.scope [])
      (DepUpdateItem.dependencies Demo.item_a) []
      (DepUpdateItem.component Demo.item_a, mkEnv 0 [])
    = (rw, (c1, env1)) /\
    extracted_after_rewrite Demo.item_a [] (trace env') r item' rw c1
      (trace env1).
Proof.
  do 6 eexists.
  split; [vm_compute; reflexivity|]. split; [vm_compute; reflexivity|].
  eapply (X12_metadata_is_extracted_from_the_rewritten_component
            (Demo.scope []) [] Demo.item_a (mkEnv 0 [])).
  - vm_compute. reflexivity.
  - vm_compute. reflexivity.
Defined.

Lemma X13_witness :
  exists r st',
    saveDataIntoLocalScope (Demo.scope []) Succeed Demo.rewrite_start
    = (r, st') /\
    persists_after_enrichment Succeed Demo.rewrite_start r st'.
Proof.
  eexists. eexists. split; [vm_compute; reflexivity|].
  eapply (X13_persist_follows_complete_enrichment (Demo.scope []) Succeed
            Demo.rewrite_start).
  vm_compute. reflexivity.
Defined.

Lemma X14_witness :
  exists res st',
    updateDependenciesVersions (Demo.scope []) [] (Demo.options true false)
      Demo.start = (Ok res, st') /\
    UpdateDepsResult.depsUpdateItems res = [] /\
    exists flattened built,
      trace (snd st')
      = [EvImport [] false (Ok tt);
         EvAddFlattenedDependencies [] (Ok flattened);
         EvTagListener [] true true (Ok built);
         EvPersist (Ok tt);
         EvGetScopeRemotes (Ok tt)].
Proof.
  eexists. eexists. split; [vm_compute; reflexivity|].
  eapply (X14_empty_batch_still_builds_and_persists (Demo.scope [])
            (Demo.options true false) (This.mk [] (Demo.options false false))
            0).
  vm_compute. reflexivity.
Defined.

Lemma X15_witness :
  exists r st' components rb,
    updateDependenciesVersions (Demo.scope []) [Demo.raw_a]
      (Demo.options true false) Demo.start = (r, st') /\
    EvTagListener components true true rb ∈ trace (snd st') /\
    stored_reloaded_built components rb (trace (snd st')).
Proof.
  do 4 eexists.
  match goal with
  | |- ?A /\ _ => assert A as Hrun by (vm_compute; reflexivity)
  end.
  split; [exact Hrun|].
  match goal with |- ?A /\ _ => assert A as Hin end.
  { apply list_elem_of_In. simpl. do 12 right. left. reflexivity. }
  split; [exact Hin|].
  exact (X15_builder_gets_the_stored_and_reloaded_components (Demo.scope [])
           [Demo.raw_a] (Demo.options true false)
           (This.mk [] (Demo.options false false)) 0 _ _ _ _ Hrun Hin).
Defined.

Lemma X16_witness :
  exists st',
    clearScopesCaches (Demo.scope []) Demo.rewrite_start = (Ok tt, st') /\
    signs_each_scope_once (Demo.scope []) Demo.rewrite_start st'.
Proof.
  eexists. split; [vm_compute; reflexivity|].
  eapply (X16_clearScopesCaches_signs_each_scope_once (Demo.scope [])
            Demo.rewrite_start).
  vm_compute. reflexivity.
Defined.
